(** * College counselor bot: retrieval pipeline, session handoff and
      context assembly, embedded from the server source.

    JavaScript values are modelled as follows.
    - A string is the list of its UTF-16 code units ([list N]); [lit]
      injects an ASCII literal, other characters are written as code units.
      [toLowerCase]/[toUpperCase] map the ASCII letters and leave every other
      code unit unchanged.
    - Numbers that the code only counts with (ranks, keyword scores, rating
      counts) are integers ([Z]); numbers that are genuinely floating point
      (similarities, embeddings, ratings, major scores) are binary64 floats.
    - A JSON key that may be absent, null or present is a [field].
    - The collaborators (embedding, web search, completion) are oracles. *)

From Stdlib Require Import ZArith NArith String Ascii List Bool Lia Floats.
From Stdlib Require Import Sorted Permutation.
From stdpp Require Import gmap list.

Set Warnings "-inexact-float".

Local Open Scope string_scope.
Local Open Scope list_scope.
Local Open Scope N_scope.

(** ** JavaScript strings *)

Module JS.

Abbreviation jsstring := (list N).

Definition lit (s : string) : jsstring :=
  map N_of_ascii (list_ascii_of_string s).

Definition eqs (a b : jsstring) : bool := bool_decide (a = b).

(** WhiteSpace and LineTerminator code units: the class [\s] of regular
    expressions and the characters removed by [trim]. *)
Definition isSpace (c : N) : bool :=
  ((9 <=? c) && (c <=? 13)) || (c =? 32) || (c =? 160) || (c =? 5760)
  || ((8192 <=? c) && (c <=? 8202)) || (c =? 8232) || (c =? 8233)
  || (c =? 8239) || (c =? 8287) || (c =? 12288) || (c =? 65279).

Definition isDigit (c : N) : bool := (48 <=? c) && (c <=? 57).
Definition isUpperAZ (c : N) : bool := (65 <=? c) && (c <=? 90).
Definition isLowerAZ (c : N) : bool := (97 <=? c) && (c <=? 122).

(** [\w]: letters, digits and underscore. *)
Definition isWordChar (c : N) : bool :=
  isUpperAZ c || isLowerAZ c || isDigit c || (c =? 95).

(** [toLowerCase] and [toUpperCase] on the ASCII letters. On ASCII strings
    they are the methods of the language; these also map the letters of
    other scripts and may lengthen the string. Where a property is about
    the normalization of any text, the case mapping is a parameter (see
    [nameKey] and [canonCourseWith]). *)
Definition lowerChar (c : N) : N := if isUpperAZ c then c + 32 else c.
Definition upperChar (c : N) : N := if isLowerAZ c then c - 32 else c.

Definition toLowerCase (s : jsstring) : jsstring := map lowerChar s.
Definition toUpperCase (s : jsstring) : jsstring := map upperChar s.

Fixpoint trimStart (s : jsstring) : jsstring :=
  match s with
  | c :: t => if isSpace c then trimStart t else s
  | [] => []
  end.

Definition trimEnd (s : jsstring) : jsstring := rev (trimStart (rev s)).

Definition trim (s : jsstring) : jsstring := trimEnd (trimStart s).

Fixpoint startsWith (s p : jsstring) : bool :=
  match p, s with
  | [], _ => true
  | a :: p', b :: s' => (a =? b) && startsWith s' p'
  | _ :: _, [] => false
  end.

(** [s.includes(p)] *)
Fixpoint includes (s p : jsstring) : bool :=
  startsWith s p ||
  match s with
  | [] => false
  | _ :: t => includes t p
  end.

(** [arr.join(sep)] *)
Fixpoint join (sep : jsstring) (l : list jsstring) : jsstring :=
  match l with
  | [] => []
  | [x] => x
  | x :: t => x ++ sep ++ join sep t
  end.

(** [arr.includes(x)] on an array of strings *)
Definition mem (x : jsstring) (l : list jsstring) : bool :=
  existsb (eqs x) l.

(** [Array.from(new Set(l))]: first occurrences, in order. *)
Fixpoint uniq_acc (seen l : list jsstring) : list jsstring :=
  match l with
  | [] => []
  | x :: t => if mem x seen then uniq_acc seen t else x :: uniq_acc (x :: seen) t
  end.

Definition uniq (l : list jsstring) : list jsstring := uniq_acc [] l.

(** [s.slice(a, b)] for [0 <= a <= b] *)
Definition slice (a b : nat) (s : jsstring) : jsstring :=
  firstn (b - a) (skipn a s).

(** Decimal printing of an integer, as [String(n)] does. *)
Fixpoint digits (fuel : nat) (n : N) (acc : jsstring) : jsstring :=
  match fuel with
  | O => acc
  | S f =>
      let acc' := (48 + n mod 10) :: acc in
      if n <? 10 then acc' else digits f (n / 10) acc'
  end.

Definition ofN (n : N) : jsstring := digits (S (N.to_nat (N.log2 n))) n [].

Definition ofZ (z : Z) : jsstring :=
  match z with
  | Zneg p => 45 :: ofN (Npos p)
  | _ => ofN (Z.to_N z)
  end.

End JS.

Import JS.

(** ** Regular expressions

    A backtracking matcher with the semantics of the language's regular
    expressions: greedy and lazy bounded repetition, alternation tried left
    to right, capture groups, word boundaries and anchors. *)

Module Regex.

Inductive regex : Type :=
| Chr (p : N -> bool)
| Eps
| Seq (a b : regex)
| Alt (a b : regex)
| Rep (greedy : bool) (lo : nat) (hi : option nat) (a : regex)
| Grp (i : nat) (a : regex)
| WordB
| Bol
| Eol.

(** Position in the subject: index, the unit before it, the units ahead. *)
Record cursor := Cursor { at_ : nat; before : option N; ahead : list N }.

Definition caps := list (nat * (nat * nat)).

Definition wordy (o : option N) : bool :=
  match o with Some c => isWordChar c | None => false end.

Definition below (n : nat) (hi : option nat) : bool :=
  match hi with Some h => (n <? h)%nat | None => true end.

Section Matcher.
Context {A : Type}.

Definition matcher : Type :=
  cursor -> caps -> (cursor -> caps -> option A) -> option A.

(** Repetition of [m] between [lo] and [hi] times, [n] iterations done.
    Once [lo] iterations are done an iteration that consumes nothing is
    rejected, so the loop runs at most [lo] plus the remaining length
    times. *)
Fixpoint repLoop (m : matcher) (g : bool) (lo : nat) (hi : option nat)
    (k : cursor -> caps -> option A) (fuel n : nat) (s : cursor) (c : caps)
    {struct fuel} : option A :=
  match fuel with
  | O => None
  | S fuel' =>
      let stop (_ : unit) := if (lo <=? n)%nat then k s c else None in
      let more (_ : unit) :=
        if below n hi then
          m s c (fun s' c' =>
            if (lo <=? n)%nat && (at_ s' =? at_ s)%nat then None
            else repLoop m g lo hi k fuel' (S n) s' c')
        else None in
      if g then
        match more tt with Some x => Some x | None => stop tt end
      else
        match stop tt with Some x => Some x | None => more tt end
  end.

Fixpoint mt (r : regex) : matcher :=
  fun s c k =>
  match r with
  | Chr p =>
      match ahead s with
      | ch :: tl => if p ch then k (Cursor (S (at_ s)) (Some ch) tl) c else None
      | [] => None
      end
  | Eps => k s c
  | Seq a b => mt a s c (fun s' c' => mt b s' c' k)
  | Alt a b =>
      match mt a s c k with
      | Some x => Some x
      | None => mt b s c k
      end
  | Rep g lo hi a =>
      repLoop (mt a) g lo hi k (S (lo + length (ahead s))) O s c
  | Grp i a => mt a s c (fun s' c' => k s' ((i, (at_ s, at_ s')) :: c'))
  | WordB =>
      if xorb (wordy (before s)) (wordy (head (ahead s))) then k s c else None
  | Bol => if (at_ s =? 0)%nat then k s c else None
  | Eol => match ahead s with [] => k s c | _ :: _ => None end
  end.
End Matcher.

(** A match anchored at the cursor: its end and its captures. *)
Definition matchAt (r : regex) (s : cursor) : option (cursor * caps) :=
  mt r s [] (fun s' c' => Some (s', c')).

Definition start (s : jsstring) : cursor := Cursor 0 None s.

Definition step (s : cursor) : option cursor :=
  match ahead s with
  | ch :: tl => Some (Cursor (S (at_ s)) (Some ch) tl)
  | [] => None
  end.

(** Leftmost match at or after the cursor: where it starts, where it ends. *)
Fixpoint searchFrom (fuel : nat) (r : regex) (s : cursor)
    : option (cursor * cursor * caps) :=
  match matchAt r s with
  | Some (e, c) => Some (s, e, c)
  | None =>
      match fuel, step s with
      | S f, Some s' => searchFrom f r s'
      | _, _ => None
      end
  end.

Definition search (r : regex) (s : cursor) :=
  searchFrom (length (ahead s)) r s.

(** [re.test(s)] for a regular expression without the [g] flag. *)
Definition test (r : regex) (s : jsstring) : bool :=
  match search r (start s) with Some _ => true | None => false end.

(** [re.exec(s)] without the [g] flag: the captures as substrings. *)
Definition group (s : jsstring) (c : caps) (i : nat) : option jsstring :=
  match List.find (fun e => (fst e =? i)%nat) c with
  | Some (_, (a, b)) => Some (slice a b s)
  | None => None
  end.

Definition exec (r : regex) (s : jsstring) : option caps :=
  match search r (start s) with
  | Some (_, _, c) => Some c
  | None => None
  end.

(** All matches of a [g] regular expression, left to right, each search
    resuming where the previous match ended (one unit further after an empty
    match). *)
Fixpoint matchAllFrom (fuel : nat) (r : regex) (s : cursor)
    : list (cursor * cursor * caps) :=
  match fuel with
  | O => []
  | S f =>
      match search r s with
      | None => []
      | Some (b, e, c) =>
          (b, e, c) ::
          (if (at_ e =? at_ b)%nat then
             match step e with
             | Some e' => matchAllFrom f r e'
             | None => []
             end
           else matchAllFrom f r e)
      end
  end.

Definition matchAll (r : regex) (s : jsstring) : list (cursor * cursor * caps) :=
  matchAllFrom (S (length s)) r (start s).

(** The units between two cursors of one subject. *)
Definition between (p q : cursor) : jsstring :=
  firstn (at_ q - at_ p) (ahead p).

(** [s.replace(re, rep)] with a [g] regular expression and a fixed
    replacement. *)
Fixpoint stitch (p : cursor) (rep : jsstring)
    (ms : list (cursor * cursor * caps)) : jsstring :=
  match ms with
  | [] => ahead p
  | (b, e, _) :: ms' => between p b ++ rep ++ stitch e rep ms'
  end.

Definition replaceAll (r : regex) (rep : jsstring) (s : jsstring) : jsstring :=
  stitch (start s) rep (matchAll r s).

(** [s.replace(re, rep)] without the [g] flag: the first match only. *)
Definition replaceFirst (r : regex) (rep : jsstring) (s : jsstring) : jsstring :=
  match search r (start s) with
  | Some (b, e, _) => between (start s) b ++ rep ++ ahead e
  | None => s
  end.

(** [s.split(re)]: the pieces between the matches; [p] is the end of the
    previous separator, [q] the position tried next. A match that ends at
    [p] is skipped. *)
Fixpoint splitFrom (fuel : nat) (r : regex) (p q : cursor) : list jsstring :=
  match fuel with
  | O => [ahead p]
  | S f =>
      match step q with
      | None => [ahead p]
      | Some q' =>
          match matchAt r q with
          | Some (e, _) =>
              if (at_ e =? at_ p)%nat then splitFrom f r p q'
              else between p q :: splitFrom f r e e
          | None => splitFrom f r p q'
          end
      end
  end.

Definition split (r : regex) (s : jsstring) : list jsstring :=
  match s with
  | [] => match matchAt r (start s) with Some _ => [] | None => [[]] end
  | _ :: _ => splitFrom (S (2 * length s)) r (start s) (start s)
  end.

(** Building blocks. *)
Definition one (c : N) : regex := Chr (N.eqb c).
Definition oneI (c : N) : regex := Chr (fun x => upperChar x =? upperChar c).

Fixpoint seqs (l : list regex) : regex :=
  match l with
  | [] => Eps
  | [r] => r
  | r :: t => Seq r (seqs t)
  end.

Fixpoint alts (l : list regex) : regex :=
  match l with
  | [] => Chr (fun _ => false)
  | [r] => r
  | r :: t => Alt r (alts t)
  end.

Definition str (s : string) : regex := seqs (map one (lit s)).
Definition strI (s : string) : regex := seqs (map oneI (lit s)).
Definition words_ (l : list string) : regex := alts (map str l).

Definition star (r : regex) := Rep true 0 None r.
Definition plus (r : regex) := Rep true 1 None r.
Definition opt (r : regex) := Rep true 0 (Some 1%nat) r.
Definition plusLazy (r : regex) := Rep false 1 None r.
Definition range (lo hi : nat) (r : regex) := Rep true lo (Some hi) r.

Definition space := Chr isSpace.                     (* \s *)
Definition nonword := Chr (fun c => negb (isWordChar c)).   (* \W *)
Definition digit := Chr isDigit.                     (* \d *)
Definition upperAZ := Chr isUpperAZ.                 (* [A-Z] *)
Definition lowerAZ := Chr isLowerAZ.                 (* [a-z] *)
(** [.]: any unit but a line terminator *)
Definition dot :=
  Chr (fun c => negb ((c =? 10) || (c =? 13) || (c =? 8232) || (c =? 8233))).

End Regex.

Import Regex.

(** ** Matching a translated subject

    [folds f r r']: the pattern [r'] accepts the image by [f] of what [r]
    accepts; used to relate a case-insensitive pattern on a text to the
    lower-case pattern on the lower-cased text. *)

Inductive folds (f : N -> N) : regex -> regex -> Prop :=
| folds_chr p p' : (forall c, p c = p' (f c)) -> folds f (Chr p) (Chr p')
| folds_eps : folds f Eps Eps
| folds_seq a a' b b' : folds f a a' -> folds f b b' -> folds f (Seq a b) (Seq a' b')
| folds_alt a a' b b' : folds f a a' -> folds f b b' -> folds f (Alt a b) (Alt a' b')
| folds_rep g lo hi a a' : folds f a a' -> folds f (Rep g lo hi a) (Rep g lo hi a')
| folds_grp i a a' : folds f a a' -> folds f (Grp i a) (Grp i a')
| folds_wordb : folds f WordB WordB
| folds_bol : folds f Bol Bol
| folds_eol : folds f Eol Eol.

(** The cursor on the translated subject. *)
Definition mapCursor (f : N -> N) (s : cursor) : cursor :=
  Cursor (at_ s) (option_map f (before s)) (map f (ahead s)).

(** ** Course-code normalizer *)

(** [/[\s-]+/g] *)
Definition reSpaceHyphen : regex := plus (Chr (fun c => isSpace c || (c =? 45))).

(** [canonCourse]: [(s || "").toUpperCase().replace(/[\s-]+/g, " ").trim()] *)
Definition canonCourse (s : jsstring) : jsstring :=
  trim (replaceAll reSpaceHyphen (lit " ") (toUpperCase s)).

(** ** The normalizer as a direct recursion

    [collapseRuns P false s] replaces every maximal run of units satisfying
    [P] by one space; it is what the global replacement computes. *)

Fixpoint collapseRuns (P : N -> bool) (inRun : bool) (s : jsstring) : jsstring :=
  match s with
  | [] => []
  | c :: t =>
      if P c then (if inRun then collapseRuns P true t else 32 :: collapseRuns P true t)
      else c :: collapseRuns P false t
  end.

(** The cursor after the longest run of units satisfying [P], and the first
    such run at or after a position. *)
Fixpoint runEnd (P : N -> bool) (i : nat) (b : option N) (l : list N) : cursor :=
  match l with
  | c :: t => if P c then runEnd P (S i) (Some c) t else Cursor i b l
  | [] => Cursor i b []
  end.

Fixpoint findRun (P : N -> bool) (i : nat) (b : option N) (l : list N)
    : option (cursor * cursor) :=
  match l with
  | [] => None
  | c :: t =>
      if P c then Some (Cursor i b l, runEnd P (S i) (Some c) t)
      else findRun P (S i) (Some c) t
  end.

(** Separators of a course code: whitespace and the hyphen. *)
Definition isSep (c : N) : bool := isSpace c || (c =? 45).

(** [tidy b s]: every separator of [s] is a single space with no separator
    next to it ([b]: a separator precedes [s]). *)
Fixpoint tidy (b : bool) (s : jsstring) : bool :=
  match s with
  | [] => true
  | c :: t => if isSep c then negb b && (c =? 32) && tidy true t else tidy false t
  end.


(** ** Knowledge base *)

(** A JSON key: absent, [null], or holding a value. *)
Inductive field (A : Type) : Type :=
| Missing
| Null
| Val (a : A).
Arguments Missing {A}.
Arguments Null {A}.
Arguments Val {A} a.

(** [f || ""] *)
Definition fstr (f : field jsstring) : jsstring :=
  match f with Val s => s | _ => [] end.

(** A template hole filled with the field. *)
Definition tmpl (f : field jsstring) : jsstring :=
  match f with
  | Val s => s
  | Null => lit "null"
  | Missing => lit "undefined"
  end.

(** Truthiness of a string: it is not empty. *)
Definition nonEmpty (s : jsstring) : bool :=
  match s with [] => false | _ :: _ => true end.

(** [{...base, ...later}] at one key. *)
Definition spread {A} (base later : field A) : field A :=
  match later with Missing => base | _ => later end.

(** An entry of [professors] as the school file gives it. *)
Record raw_professor := {
  r_name : field jsstring;
  r_department : field jsstring;
  r_rating : field float;
  r_num_ratings : field Z;
  r_rmp_url : field jsstring;
  r_courses : field (list jsstring);
  r_reviews : field jsstring
}.

(** A professor after loading: the name is a non-empty string and the
    courses are an array (entries without a name are dropped by the load). *)
Record professor := {
  p_name : jsstring;
  p_department : field jsstring;
  p_rating : field float;
  p_num_ratings : field Z;
  p_rmp_url : field jsstring;
  p_courses : list jsstring;
  p_reviews : field jsstring
}.

(** Optional strings of the other records are plain strings, the empty
    string standing for an absent key: every use in the code is [x || ""] or
    a truthiness test. *)
Record deadline := {
  d_term : jsstring;
  d_category : jsstring;
  d_description : jsstring;
  d_date : jsstring;
  d_time : jsstring;
  d_notes : jsstring;
  d_keywords : list jsstring
}.

Record course := {
  c_code : jsstring;
  c_title : jsstring;
  c_department : jsstring;
  c_description : jsstring;
  c_notes : jsstring
}.

Record faq := {
  f_q : jsstring;
  f_a : jsstring;
  f_keywords : list jsstring
}.

Record major := {
  m_campus : jsstring;
  m_program : jsstring;
  m_aliases : list jsstring;
  m_lower_division : list jsstring;
  m_upper_division : list jsstring;
  m_notes : jsstring;
  m_source_url : jsstring
}.

(** An entry of a course's ranking list. [k_rank = None]: no rank given;
    ranks are integers. [k_tags = None]: no tag array given. [k_name = []]:
    the name is empty or absent; the two differ only in the handoff reply,
    which is modelled for names that are not empty. *)
Record ranking_entry := {
  k_name : jsstring;
  k_rank : option Z;
  k_tags : option (list jsstring);
  k_notes : jsstring
}.

Record school_db := {
  school_name : jsstring;
  school_website : jsstring;
  deadlines : list deadline;
  professors : list professor;
  courses : list course;
  faqs : list faq;
  majors : list major;
  rankings : gmap (list N) (list ranking_entry)
}.

(** ** Loading: professors de-duplicated by normalized name *)

(** [Array.isArray(x) ? x : []] *)
Definition arrayOr {A} (f : field (list A)) : list A :=
  match f with Val l => l | _ => [] end.

(** [{ ...p, courses: [...new Set(p.courses)] }] *)
Definition firstEntry (p : raw_professor) : professor := {|
  p_name := fstr (r_name p);
  p_department := r_department p;
  p_rating := r_rating p;
  p_num_ratings := r_num_ratings p;
  p_rmp_url := r_rmp_url p;
  p_courses := uniq (arrayOr (r_courses p));
  p_reviews := r_reviews p
|}.

(** [{ ...base, ...p, courses: [...mergedCourses] }]; the later entry has a
    name, since its key is not empty. *)
Definition mergeEntry (base : professor) (p : raw_professor) : professor := {|
  p_name := fstr (r_name p);
  p_department := spread (p_department base) (r_department p);
  p_rating := spread (p_rating base) (r_rating p);
  p_num_ratings := spread (p_num_ratings base) (r_num_ratings p);
  p_rmp_url := spread (p_rmp_url base) (r_rmp_url p);
  p_courses := uniq (p_courses base ++ arrayOr (r_courses p));
  p_reviews := spread (p_reviews base) (r_reviews p)
|}.

(** The [Map] keyed by normalized name, in insertion order. *)
Fixpoint mapGet (k : jsstring) (m : list (jsstring * professor)) : option professor :=
  match m with
  | [] => None
  | (k', v) :: t => if eqs k k' then Some v else mapGet k t
  end.

Fixpoint mapSet (k : jsstring) (v : professor) (m : list (jsstring * professor))
    : list (jsstring * professor) :=
  match m with
  | [] => [(k, v)]
  | (k', v') :: t => if eqs k k' then (k, v) :: t else (k', v') :: mapSet k v t
  end.

(** The value a key has after spreading the entries one after another. *)
Definition lastPresent {A} (l : list (field A)) : field A :=
  fold_left spread l Missing.

(** The entries that share a key merged: the first entry, then every later
    one merged into it. *)
Definition mergeGroup (g : list raw_professor) : option professor :=
  match g with
  | [] => None
  | p0 :: rest => Some (fold_left mergeEntry rest (firstEntry p0))
  end.

Section Loading.

(** [String.prototype.toLowerCase], the lower-casing of the language on
    every letter of every script. The load is modelled for any such
    function: nothing below depends on what it does to a string. *)
Variable lower : jsstring -> jsstring.

(** [(p.name || "").toLowerCase().trim()] *)
Definition nameKey (s : jsstring) : jsstring := trim (lower s).

Definition profKey (p : raw_professor) : jsstring := nameKey (fstr (r_name p)).

Definition dedupStep (m : list (jsstring * professor)) (p : raw_professor)
    : list (jsstring * professor) :=
  let key := profKey p in
  if nonEmpty key then
    match mapGet key m with
    | None => mapSet key (firstEntry p) m
    | Some base => mapSet key (mergeEntry base p) m
    end
  else m.

Definition byName (ps : list raw_professor) : list (jsstring * professor) :=
  fold_left dedupStep ps [].

Definition dedupProfessors (ps : list raw_professor) : list professor :=
  map snd (byName ps).

(** The map while the file is read: keys are distinct and not empty, and
    every value has a name with that key. *)
Definition byNameInv (m : list (jsstring * professor)) : Prop :=
  List.NoDup (map fst m) /\
  forall k v, In (k, v) m -> nonEmpty k = true /\ nameKey (p_name v) = k.

(** The entries of the file that share a normalized name, in load order. *)
Definition entriesOf (k : jsstring) (ps : list raw_professor) : list raw_professor :=
  List.filter (fun p => eqs (profKey p) k) ps.

End Loading.

(** ** Text helpers *)

(** [arr.filter(Boolean)] on strings *)
Definition truthyStrings (l : list jsstring) : list jsstring := List.filter nonEmpty l.

(** [/[^a-z0-9]+/g] *)
Definition reNotLowerAlnum : regex :=
  plus (Chr (fun c => negb (isLowerAZ c || isDigit c))).

(** [words]: lower-case, non-alphanumerics to spaces, trim, split on
    whitespace, drop empty pieces. *)
Definition words (s : jsstring) : list jsstring :=
  truthyStrings
    (split (plus space)
       (trim (replaceAll reNotLowerAlnum (lit " ") (toLowerCase s)))).

(** [/\b(community|college|university|dept|department|&|at)\b/g] *)
Definition reSchoolNoise : regex :=
  seqs [WordB;
        words_ ["community"; "college"; "university"; "dept"; "department"; "&"; "at"];
        WordB].

(** [/[^a-z0-9 ]+/g] *)
Definition reNotLowerAlnumSpace : regex :=
  plus (Chr (fun c => negb (isLowerAZ c || isDigit c || (c =? 32)))).

Definition normSchool (s : jsstring) : jsstring :=
  trim
    (replaceAll (plus space) (lit " ")
       (replaceAll reNotLowerAlnumSpace (lit " ")
          (replaceAll reSchoolNoise (lit " ") (toLowerCase s)))).

(** [[–-]]: en dash or hyphen *)
Definition dash : regex := Chr (fun c => (c =? 8211) || (c =? 45)).

(** [/^(.+?)\s+at\s+(.+?)\s+\|\s+Rate My Professors$/i] *)
Definition reTitleAt : regex :=
  seqs [Bol; Grp 1 (plusLazy dot); plus space; strI "at"; plus space;
        Grp 2 (plusLazy dot); plus space; one 124; plus space;
        strI "Rate My Professors"; Eol].

(** [/^Professor Ratings?:\s*(.+?)\s*[–-]\s*(.+)$/i] *)
Definition reTitleRatings : regex :=
  seqs [Bol; strI "Professor Rating"; opt (oneI 115); one 58; star space;
        Grp 1 (plusLazy dot); star space; dash; star space;
        Grp 2 (plus dot); Eol].

(** [/^(.+?)\s*[–-]\s*(.+?)\s*\|\s*Rate My Professors$/i] *)
Definition reTitleDash : regex :=
  seqs [Bol; Grp 1 (plusLazy dot); star space; dash; star space;
        Grp 2 (plusLazy dot); star space; one 124; star space;
        strI "Rate My Professors"; Eol].

Definition groupOr (s : jsstring) (c : caps) (i : nat) : jsstring :=
  match group s c i with Some g => g | None => [] end.

(** The name and the school of a ratings-site title, from the first pattern
    that matches. *)
Fixpoint firstPattern (title : jsstring) (patterns : list regex)
    : option (jsstring * jsstring) :=
  match patterns with
  | [] => None
  | re :: rest =>
      match exec re title with
      | Some m => Some (trim (groupOr title m 1), trim (groupOr title m 2))
      | None => firstPattern title rest
      end
  end.

Definition extractNameSchoolFromTitle (title : jsstring) : option (jsstring * jsstring) :=
  if nonEmpty title then firstPattern title [reTitleAt; reTitleRatings; reTitleDash]
  else None.

Definition looksLikeSameSchool (a b : jsstring) : bool :=
  let A := normSchool a in
  let B := normSchool b in
  nonEmpty A && nonEmpty B && (includes A B || includes B A).

(** [/\bX|Y\b/]: the boundary binds to one side of each alternative. *)
Definition reCampus (x y : string) : regex :=
  Alt (Seq WordB (str x)) (Seq (str y) WordB).

Definition campusTable : list (string * string * string) :=
  [("ucsd", "san diego", "uc san diego");
   ("ucla", "los angeles", "ucla");
   ("ucsb", "santa barbara", "uc santa barbara");
   ("uci", "irvine", "uc irvine");
   ("ucd", "davis", "uc davis");
   ("ucsc", "santa cruz", "uc santa cruz");
   ("ucr", "riverside", "uc riverside");
   ("ucm", "merced", "uc merced");
   ("berkeley", "cal", "uc berkeley")].

Definition extractCampusHint (s : jsstring) : option jsstring :=
  let q := toLowerCase s in
  match List.find (fun '(x, y, _) => test (reCampus x y) q) campusTable with
  | Some (_, _, hint) => Some (lit hint)
  | None => None
  end.

(** [a\s*b] *)
Definition spaced (a b : string) : regex := seqs [str a; star space; str b].

(** [/\b(data\s*science|data\s*theory|ds)\b/] *)
Definition reMentionsDS : regex :=
  seqs [WordB; alts [spaced "data" "science"; spaced "data" "theory"; str "ds"]; WordB].

Definition reMentionsUC : regex :=
  seqs [WordB;
        alts [str "uc"; str "ucla"; str "ucsd"; str "ucsb"; str "uci"; str "ucd";
              str "ucsc"; str "ucr"; str "ucm"; str "berkeley"; str "irvine";
              str "davis"; str "riverside"; str "merced";
              spaced "santa" "barbara"; spaced "santa" "cruz"; spaced "san" "diego"];
        WordB].

Definition reAsksReqs : regex :=
  seqs [WordB;
        words_ ["requirement"; "requirements"; "prereq"; "prereqs"; "prerequisite";
                "prerequisites"; "courses"; "course list"; "classes"; "curriculum";
                "plan"];
        WordB].

Definition isMajorReqQuery (s : jsstring) : bool :=
  let q := toLowerCase s in
  test reMentionsDS q && (test reMentionsUC q || test reAsksReqs q).

(** ** Numbers *)

Definition fzero : float := PrimFloat.zero.

(** Truthiness of a number: neither zero nor NaN. *)
Definition floatTruthy (x : float) : bool :=
  negb (PrimFloat.eqb x fzero) && PrimFloat.eqb x x.

Definition floatOfZ (z : Z) : float :=
  if (z <? 0)%Z then PrimFloat.opp (PrimFloat.of_uint63 (Uint63.of_Z (- z)))
  else PrimFloat.of_uint63 (Uint63.of_Z z).

(** [cosine]: the loop runs over the indices of [a]; a missing [b[i]] is
    [undefined], which makes the products NaN. *)
Fixpoint cosineLoop (a b : list float) (dot na nb : float) : float * float * float :=
  match a with
  | [] => (dot, na, nb)
  | x :: a' =>
      let y := match b with y :: _ => y | [] => PrimFloat.nan end in
      cosineLoop a' (tl b)
        (PrimFloat.add dot (PrimFloat.mul x y))
        (PrimFloat.add na (PrimFloat.mul x x))
        (PrimFloat.add nb (PrimFloat.mul y y))
  end.

Definition cosine (a b : list float) : float :=
  let '(dot, na, nb) := cosineLoop a b fzero fzero fzero in
  PrimFloat.div dot (PrimFloat.mul (PrimFloat.sqrt na) (PrimFloat.sqrt nb)).

(** [Math.round]: the nearest integer, ties towards plus infinity. The
    nearest-even integer is obtained by adding and removing 2^52; a tie that
    was rounded down is moved up. *)
Definition two52 : float := 4503599627370496%float.

Definition mathRound (x : float) : float :=
  if PrimFloat.leb two52 (PrimFloat.abs x) then x
  else if negb (PrimFloat.eqb x x) then x
  else if PrimFloat.ltb x fzero then
    let r := PrimFloat.add (PrimFloat.sub x two52) two52 in
    let r' := if PrimFloat.eqb (PrimFloat.sub x r) 0.5%float
              then PrimFloat.add r PrimFloat.one else r in
    if PrimFloat.eqb r' fzero then PrimFloat.opp fzero else r'
  else if PrimFloat.eqb x fzero then x
  else
    let r := PrimFloat.sub (PrimFloat.add x two52) two52 in
    if PrimFloat.eqb (PrimFloat.sub x r) 0.5%float
    then PrimFloat.add r PrimFloat.one else r.

(** ** Course codes, aliases and rank intent *)

(** [normalize]: [(s || "").toLowerCase()] *)
Definition normalize (s : jsstring) : jsstring := toLowerCase s.

(** [/\b([A-Z]{2,5})\s?(\d{1,3}[A-Z]?)\b/g] *)
Definition reCourseCode : regex :=
  seqs [WordB; Grp 1 (range 2 5 upperAZ); opt space;
        Grp 2 (Seq (range 1 3 digit) (opt upperAZ)); WordB].

(** [extractCourseCodes]: every match of the pattern in the upper-cased text
    as ["DEPT NUM"], without repetitions. *)
Definition extractCourseCodes (text : jsstring) : list jsstring :=
  let t := toUpperCase text in
  uniq (map (fun '(_, _, m) => trim (groupOr t m 1 ++ lit " " ++ groupOr t m 2))
            (matchAll reCourseCode t)).

Definition extractDeptHint (text : jsstring) : option jsstring :=
  let t := normalize text in
  if includes t (lit "math") then Some (lit "mathematics")
  else if includes t (lit "cs") || includes t (lit "computer science")
          || includes t (lit "cis") then Some (lit "computer science")
  else if includes t (lit "physics") then Some (lit "physics")
  else if includes t (lit "chem") then Some (lit "chemistry")
  else None.

(** [scoreItem]: the number of query words that occur in the text, plus 2
    when the text starts with the query. *)
Definition scoreItem (query text : jsstring) : Z :=
  let q := normalize query in
  let t := normalize text in
  if nonEmpty q && nonEmpty t then
    (Z.of_nat (length (List.filter (fun w => includes t w)
                         (truthyStrings (split (plus nonword) q))))
     + (if startsWith t q then 2 else 0))%Z
  else 0%Z.

(** [VALID_CODES]: the codes of the courses and the keys of the rankings,
    canonicalized. *)
Definition computeValidCodes (db : school_db) : gset (list N) :=
  list_to_set (map (fun c => canonCourse (c_code c)) (courses db))
  ∪ list_to_set (map canonCourse (elements (dom (rankings db)))).

(** [/\b(calculus\s*X|calc\s*X|math\s*Y)\b/] *)
Definition reAlias (roman code : string) : regex :=
  seqs [WordB;
        alts [spaced "calculus" roman; spaced "calc" roman; spaced "math" code];
        WordB].

Definition resolveCourseAlias (text : jsstring) : option jsstring :=
  let s := toLowerCase text in
  if test (reAlias "i" "1a") s then Some (lit "MATH 1A")
  else if test (reAlias "ii" "1b") s then Some (lit "MATH 1B")
  else if test (reAlias "iii" "1c") s then Some (lit "MATH 1C")
  else None.

(** [/best\s+(prof|professor)/] *)
Definition reBestProf : regex :=
  seqs [str "best"; plus space; alts [str "prof"; str "professor"]].
(** [/\btop\b/] *)
Definition reTop : regex := seqs [WordB; str "top"; WordB].
(** [/(second|2nd)\s+best/] *)
Definition reSecondBest : regex :=
  seqs [alts [str "second"; str "2nd"]; plus space; str "best"].
(** [/\beasiest\b/] *)
Definition reEasiest : regex := seqs [WordB; str "easiest"; WordB].
(** [/(best\s+teaching|teaches\s+best|best\s+teacher)/] *)
Definition reTeach : regex :=
  alts [seqs [str "best"; plus space; str "teaching"];
        seqs [str "teaches"; plus space; str "best"];
        seqs [str "best"; plus space; str "teacher"]].

(** [parseRankIntent]: the requested tags and whether a ranking was asked. *)
Definition parseRankIntent (query : jsstring) : list jsstring * bool :=
  let q := toLowerCase query in
  let wantBest := test reBestProf q || test reTop q in
  let wantSecond := test reSecondBest q in
  let wantEasiest := test reEasiest q in
  let wantTeach := test reTeach q in
  let tags :=
    (if wantSecond then [lit "second_best"] else [])
    ++ (if wantEasiest then [lit "easiest"] else [])
    ++ (if wantTeach then [lit "best_teaching"] else []) in
  let tags :=
    match tags with
    | [] => if wantBest then [lit "best_overall"] else []
    | _ :: _ => tags
    end in
  (tags, wantBest || wantSecond || wantEasiest || wantTeach).

(** ** Session *)

Record session := {
  lastCourse : option jsstring;
  lastProfessor : option jsstring;
  rankCursor : gmap (list N) nat
}.

Definition SESSION0 : session :=
  {| lastCourse := None; lastProfessor := None; rankCursor := ∅ |}.

(** Truthiness of a session slot: set, and not the empty string. *)
Definition isSet (o : option jsstring) : bool :=
  match o with Some s => nonEmpty s | None => false end.

(** ** Intent classifier *)

Inductive intent :=
| major_requirements
| prof_ranking
| prof_lookup
| class_full
| tutoring
| deadline_intent
| generic.

#[global] Instance intent_eq_dec : EqDecision intent.
Proof. solve_decision. Defined.

(** [/(best|top|easiest)\s+(prof|professor)/] *)
Definition reRankedProf : regex :=
  seqs [alts [str "best"; str "top"; str "easiest"]; plus space;
        alts [str "prof"; str "professor"]].

Definition reClassFull : regex :=
  seqs [WordB; words_ ["waitlist"; "full"; "closed"; "no seats"; "class is full"]; WordB].
Definition reTutoring : regex :=
  seqs [WordB; words_ ["tutor"; "tutoring"; "stem center"; "writing center"]; WordB].
Definition reDeadline : regex :=
  seqs [WordB; words_ ["deadline"; "last day"; "drop"; "withdraw"; "add"; "calendar"]; WordB].
Definition reWhoShould : regex := seqs [WordB; str "who should i take"; WordB].

(** The last whitespace-separated part of a lower-cased name. *)
Definition lastPart (name : jsstring) : jsstring :=
  List.last (split (plus space) (toLowerCase name)) [].

Definition detectIntent (db : school_db) (SESSION : session) (q : jsstring) : intent :=
  let s := toLowerCase q in
  let w := words q in
  let names := truthyStrings (map p_name (professors db)) in
  let fullMention := existsb (fun n => includes s (toLowerCase n)) names in
  let lastNameMention :=
    negb fullMention &&
    existsb (fun token =>
      existsb (fun p => eqs (lastPart (p_name p)) token) (professors db)) w in
  if isMajorReqQuery s then major_requirements
  else if test reRankedProf s then prof_ranking
  else if fullMention || lastNameMention then prof_lookup
  else if test reClassFull s then class_full
  else if test reTutoring s then tutoring
  else if test reDeadline s then deadline_intent
  else if test reWhoShould s && isSet (lastCourse SESSION) then class_full
  else generic.

(** ** Hits *)

(** A score is an integer where the code only adds and subtracts integers,
    and a float where it comes from a similarity or from the 0.3 steps of the
    major matching. *)
Inductive score_t :=
| SInt (z : Z)
| SNum (x : float).

Definition scoreFloat (s : score_t) : float :=
  match s with SInt z => floatOfZ z | SNum x => x end.

(** [a - b > 0] on scores *)
Definition scorePos (a b : score_t) : bool :=
  match a, b with
  | SInt x, SInt y => (0 <? x - y)%Z
  | _, _ => PrimFloat.ltb fzero (PrimFloat.sub (scoreFloat a) (scoreFloat b))
  end.

(** The professor record joined to a ranking entry for display. *)
Record merged_prof := {
  g_name : jsstring;
  g_department : jsstring;
  g_rating : option float;
  g_num_ratings : option Z;
  g_rmp_url : jsstring;
  g_courses : list jsstring;
  g_review_or_notes : jsstring
}.

Record ranking_data := {
  rd_course : jsstring;
  rd_tags : list jsstring;
  rd_rank : option Z;
  rd_prof : merged_prof
}.

Inductive payload :=
| PDeadline (d : deadline)
| PProfessor (p : professor)
| PCourse (c : course)
| PFaq (f : faq)
| PRanking (r : ranking_data)
| PMajor (m : major).

Inductive hit_type := TDeadline | TProfessor | TCourse | TFaq | TRanking | TMajor.

Record hit := { score : score_t; data : payload }.

(** [hit.type]: every hit is built with the type of its payload. *)
Definition htype (h : hit) : hit_type :=
  match data h with
  | PDeadline _ => TDeadline
  | PProfessor _ => TProfessor
  | PCourse _ => TCourse
  | PFaq _ => TFaq
  | PRanking _ => TRanking
  | PMajor _ => TMajor
  end.

Definition hit_type_eqb (a b : hit_type) : bool :=
  match a, b with
  | TDeadline, TDeadline | TProfessor, TProfessor | TCourse, TCourse
  | TFaq, TFaq | TRanking, TRanking | TMajor, TMajor => true
  | _, _ => false
  end.

Definition isType (t : hit_type) (h : hit) : bool := hit_type_eqb (htype h) t.

(** An item of the embedding index: the record and its vector. *)
Record index_item := { it_data : payload; it_emb : list float }.

(** ** Collaborator results *)

Inductive error := NetworkError | BadBody.

Inductive outcome (A : Type) : Type :=
| Ok (a : A)
| Throw (e : error).
Arguments Ok {A} a.
Arguments Throw {A} e.

Definition bind {A B} (o : outcome A) (f : A -> outcome B) : outcome B :=
  match o with Ok a => f a | Throw e => Throw e end.

Notation "'let*' x ':=' o 'in' k" := (bind o (fun x => k))
  (at level 10, x name, o at level 100, k at level 200).

(** One result of the search engine; [w_snippet] and [w_displayLink]
    default to the empty string. *)
Record web_item := {
  w_title : jsstring;
  w_link : jsstring;
  w_snippet : jsstring;
  w_displayLink : jsstring
}.

(** The body of a response: not JSON at all, or an object with or without
    an [items] array. An object whose [items] is there and is not an array,
    and a body that is JSON and not an object, are not modelled. *)
Inductive body :=
| BodyInvalid
| BodyJson (items : option (list web_item)).

(** What [fetch] does: it throws, or answers with a status and a body. *)
Inductive fetch_result :=
| FetchThrows
| Response (ok : bool) (b : body).

(** ** Sorting

    [Array.prototype.sort] is stable; [gt x y] says that the comparator is
    positive on [(x, y)], so that [x] goes after [y]. *)
Fixpoint insertBy {A} (gt : A -> A -> bool) (x : A) (l : list A) : list A :=
  match l with
  | [] => [x]
  | y :: t => if gt x y then y :: insertBy gt x t else x :: l
  end.

Definition sortBy {A} (gt : A -> A -> bool) (l : list A) : list A :=
  fold_right (insertBy gt) [] l.

(** The comparator is consistent on the elements of [l]: never positive
    both ways, and "not after" is transitive. The order of the result of a
    sort is only defined for such comparators. *)
Definition consistentOn {A} (gt : A -> A -> bool) (l : list A) : Prop :=
  (forall a b, In a l -> In b l -> gt a b = true -> gt b a = false) /\
  (forall a b c, In a l -> In b l -> In c l ->
     gt a b = false -> gt b c = false -> gt a c = false).

(** The same as a check. *)
Definition consistentOnb {A} (gt : A -> A -> bool) (l : list A) : bool :=
  forallb (fun a =>
    forallb (fun b =>
      implb (gt a b) (negb (gt b a))
      && forallb (fun c => implb (negb (gt a b) && negb (gt b c)) (negb (gt a c))) l)
      l)
    l.

(** The comparator does not put [a] after [b]. *)
Definition notAfter {A} (gt : A -> A -> bool) (a b : A) : Prop := gt a b = false.

(** [r.rank || d] and [r.rank ?? d] *)
Definition rankOr (d : Z) (r : ranking_entry) : Z :=
  match k_rank r with
  | Some z => if (z =? 0)%Z then d else z
  | None => d
  end.

Definition rankNullish (d : Z) (r : ranking_entry) : Z :=
  match k_rank r with Some z => z | None => d end.

(** [r.rank || null] *)
Definition rankTruthy (r : ranking_entry) : option Z :=
  match k_rank r with
  | Some z => if (z =? 0)%Z then None else Some z
  | None => None
  end.

(** [(SCHOOL_DB.rankings?.[code] || [])] *)
Definition rankingsOf (db : school_db) (code : jsstring) : list ranking_entry :=
  default [] (rankings db !! code).

(** The list sorted as the retrieval engine sorts it, and as the chat
    handler sorts it. *)
Definition sortedForSearch (l : list ranking_entry) : list ranking_entry :=
  sortBy (fun a b => (0 <? rankOr 999 a - rankOr 999 b)%Z) l.

Definition sortedForHandoff (l : list ranking_entry) : list ranking_entry :=
  sortBy (fun a b => (0 <? rankNullish 999 a - rankNullish 999 b)%Z) l.

(** ** Retrieval engine *)

Section Server.

(** [String(x)] for a float, the language's number printing. *)
Variable showFloat : float -> jsstring.
(** The embedding collaborator; [None]: the call fails (a transport
    failure, an error object, or a malformed answer). *)
Variable embed : jsstring -> option (list float).
(** Whether the search-engine key and engine id are configured. *)
Variable cseConfigured : bool.
(** The web-search collaborator, asked one query for [num] results. *)
Variable fetchCSE : jsstring -> nat -> fetch_result.
(** The loaded school file and the embedding index built from it. *)
Variable SCHOOL_DB : school_db.
Variable EMB_INDEX : list index_item.

(** [webSearch(q, { site, num })] *)
Definition webSearch (q site : jsstring) (num : nat) : outcome (list web_item) :=
  if negb cseConfigured then Ok []
  else
    let query := if nonEmpty site then lit "site:" ++ site ++ lit " " ++ q else q in
    match fetchCSE query num with
    | FetchThrows => Throw NetworkError
    | Response false _ => Ok []
    | Response true BodyInvalid => Throw BadBody
    | Response true (BodyJson None) => Ok []
    | Response true (BodyJson (Some items)) => Ok items
    end.

(** The course codes of the query, with the alias fallback. *)
Definition VALID_CODES : gset (list N) := computeValidCodes SCHOOL_DB.

Definition aliasCodes (query : jsstring) (otherwise : list jsstring) : list jsstring :=
  match resolveCourseAlias query with
  | Some a => if nonEmpty a then [canonCourse a] else otherwise
  | None => otherwise
  end.

Definition courseCodesInQuery (query : jsstring) : list jsstring :=
  let codes := map canonCourse (extractCourseCodes query) in
  let codes :=
    match codes with [] => aliasCodes query codes | _ :: _ => codes end in
  match codes with
  | [] => codes
  | _ :: _ =>
      if negb (existsb (fun c => bool_decide (c ∈ VALID_CODES)) codes)
      then aliasCodes query codes else codes
  end.

(** *** Professor mentions *)

Definition mentioned (query : jsstring) : list jsstring :=
  List.filter (fun name => includes (normalize query) (normalize name))
    (map p_name (professors SCHOOL_DB)).

Definition exactMatches (query : jsstring) : list professor :=
  List.filter (fun p =>
      existsb (fun m => eqs (normalize (p_name p)) (normalize m)) (mentioned query))
    (professors SCHOOL_DB).

Definition profMatches (query : jsstring) : list professor :=
  let qWords := split (plus space) (normalize query) in
  List.filter (fun p => mem (lastPart (p_name p)) qWords) (professors SCHOOL_DB).

Definition professorHit (s : Z) (p : professor) : hit :=
  {| score := SInt s; data := PProfessor p |}.

(** *** Ranking lookup *)

Definition tagged (wantTags : list jsstring) (item : ranking_entry) : bool :=
  existsb (fun t => mem t wantTags) (default [] (k_tags item)).

Definition chosenRanked (wantTags : list jsstring) (code : jsstring) : list ranking_entry :=
  let list := sortedForSearch (rankingsOf SCHOOL_DB code) in
  let matches :=
    match wantTags with
    | [] => list
    | _ :: _ => List.filter (tagged wantTags) list
    end in
  firstn 3 (match matches with [] => list | _ :: _ => matches end).

Definition findProf (name : jsstring) : option professor :=
  List.find (fun p => eqs (normalize (p_name p)) (normalize name)) (professors SCHOOL_DB).

(** [x || d] on a string *)
Definition orStr (x d : jsstring) : jsstring := if nonEmpty x then x else d.

Definition fieldOpt {A} (f : field A) : option A :=
  match f with Val a => Some a | _ => None end.

(** The display record of a ranked name: the ranking entry joined to the
    professor of that name, when there is one. *)
Definition mergeProf (code : jsstring) (r : ranking_entry) (prof : option professor)
    : merged_prof := {|
  g_name := k_name r;
  g_department :=
    orStr (match prof with Some p => fstr (p_department p) | None => [] end) (lit "(dept)");
  g_rating := match prof with Some p => fieldOpt (p_rating p) | None => None end;
  g_num_ratings := match prof with Some p => fieldOpt (p_num_ratings p) | None => None end;
  g_rmp_url := match prof with Some p => fstr (p_rmp_url p) | None => [] end;
  g_courses := match prof with Some p => p_courses p | None => [code] end;
  g_review_or_notes :=
    orStr (k_notes r) (match prof with Some p => fstr (p_reviews p) | None => [] end)
|}.

Definition rankingHit (code : jsstring) (r : ranking_entry) : hit := {|
  score := SInt (100 - rankOr 99 r * 2);
  data := PRanking {|
    rd_course := code;
    rd_tags := default [] (k_tags r);
    rd_rank := rankTruthy r;
    rd_prof := mergeProf code r (findProf (k_name r))
  |}
|}.

Definition courseCard (code : jsstring) : list hit :=
  match List.find (fun c => eqs (canonCourse (c_code c)) code) (courses SCHOOL_DB) with
  | Some c => [{| score := SInt 0; data := PCourse c |}]
  | None => []
  end.

(** *** Semantic search *)

Definition MIN_SIM : float := 0.78%float.

(** The comparator of the similarity sort, [b.sim - a.sim], is positive on
    [(a, b)]. *)
Definition simAfter (a b : index_item * float) : bool :=
  PrimFloat.ltb fzero (PrimFloat.sub (snd b) (snd a)).

(** Every index item with its similarity to the query. *)
Definition scored (queryEmb : list float) : list (index_item * float) :=
  map (fun it => (it, cosine queryEmb (it_emb it))) EMB_INDEX.

Definition sims (queryEmb : list float) : list (index_item * float) :=
  sortBy simAfter (scored queryEmb).

(** [sims.filter(s => s.sim >= MIN_SIM)] *)
Definition qualifying (queryEmb : list float) : list (index_item * float) :=
  List.filter (fun s => PrimFloat.leb MIN_SIM (snd s)) (sims queryEmb).

Definition top (queryEmb : list float) : list (index_item * float) :=
  firstn 3 (qualifying queryEmb).

Definition embHit (s : index_item * float) : hit :=
  {| score := SNum (mathRound (PrimFloat.mul 100%float (snd s)));
     data := it_data (fst s) |}.

(** The hits of the semantic stage; [None]: the stage falls through (empty
    index, failed embedding, or nothing similar enough). *)
Definition semanticStage (query : jsstring) : option (list hit) :=
  match EMB_INDEX with
  | [] => None
  | _ :: _ =>
      match embed query with
      | None => None
      | Some queryEmb =>
          match top queryEmb with
          | [] => None
          | (_ :: _) as t => Some (map embHit t)
          end
      end
  end.

(** *** Keyword scoring *)

(** [pushHits]: one hit for every item whose score is positive. *)
Definition pushHits {A} (query : jsstring) (arr : list A) (wrap : A -> payload)
    (toBlob : A -> jsstring) (extraScorer : A -> Z) : list hit :=
  flat_map (fun item =>
      let s := (scoreItem query (toBlob item) + extraScorer item)%Z in
      if (0 <? s)%Z then [{| score := SInt s; data := wrap item |}] else [])
    arr.

Definition sp : jsstring := lit " ".

Definition deadlineBlob (d : deadline) : jsstring :=
  d_term d ++ sp ++ d_category d ++ sp ++ d_description d ++ sp ++ d_date d
  ++ sp ++ d_time d ++ sp ++ d_notes d ++ sp ++ join sp (d_keywords d).

(** A template hole filled with a number field. *)
Definition tmplFloat (f : field float) : jsstring :=
  match f with
  | Val x => showFloat x
  | Null => lit "null"
  | Missing => lit "undefined"
  end.

Definition professorBlob (p : professor) : jsstring :=
  p_name p ++ sp ++ tmpl (p_department p) ++ sp ++ join sp (p_courses p)
  ++ sp ++ tmplFloat (p_rating p) ++ sp ++ fstr (p_reviews p).

Definition courseBlob (c : course) : jsstring :=
  c_code c ++ sp ++ c_title c ++ sp ++ c_department c ++ sp ++ c_description c
  ++ sp ++ c_notes c.

Definition faqBlob (f : faq) : jsstring :=
  f_q f ++ sp ++ f_a f ++ sp ++ join sp (f_keywords f).

(** The bonus of a professor: +8 for every requested code taught, +3 for
    the department hinted at, -4 when codes were requested and none is
    taught. *)
Definition professorBonus (courseCodes : list jsstring) (dept : option jsstring)
    (p : professor) : Z :=
  let profCourses := map canonCourse (p_courses p) in
  let bonus :=
    fold_left (fun b code => if mem (canonCourse code) profCourses then (b + 8)%Z else b)
      courseCodes 0%Z in
  let bonus :=
    match dept with
    | Some d => if nonEmpty d && eqs (normalize (fstr (p_department p))) d
                then (bonus + 3)%Z else bonus
    | None => bonus
    end in
  match courseCodes with
  | [] => bonus
  | _ :: _ =>
      if existsb (fun code => mem (canonCourse code) profCourses) courseCodes
      then bonus else (bonus - 4)%Z
  end.

(** [s.toUpperCase().replace(/\s+/, " ").trim()]: only the first run of
    whitespace is replaced. *)
Definition looseCode (s : jsstring) : jsstring :=
  trim (replaceFirst (plus space) sp (toUpperCase s)).

Definition courseBonus (courseCodes : list jsstring) (c : course) : Z :=
  fold_left (fun b code => if eqs (looseCode (c_code c)) (looseCode code) then (b + 6)%Z else b)
    courseCodes 0%Z.

Definition keywordHits (query : jsstring) : list hit :=
  let codes := courseCodesInQuery query in
  pushHits query (deadlines SCHOOL_DB) PDeadline deadlineBlob (fun _ => 0%Z)
  ++ pushHits query (professors SCHOOL_DB) PProfessor professorBlob
       (professorBonus codes (extractDeptHint query))
  ++ pushHits query (courses SCHOOL_DB) PCourse courseBlob (courseBonus codes)
  ++ pushHits query (faqs SCHOOL_DB) PFaq faqBlob (fun _ => 0%Z).

(** [/(best\s+(prof|professor))/i] on the query, and a code in it *)
Definition reBestProfI : regex :=
  seqs [strI "best"; plus space; alts [strI "prof"; strI "professor"]].

Definition askedBestProfForCourse (query : jsstring) : bool :=
  test reBestProfI query && negb (bool_decide (courseCodesInQuery query = [])).

(** The comparator of the hit sort is positive on [(a, b)]. *)
Definition hitAfter (asked : bool) (a b : hit) : bool :=
  if asked && negb (hit_type_eqb (htype a) (htype b)) then
    if isType TProfessor a then false
    else if isType TProfessor b then true
    else scorePos (score b) (score a)
  else scorePos (score b) (score a).

Definition sortedHits (query : jsstring) : list hit :=
  sortBy (hitAfter (askedBestProfForCourse query)) (keywordHits query).

Definition teachesRequested (codes : list jsstring) (h : hit) : bool :=
  match data h with
  | PProfessor p =>
      let profCourses := map looseCode (p_courses p) in
      existsb (fun code => mem (looseCode code) profCourses) codes
  | _ => false
  end.

(** The hard filter: up to two professors who teach a requested course and
    one course card; [None] when no professor qualifies. *)
Definition hardFilter (query : jsstring) (hits : list hit) : option (list hit) :=
  if askedBestProfForCourse query then
    let profThatTeach :=
      List.filter (teachesRequested (courseCodesInQuery query))
        (List.filter (isType TProfessor) hits) in
    match profThatTeach with
    | [] => None
    | _ :: _ =>
        let out := firstn 2 profThatTeach
                   ++ match List.find (isType TCourse) hits with
                      | Some c => [c]
                      | None => []
                      end in
        Some (firstn 3 out)
    end
  else None.

(** *** Major matching *)

Definition synonyms : list (string * string) :=
  [("ucsd", "uc san diego"); ("ucla", "ucla"); ("ucsb", "uc santa barbara");
   ("uci", "uc irvine"); ("ucd", "uc davis"); ("ucsc", "uc santa cruz");
   ("ucr", "uc riverside"); ("ucm", "uc merced")].

Definition fadd (x y : float) : float := PrimFloat.add x y.

Definition majorScore (query : jsstring) (campusHint : option jsstring) (m : major) : float :=
  let campus := toLowerCase (m_campus m) in
  let score :=
    match campusHint with
    | Some h =>
        if nonEmpty h then
          let s1 :=
            if includes campus
                 (toLowerCase (replaceFirst (Seq Bol (str "uc ")) (lit "uc ") h))
            then 10%float else fzero in
          fold_left (fun s '(k, v) =>
              if eqs h (lit k) && eqs campus (lit v) then fadd s 10%float else s)
            synonyms s1
        else fzero
    | None => fzero
    end in
  let blob :=
    toLowerCase (join sp [m_program m; join sp (m_aliases m);
                          join sp (m_lower_division m); join sp (m_upper_division m)]) in
  let score :=
    if test (seqs [WordB; spaced "data" "science"; WordB]) blob
    then fadd score 4%float else score in
  let score :=
    if test (seqs [WordB; spaced "data" "theory"; WordB]) blob
    then fadd score 2%float else score in
  fold_left (fun s w => if includes blob w then fadd s 0.3%float else s)
    (truthyStrings (split (plus nonword) (toLowerCase query))) score.

Definition majorHits (query : jsstring) : list hit :=
  if isMajorReqQuery query then
    let scored :=
      flat_map (fun m =>
          let s := majorScore query (extractCampusHint query) m in
          if PrimFloat.ltb fzero s then [{| score := SNum s; data := PMajor m |}] else [])
        (majors SCHOOL_DB) in
    firstn 3 (sortBy (fun a b => scorePos (score b) (score a)) scored)
  else [].

(** *** Web fallback *)

(** [/(best|top|easiest)\s+(prof|professor)/i] *)
Definition reRankedProfI : regex :=
  seqs [alts [strI "best"; strI "top"; strI "easiest"]; plus space;
        alts [strI "prof"; strI "professor"]].

(** [/([A-Z][a-z]+(?:\s+[A-Z][a-z]+)+)/g] *)
Definition reNameLike : regex :=
  Grp 1 (seqs [upperAZ; plus lowerAZ; plus (seqs [plus space; upperAZ; plus lowerAZ])]).

(** [/^https?:\/\//] and [/\/.*$/] *)
Definition reScheme : regex := seqs [Bol; str "http"; opt (one 115); str "://"].
Definition rePath : regex := seqs [one 47; star dot; Eol].

Definition schoolHost : jsstring :=
  orStr (replaceFirst rePath [] (replaceFirst reScheme [] (school_website SCHOOL_DB)))
        (lit "deanza.edu").

Record candidate := { cand_name : jsstring; cand_rmp : bool; cand_url : jsstring }.

Definition rmpCandidates (school : jsstring) (results : list web_item) : list candidate :=
  flat_map (fun it =>
      match extractNameSchoolFromTitle (w_title it) with
      | Some (name, sch) =>
          if looksLikeSameSchool sch school
          then [{| cand_name := name; cand_rmp := true; cand_url := w_link it |}]
          else []
      | None => []
      end)
    results.

Definition schoolCandidates (results : list web_item) : list candidate :=
  flat_map (fun it =>
      let title := w_title it in
      flat_map (fun '(_, _, m) =>
          let n := trim (groupOr title m 1) in
          if (2 <=? length (split (one 32) n))%nat
          then [{| cand_name := n; cand_rmp := false; cand_url := w_link it |}]
          else [])
        (matchAll reNameLike title))
    results.

(** First occurrence of every lower-cased name. *)
Fixpoint uniqueNames (seen : list jsstring) (cs : list candidate) : list candidate :=
  match cs with
  | [] => []
  | c :: t =>
      let key := toLowerCase (cand_name c) in
      if mem key seen then uniqueNames seen t else c :: uniqueNames (key :: seen) t
  end.

Definition webHit (course : jsstring) (c : candidate) : hit := {|
  score := SInt (if cand_rmp c then 92 else 85);
  data := PRanking {|
    rd_course := orStr course (lit "(unknown course)");
    rd_tags := [lit "web_result"];
    rd_rank := None;
    rd_prof := {|
      g_name := cand_name c;
      g_department := lit "(unknown)";
      g_rating := None;
      g_num_ratings := None;
      g_rmp_url := if cand_rmp c then cand_url c else [];
      g_courses := if nonEmpty course then [course] else [];
      g_review_or_notes := []
    |}
  |}
|}.

Definition nl : jsstring := [10].

Fixpoint linkLines (i : N) (links : list web_item) : list jsstring :=
  match links with
  | [] => []
  | t :: rest =>
      (ofN i ++ lit ". " ++ w_title t ++ nl ++ lit "   " ++ w_link t ++ nl
       ++ lit "   " ++ w_snippet t)
      :: linkLines (i + 1) rest
  end.

Definition linksCard (course : jsstring) (topLinks : list web_item) : hit := {|
  score := SInt 80;
  data := PFaq {|
    f_q := lit "Web results for " ++ orStr course (lit "the course");
    f_a := join nl (linkLines 1 topLinks);
    f_keywords := []
  |}
|}.

(** The five searches, the candidate names from their titles, and the
    hits made of them; [hits] are the keyword hits found so far. *)
Definition webFallback (query : jsstring) (hits : list hit) : outcome (list hit) :=
  let course := trim (hd [] (courseCodesInQuery query)) in
  let school := school_name SCHOOL_DB in
  let qWeb := join sp (truthyStrings [course; school]) in
  let* rmpResults :=
    webSearch (qWeb ++ lit " Rate My Professors") (lit "ratemyprofessors.com") 10 in
  let* b1 := webSearch (qWeb ++ lit " instructor") schoolHost 5 in
  let* b2 := webSearch (qWeb ++ lit " syllabus") schoolHost 5 in
  let* b3 := webSearch (qWeb ++ lit " schedule") schoolHost 5 in
  let* b4 := webSearch (qWeb ++ lit " department") schoolHost 5 in
  let schoolResults := b1 ++ b2 ++ b3 ++ b4 in
  let unique :=
    uniqueNames [] (rmpCandidates school rmpResults ++ schoolCandidates schoolResults) in
  match unique with
  | _ :: _ => Ok (firstn 3 (hits ++ map (webHit course) (firstn 3 unique)))
  | [] =>
      match firstn 5 (rmpResults ++ schoolResults) with
      | (_ :: _) as topLinks => Ok (firstn 3 (hits ++ [linksCard course topLinks]))
      | [] => Ok (firstn 3 hits)
      end
  end.

(** *** The search *)

Definition setLastProfessor (s : session) (n : jsstring) : session :=
  {| lastCourse := lastCourse s; lastProfessor := Some n; rankCursor := rankCursor s |}.

(** [SESSION.lastCourse = code; SESSION.rankCursor[code] = 0] *)
Definition rememberCourse (s : session) (code : jsstring) : session :=
  {| lastCourse := Some code;
     lastProfessor := lastProfessor s;
     rankCursor := <[code := 0%nat]> (rankCursor s) |}.

(** The stages after the ranking lookup: semantic search, keyword scoring
    with the hard filter, major matching, web fallback. None of them
    touches the session. *)
Definition laterStages (query : jsstring) : outcome (list hit) :=
  match semanticStage query with
  | Some embHits => Ok embHits
  | None =>
      let hits := sortedHits query in
      match hardFilter query hits with
      | Some out => Ok out
      | None =>
          match majorHits query with
          | (_ :: _) as mh => Ok mh
          | [] =>
              let needProfButEmpty :=
                negb (existsb (fun h => isType TRanking h || isType TProfessor h) hits) in
              if needProfButEmpty && test reRankedProfI query
              then webFallback query hits
              else Ok (firstn 3 hits)
          end
      end
  end.

(** [searchLocalKB]: the session after the call and the hits, or the
    exception that leaves the call. *)
Definition searchLocalKB (SESSION : session) (query : jsstring)
    : session * outcome (list hit) :=
  match exactMatches query with
  | (p :: _) as em =>
      (setLastProfessor SESSION (p_name p), Ok (map (professorHit 100) em))
  | [] =>
      match (match mentioned query with [] => profMatches query | _ :: _ => [] end) with
      | (p :: _) as pm =>
          (setLastProfessor SESSION (p_name p), Ok (map (professorHit 90) pm))
      | [] =>
          let '(wantTags, asked) := parseRankIntent query in
          match courseCodesInQuery query with
          | code :: _ =>
              if asked then
                let SESSION := rememberCourse SESSION code in
                match chosenRanked wantTags code with
                | (r :: _) as chosen =>
                    (if nonEmpty (k_name r) then setLastProfessor SESSION (k_name r)
                     else SESSION,
                     Ok (firstn 3 (map (rankingHit code) chosen ++ courseCard code)))
                | [] => (SESSION, laterStages query)
                end
              else (SESSION, laterStages query)
          | [] => (SESSION, laterStages query)
          end
      end
  end.

(** ** Formatting *)

Definition emDash : jsstring := [8212].
Definition bullet : jsstring := [8226].

(** [cond ? text : ""] *)
Definition when (b : bool) (s : jsstring) : jsstring := if b then s else [].

Definition zTruthy (f : option Z) : option Z :=
  match f with
  | Some z => if (z =? 0)%Z then None else Some z
  | None => None
  end.

Definition ratingsNote (pre : jsstring) (n : option Z) : jsstring :=
  match zTruthy n with
  | Some z => pre ++ ofZ z ++ lit " ratings"
  | None => []
  end.

Definition formatDeadline (d : deadline) : jsstring :=
  ([55357; 56787; 65039] ++ lit " ") ++ d_term d ++ lit " " ++ emDash ++ lit " " ++ d_category d
  ++ nl ++ bullet ++ lit " " ++ d_description d
  ++ nl ++ bullet ++ lit " Date: " ++ d_date d
  ++ when (nonEmpty (d_time d)) (lit " " ++ d_time d)
  ++ when (nonEmpty (d_notes d)) (nl ++ bullet ++ lit " Notes: " ++ d_notes d).

Definition formatProfessor (p : professor) : jsstring :=
  let rmp := when (nonEmpty (fstr (p_rmp_url p)))
               (nl ++ bullet ++ lit " RMP: " ++ fstr (p_rmp_url p)) in
  let teaches := when (negb (bool_decide (p_courses p = [])))
                   (nl ++ bullet ++ lit " Teaches: " ++ join (lit ", ") (p_courses p)) in
  ([55357; 56425; 8205; 55356; 57323] ++ lit " ") ++ p_name p ++ lit " " ++ emDash ++ lit " " ++ tmpl (p_department p)
  ++ nl ++ bullet ++ lit " Rating: "
  ++ match p_rating p with
     | Val x => if floatTruthy x then showFloat x else lit "N/A"
     | _ => lit "N/A"
     end
  ++ match zTruthy (fieldOpt (p_num_ratings p)) with
     | Some z => lit " (" ++ ofZ z ++ lit " ratings)"
     | None => []
     end
  ++ teaches ++ rmp.

Definition formatCourse (c : course) : jsstring :=
  ([55357; 56536] ++ lit " ") ++ c_code c ++ lit ": " ++ c_title c
  ++ nl ++ bullet ++ lit " Dept: " ++ c_department c
  ++ when (nonEmpty (c_description c)) (nl ++ bullet ++ lit " About: " ++ c_description c)
  ++ when (nonEmpty (c_notes c)) (nl ++ bullet ++ lit " Notes: " ++ c_notes c).

Definition formatFaq (f : faq) : jsstring :=
  ([10067] ++ lit " ") ++ f_q f ++ nl ++ ([9989] ++ lit " ") ++ f_a f.

Definition formatRanking (r : ranking_data) : jsstring :=
  let p := rd_prof r in
  let tagLabel := orStr (join (lit ", ") (rd_tags r)) (lit "ranked") in
  let rmp := when (nonEmpty (g_rmp_url p)) (nl ++ bullet ++ lit " RMP: " ++ g_rmp_url p) in
  let rating :=
    match g_rating p with
    | Some x =>
        bullet ++ lit " Rating: " ++ showFloat x
        ++ match zTruthy (g_num_ratings p) with
           | Some z => lit " (" ++ ofZ z ++ lit " ratings)"
           | None => []
           end
        ++ nl
    | None => []
    end in
  let teaches := when (negb (bool_decide (g_courses p = [])))
                   (bullet ++ lit " Teaches: " ++ join (lit ", ") (g_courses p) ++ nl) in
  let notes := when (nonEmpty (g_review_or_notes p))
                 (bullet ++ lit " Notes: " ++ g_review_or_notes p ++ nl) in
  let rankline :=
    match rd_rank r with Some z => lit "#" ++ ofZ z ++ lit " " | None => [] end in
  trim (([55356; 57286] ++ lit " ") ++ rankline ++ g_name p ++ lit " " ++ emDash ++ lit " " ++ g_department p
        ++ nl ++ bullet ++ lit " Course: " ++ rd_course r
        ++ nl ++ bullet ++ lit " Tag: " ++ tagLabel ++ nl
        ++ rating ++ teaches ++ notes ++ rmp).

Definition bullets (l : list jsstring) : jsstring :=
  join nl (map (fun x => bullet ++ lit " " ++ x) l).

Definition formatMajor (m : major) : jsstring :=
  let lower := bullets (m_lower_division m) in
  let upper := bullets (m_upper_division m) in
  let link := when (nonEmpty (m_source_url m)) (([10; 55357; 56599] ++ lit " Source: ") ++ m_source_url m) in
  let notes := when (nonEmpty (m_notes m)) (([10; 55357; 56541] ++ lit " Notes: ") ++ m_notes m) in
  ([55356; 57235] ++ lit " ") ++ m_campus m ++ lit " " ++ emDash ++ lit " " ++ m_program m
  ++ nl ++ lit "  " ++ nl
  ++ (lit "  **Lower Division (community college prep " ++ [8212]
    ++ lit " articulates to UC upper-division):**")
  ++ nl ++ lit "  " ++ orStr lower emDash
  ++ nl ++ lit "  " ++ nl
  ++ lit "  **Upper Division (completed at " ++ m_campus m ++ lit " after transfer):**"
  ++ nl ++ lit "  " ++ orStr upper emDash ++ notes ++ link.

Definition formatHit (h : hit) : jsstring :=
  match data h with
  | PDeadline d => formatDeadline d
  | PProfessor p => formatProfessor p
  | PCourse c => formatCourse c
  | PFaq f => formatFaq f
  | PRanking r => formatRanking r
  | PMajor m => formatMajor m
  end.

Definition typeName (t : hit_type) : jsstring :=
  match t with
  | TDeadline => lit "deadline"
  | TProfessor => lit "professor"
  | TCourse => lit "course"
  | TFaq => lit "faq"
  | TRanking => lit "ranking"
  | TMajor => lit "major"
  end.

(** ** Prompts sent to the completion collaborator *)

Definition systemPrompt : jsstring :=
  lit "You are a concise, accurate campus assistant." ++ [10] ++ lit "        "
  ++ [10] ++ lit "        Rules:" ++ [10]
  ++ lit "        1)Never recommend a professor by name unless that name appears "
  ++ lit "in the provided context snippets." ++ [10]
  ++ lit "        2) If intent is " ++ [34] ++ lit "class_full" ++ [34]
  ++ lit " and a previous turn selected a professor for a course, first suggest "
  ++ lit "the next best ranked professor by name (if available), then mention deadlines/waitlist "
  ++ lit "steps." ++ [10]
  ++ lit "        3) Do NOT paste the context snippets verbatim or list them back."
  ++ [10] ++ lit "        4) First, answer the user's question in 1"
  ++ [8211] ++ lit "3 sentences." ++ [10]
  ++ lit "        5) Then, if helpful, add at most 2 short supporting bullets from "
  ++ lit "the snippets." ++ [10]
  ++ lit "        6) Ignore any snippet that is not clearly relevant."
  ++ [10]
  ++ lit "        7) If the snippets don't contain the answer, say so briefly and "
  ++ lit "give practical next steps (e.g., waitlist options, email instructor, check "
  ++ lit "add/drop date, tutoring center link).".

Definition antiMakeupText : jsstring :=
  lit "Important: Do NOT invent professor names. Only recommend names present "
  ++ lit "in the context snippets. If none are present, say we don"
  ++ [8217]
  ++ lit "t have that info and ask for the exact course code (e.g., "
  ++ [34] ++ lit "MATH 1A" ++ [34] ++ lit ").".

Definition classFullPrompt : jsstring :=
  lit "If intent is " ++ [34] ++ lit "class_full" ++ [34]
  ++ lit ", recommend the next-best ranked professor for the last discussed course "
  ++ lit "first (by name), then mention practical steps (waitlist, email instructor, "
  ++ lit "add/drop date).".

(** ** Chat endpoint *)

Record response := { status : nat; reply : jsstring }.

Inductive role := System | User.

(** What the handler does before the completion call: it answers by
    itself, or it sends these messages to the completion collaborator. *)
Inductive step_t :=
| Respond (r : response)
| Complete (messages : list (role * jsstring)).

(** The completion collaborator: the call or the decoding of its answer
    throws, the answer is an error object, or it is a text. *)
Inductive completion :=
| CompletionThrows
| CompletionError (message : jsstring)
| CompletionText (content : jsstring).

Variable complete : list (role * jsstring) -> completion.

Definition serverError : response :=
  {| status := 500; reply := lit "Something went wrong on the server." |}.

Definition okReply (s : jsstring) : response := {| status := 200; reply := s |}.

(** [allowByIntent] *)
Definition allowByIntent (i : intent) : list hit_type :=
  match i with
  | prof_ranking => [TRanking; TProfessor; TCourse]
  | prof_lookup => [TProfessor; TCourse]
  | class_full => [TRanking; TFaq; TDeadline]
  | tutoring => [TFaq; TCourse; TDeadline]
  | deadline_intent => [TDeadline; TFaq]
  | major_requirements => [TMajor; TFaq; TCourse]
  | generic => [TProfessor; TCourse; TFaq]
  end.

Definition allowed (i : intent) (h : hit) : bool :=
  existsb (hit_type_eqb (htype h)) (allowByIntent i).

(** The hits kept for the intent; for [prof_ranking], FAQ hits come back
    when no professor or ranking hit is kept. *)
Definition filterHits (i : intent) (hits : list hit) : list hit :=
  let filteredHits := List.filter (allowed i) hits in
  match i with
  | prof_ranking =>
      if negb (existsb (fun h => isType TProfessor h || isType TRanking h) filteredHits)
      then List.filter (fun h => allowed i h || isType TFaq h) hits
      else filteredHits
  | _ => filteredHits
  end.

(** [list.findIndex(r => (r.name || "").toLowerCase() === name.toLowerCase())] *)
Fixpoint findIndex (name : jsstring) (l : list ranking_entry) : option nat :=
  match l with
  | [] => None
  | r :: t =>
      if eqs (toLowerCase (k_name r)) (toLowerCase name) then Some O
      else option_map S (findIndex name t)
  end.

(** The index served next: after the last suggested name when it is in
    the list, else after the cursor. *)
Definition nextIndex (SESSION : session) (course : jsstring)
    (list : list ranking_entry) : nat :=
  let current := default O (rankCursor SESSION !! course) in
  match lastProfessor SESSION with
  | Some name =>
      if nonEmpty name then
        match findIndex name list with
        | Some idx => S idx
        | None => S current
        end
      else S current
  | None => S current
  end.

(** [/add/i] *)
Definition reAdd : regex := strI "add".

Definition addDrop : jsstring :=
  orStr match List.find (fun d => test reAdd (d_category d)) (deadlines SCHOOL_DB) with
        | Some d => d_date d
        | None => []
        end
        (lit "the add deadline").

Definition exhaustedReply (course : jsstring) : jsstring :=
  (lit "I" ++ [8217] ++ lit "ve listed everyone I have for ") ++ course
  ++ lit ". At this point: "
  ++ lit "join the waitlist (if offered), email the instructor for an add code, "
  ++ lit "and check " ++ addDrop ++ lit ".".

Definition nextBestReply (course : jsstring) (nextBest : ranking_entry) : jsstring :=
  let prof := findProf (k_name nextBest) in
  let ratingStr :=
    match prof with
    | Some p =>
        match fieldOpt (p_rating p) with
        | Some x =>
            lit " (rating " ++ showFloat x
            ++ ratingsNote (lit ", ") (fieldOpt (p_num_ratings p)) ++ lit ")"
        | None => []
        end
    | None => []
    end in
  let rmpUrl := match prof with Some p => fstr (p_rmp_url p) | None => [] end in
  let rmpStr := when (nonEmpty rmpUrl) (nl ++ bullet ++ lit " RMP: " ++ rmpUrl) in
  let notes :=
    orStr (k_notes nextBest)
          (match prof with Some p => fstr (p_reviews p) | None => [] end) in
  lit "Next best for " ++ course ++ lit " is **" ++ k_name nextBest ++ lit "** "
  ++ emDash ++ lit " "
  ++ orStr (match prof with Some p => fstr (p_department p) | None => [] end) (lit "(dept)")
  ++ ratingStr ++ lit "."
  ++ when (nonEmpty notes) (nl ++ bullet ++ lit " Notes: " ++ notes)
  ++ rmpStr
  ++ nl ++ nl
  ++ lit "If the class is full: join the waitlist (if offered), email the instructor "
  ++ lit "for an add code, and check the add/drop deadline.".

(** The deterministic handoff. [None]: the block does not answer (the
    course has no ranking list) and the handler goes on. *)
Definition handoff (SESSION : session) (course : jsstring)
    : option (session * response) :=
  let list := sortedForHandoff (rankingsOf SCHOOL_DB course) in
  match list with
  | [] => None
  | _ :: _ =>
      let i := nextIndex SESSION course list in
      match list !! i with
      | None => Some (SESSION, okReply (exhaustedReply course))
      | Some nextBest =>
          Some ({| lastCourse := lastCourse SESSION;
                   lastProfessor := Some (k_name nextBest);
                   rankCursor := <[course := i]> (rankCursor SESSION) |},
                okReply (nextBestReply course nextBest))
      end
  end.

(** The entry the second block would add: the one after the last
    suggested name, else the one tagged second best, else the one of rank
    2, else the second of the list. *)
Definition secondBest (SESSION : session) (list : list ranking_entry)
    : option ranking_entry :=
  let byName :=
    match lastProfessor SESSION with
    | Some name =>
        if nonEmpty name then
          match findIndex name list with
          | Some idx => list !! S idx
          | None => None
          end
        else None
    | None => None
    end in
  match byName with
  | Some r => Some r
  | None =>
      match List.find (fun r => mem (lit "second_best") (default [] (k_tags r))) list with
      | Some r => Some r
      | None =>
          match List.find (fun r => bool_decide (k_rank r = Some 2%Z)) list with
          | Some r => Some r
          | None => list !! 1%nat
          end
      end
  end.

Definition alreadyHas (filteredHits : list hit) (nextBest : ranking_entry) : bool :=
  existsb (fun h =>
      match data h with
      | PRanking r =>
          eqs (toLowerCase (g_name (rd_prof r))) (toLowerCase (k_name nextBest))
      | _ => false
      end)
    filteredHits.

Definition injectedHit (course : jsstring) (nextBest : ranking_entry) : hit := {|
  score := SInt 96;
  data := PRanking {|
    rd_course := course;
    rd_tags := default [lit "second_best"] (k_tags nextBest);
    rd_rank := Some (rankOr 2 nextBest);
    rd_prof := mergeProf course nextBest (findProf (k_name nextBest))
  |}
|}.

(** The second block: the session and the hits after it. *)
Definition injectSecondBest (SESSION : session) (course : jsstring)
    (filteredHits : list hit) : session * list hit :=
  let list := sortedForHandoff (rankingsOf SCHOOL_DB course) in
  match secondBest SESSION list with
  | Some nextBest =>
      if alreadyHas filteredHits nextBest then (SESSION, filteredHits)
      else
        ({| lastCourse := lastCourse SESSION;
            lastProfessor := Some (k_name nextBest);
            rankCursor := rankCursor SESSION |},
         injectedHit course nextBest :: filteredHits)
  | None => (SESSION, filteredHits)
  end.

(** *** Context snippets *)

Definition maxSnippets : nat := 5.

(** [txt.length > 600 ? txt.slice(0, 600) + "..." : txt] *)
Definition truncate (txt : jsstring) : jsstring :=
  if (600 <? length txt)%nat then firstn 600 txt ++ lit "..." else txt.

Definition snippet (i : nat) (h : hit) : jsstring :=
  lit "Snippet " ++ ofN (N.of_nat (S i)) ++ lit " [" ++ typeName (htype h) ++ lit "]:"
  ++ nl ++ truncate (formatHit h).

Definition usedHits (filteredHits : list hit) : list hit :=
  firstn maxSnippets filteredHits.

Definition contextSnippets (filteredHits : list hit) : jsstring :=
  join (nl ++ nl) (imap snippet (usedHits filteredHits)).

Definition antiMakeup (i : intent) (filteredHits : list hit) : jsstring :=
  let hasProfSnippet :=
    existsb (fun h => isType TRanking h || isType TProfessor h) (usedHits filteredHits) in
  match i with
  | prof_ranking => if hasProfSnippet then [] else antiMakeupText
  | _ => []
  end.

Definition intentName (i : intent) : jsstring :=
  match i with
  | major_requirements => lit "major_requirements"
  | prof_ranking => lit "prof_ranking"
  | prof_lookup => lit "prof_lookup"
  | class_full => lit "class_full"
  | tutoring => lit "tutoring"
  | deadline_intent => lit "deadline"
  | generic => lit "generic"
  end.

Definition messages (i : intent) (filteredHits : list hit) (userMessage : jsstring)
    : list (role * jsstring) :=
  [(System, systemPrompt)]
  ++ (if nonEmpty (antiMakeup i filteredHits)
      then [(System, antiMakeup i filteredHits)] else [])
  ++ [(System, classFullPrompt);
      (System, lit "Detected intent: " ++ intentName i)]
  ++ (if nonEmpty (contextSnippets filteredHits)
      then [(System, lit "Context:" ++ nl ++ contextSnippets filteredHits)] else [])
  ++ [(User, userMessage)].

(** The handler up to the completion call. *)
Definition chatStep (SESSION : session) (userMessage : jsstring) : session * step_t :=
  let '(SESSION, found) := searchLocalKB SESSION userMessage in
  match found with
  | Throw _ => (SESSION, Respond serverError)
  | Ok hits =>
      let i := detectIntent SCHOOL_DB SESSION userMessage in
      let filteredHits := filterHits i hits in
      let handed :=
        match i, lastCourse SESSION with
        | class_full, Some course =>
            if nonEmpty course then handoff SESSION course else None
        | _, _ => None
        end in
      match handed with
      | Some (SESSION, r) => (SESSION, Respond r)
      | None =>
          let '(SESSION, filteredHits) :=
            match i, lastCourse SESSION with
            | class_full, Some course =>
                if nonEmpty course then injectSecondBest SESSION course filteredHits
                else (SESSION, filteredHits)
            | _, _ => (SESSION, filteredHits)
            end in
          (SESSION, Complete (messages i filteredHits userMessage))
      end
  end.

(** [app.post("/chat")] *)
Definition chat (SESSION : session) (userMessage : jsstring) : session * response :=
  let '(SESSION, st) := chatStep SESSION userMessage in
  match st with
  | Respond r => (SESSION, r)
  | Complete ms =>
      match complete ms with
      | CompletionThrows => (SESSION, serverError)
      | CompletionError message => (SESSION, okReply (lit "Oops! API error: " ++ message))
      | CompletionText content => (SESSION, okReply content)
      end
  end.

End Server.

(** ** Consecutive handoffs *)

(** [n] handoff calls in a row for one course, the session threaded from
    one call to the next: the replies and the session at the end. *)
Fixpoint handoffs (showFloat : float -> jsstring) (SCHOOL_DB : school_db)
    (n : nat) (SESSION : session) (course : jsstring) : list response * session :=
  match n with
  | O => ([], SESSION)
  | S n' =>
      match handoff showFloat SCHOOL_DB SESSION course with
      | Some (s', r) =>
          let '(rs, s'') := handoffs showFloat SCHOOL_DB n' s' course in
          (r :: rs, s'')
      | None => ([], SESSION)
      end
  end.

(** The reply that serves index [j] of the list: the entry there, or the
    exhaustion reply when there is none. *)
Definition serveAt (showFloat : float -> jsstring) (SCHOOL_DB : school_db)
    (course : jsstring) (j : nat) : response :=
  match sortedForHandoff (rankingsOf SCHOOL_DB course) !! j with
  | Some nextBest => okReply (nextBestReply showFloat SCHOOL_DB course nextBest)
  | None => okReply (exhaustedReply SCHOOL_DB course)
  end.

(** No two entries of the list share a non-empty name, ignoring case. *)
Definition distinctNames (l : list ranking_entry) : Prop :=
  forall i j a b,
    l !! i = Some a -> l !! j = Some b ->
    nonEmpty (k_name a) = true ->
    toLowerCase (k_name a) = toLowerCase (k_name b) -> i = j.

(** The same as a check. *)
Fixpoint distinctNamesb (l : list ranking_entry) : bool :=
  match l with
  | [] => true
  | a :: t =>
      forallb (fun b => negb (nonEmpty (k_name a))
                        || negb (eqs (toLowerCase (k_name a)) (toLowerCase (k_name b)))) t
      && forallb (fun b => negb (nonEmpty (k_name b))
                           || negb (eqs (toLowerCase (k_name a)) (toLowerCase (k_name b)))) t
      && distinctNamesb t
  end.

(** ** Building the embedding index *)

(** [x || ""] in a template hole, for a number *)
Definition floatOrEmpty (showFloat : float -> jsstring) (f : field float) : jsstring :=
  match f with
  | Val x => if floatTruthy x then showFloat x else []
  | _ => []
  end.

Definition bar : jsstring := lit " | ".

(** The text that is embedded for every kind of record. *)
Definition deadlineText (d : deadline) : jsstring :=
  lit "Deadline | " ++ d_term d ++ bar ++ d_category d ++ bar ++ d_description d
  ++ bar ++ d_date d ++ lit " " ++ d_time d ++ bar ++ d_notes d ++ bar
  ++ join sp (d_keywords d).

Definition professorText (showFloat : float -> jsstring) (p : professor) : jsstring :=
  lit "Professor | " ++ p_name p ++ bar ++ tmpl (p_department p) ++ bar
  ++ join (lit ", ") (p_courses p) ++ lit " | rating "
  ++ floatOrEmpty showFloat (p_rating p) ++ bar ++ fstr (p_reviews p).

Definition courseText (c : course) : jsstring :=
  lit "Course | " ++ c_code c ++ bar ++ c_title c ++ bar ++ c_department c ++ bar
  ++ c_description c ++ bar ++ c_notes c.

Definition faqText (f : faq) : jsstring :=
  lit "FAQ | " ++ f_q f ++ bar ++ f_a f ++ bar ++ join sp (f_keywords f).

Definition majorText (m : major) : jsstring :=
  join bar [lit "Major"; m_campus m; m_program m; join sp (m_aliases m);
            lit "Lower:"; join (lit " ; ") (m_lower_division m);
            lit "Upper:"; join (lit " ; ") (m_upper_division m);
            m_notes m].

(** [items]: every record of the school file with its text, deadlines
    first, then professors, courses, FAQ entries and majors. *)
Definition indexItems (showFloat : float -> jsstring) (db : school_db)
    : list (payload * jsstring) :=
  map (fun d => (PDeadline d, deadlineText d)) (deadlines db)
  ++ map (fun p => (PProfessor p, professorText showFloat p)) (professors db)
  ++ map (fun c => (PCourse c, courseText c)) (courses db)
  ++ map (fun f => (PFaq f, faqText f)) (faqs db)
  ++ map (fun m => (PMajor m, majorText m)) (majors db).

(** The loop that embeds the items one after another and pushes them to
    the index; an embedding that fails ends the loop, and the items pushed so
    far stay. *)
Fixpoint embedItems (embed : jsstring -> option (list float))
    (items : list (payload * jsstring)) : list index_item :=
  match items with
  | [] => []
  | (d, text) :: rest =>
      match embed text with
      | Some emb => {| it_data := d; it_emb := emb |} :: embedItems embed rest
      | None => []
      end
  end.

(** [buildIndex]: the index after the build. *)
Definition buildIndex (showFloat : float -> jsstring)
    (embed : jsstring -> option (list float)) (db : school_db) : list index_item :=
  embedItems embed (indexItems showFloat db).

(** A record of a hit is one of the school file. *)
Definition fromSchoolFile (db : school_db) (d : payload) : Prop :=
  match d with
  | PDeadline x => In x (deadlines db)
  | PProfessor x => In x (professors db)
  | PCourse x => In x (courses db)
  | PFaq x => In x (faqs db)
  | PMajor x => In x (majors db)
  | PRanking _ => False
  end.

(** The exception a call of [fetch] makes [webSearch] throw, if any. *)
Definition fetchError (r : fetch_result) : option error :=
  match r with
  | FetchThrows => Some NetworkError
  | Response true BodyInvalid => Some BadBody
  | _ => None
  end.

(** The session after a turn, from the session after the search. *)
Definition afterSearch (sf : float -> jsstring) (db : school_db) (s1 : session)
    (q : jsstring) : session :=
  match detectIntent db s1 q, lastCourse s1 with
  | class_full, Some course =>
      if nonEmpty course then
        match handoff sf db s1 course with
        | Some (s', _) => s'
        | None => s1
        end
      else s1
  | _, _ => s1
  end.

(** ** What holds of the session between two turns *)

(** The name is one of the school file: a professor's, or one of a ranking
    list. *)
Definition knownName (db : school_db) (n : jsstring) : Prop :=
  In n (map p_name (professors db)) \/
  exists c l r, rankings db !! c = Some l /\ In r l /\ k_name r = n.

(** The remembered course is a canonical code that has a cursor; a cursor
    is 0 or an index of the course's ranking list; the remembered professor
    is a name of the school file. *)
Definition sessionInv (db : school_db) (S : session) : Prop :=
  (forall c, lastCourse S = Some c ->
     canonCourse c = c /\ is_Some (rankCursor S !! c)) /\
  (forall c i, rankCursor S !! c = Some i ->
     i = 0%nat \/ (i < length (rankingsOf db c))%nat) /\
  (forall n, lastProfessor S = Some n -> knownName db n).

(** A hit made of web results: a ranking hit without rank or rating, or
    the card of links. *)
Definition webMade (h : hit) : Prop :=
  match data h with
  | PRanking r =>
      (score h = SInt 92 \/ score h = SInt 85) /\
      rd_tags r = [lit "web_result"] /\ rd_rank r = None /\
      g_rating (rd_prof r) = None /\ g_num_ratings (rd_prof r) = None
  | PFaq _ => score h = SInt 80
  | _ => False
  end.

(** Where the record of a hit comes from: the school file; for a ranking
    hit, an entry of the ranking list of its course, or the web; for a FAQ
    hit, the school file or the card of links. *)
Definition grounded (db : school_db) (h : hit) : Prop :=
  match data h with
  | PRanking r =>
      (exists e, In e (rankingsOf db (rd_course r)) /\ g_name (rd_prof r) = k_name e) \/
      webMade h
  | PFaq x => In x (faqs db) \/ webMade h
  | d => fromSchoolFile db d
  end.

(** ** Cursors of one subject *)

(** The cursor [j] units further on. *)
Fixpoint adv (j : nat) (s : cursor) : cursor :=
  match j, ahead s with
  | S j', ch :: tl => adv j' (Cursor (S (at_ s)) (Some ch) tl)
  | _, _ => s
  end.

(** The cursor is a position of the subject [t]. *)
Definition cursorOf (t : jsstring) (s : cursor) : Prop :=
  ahead s = skipn (at_ s) t /\ (at_ s <= length t)%nat.

(** The form of a course code: two to five capital letters, a space, one
    to three digits and at most one capital letter. *)
Definition codeShaped (code : jsstring) : Prop :=
  exists dept ds sfx,
    code = dept ++ [32] ++ ds ++ sfx /\
    (2 <= length dept <= 5)%nat /\ forallb isUpperAZ dept = true /\
    (1 <= length ds <= 3)%nat /\ forallb isDigit ds = true /\
    (length sfx <= 1)%nat /\ forallb isUpperAZ sfx = true.

(** ** The normalizer over the upper-casing of the language *)

(** [canonCourse] with [String.prototype.toUpperCase] as a parameter: the
    upper-casing of the language maps every letter of every script, and may
    lengthen the string. *)
Definition canonCourseWith (upper : jsstring -> jsstring) (s : jsstring) : jsstring :=
  trim (replaceAll reSpaceHyphen (lit " ") (upper s)).

(** What is used of the upper-casing. It works code point by code point,
    and a whitespace unit or a hyphen is a code point of its own without
    case: such a unit is kept, and what stands before and after it is mapped
    on its own. Mapping a text without such units gives a text without
    them. Mapping twice is mapping once, and only the empty string is mapped
    to the empty string. *)
Record upperCasing (upper : jsstring -> jsstring) : Prop := {
  upper_sep : forall a c b,
    isSep c = true -> upper (a ++ c :: b) = upper a ++ c :: upper b;
  upper_plain : forall s,
    (forall c, In c s -> isSep c = false) ->
    forall c, In c (upper s) -> isSep c = false;
  upper_idem : forall s, upper (upper s) = upper s;
  upper_nil : upper [] = [];
  upper_some : forall s, upper s = [] -> s = []
}.

(** Code units below 128. On such strings the case mappings of the model
    are those of the language. *)
Definition isAscii (s : jsstring) : bool := forallb (fun c => c <? 128) s.

(** The names of the school file are ASCII: professor names, course codes,
    the keys of the rankings and the ranked names. With an ASCII query the
    lower- and upper-casing of the model are those of the language wherever
    the search and the handler compare names and codes. *)
Definition asciiNames (db : school_db) : bool :=
  forallb (fun p => isAscii (p_name p)) (professors db)
  && forallb (fun c => isAscii (c_code c)) (courses db)
  && forallb (fun kl => isAscii (fst kl)
                        && forallb (fun r => isAscii (k_name r)) (snd kl))
       (map_to_list (rankings db)).

(** Ranks are integers of magnitude at most 2^50: binary64 holds them, and
    [100 - rank * 2] and the differences the sort compares, exactly. *)
Definition smallRanks (l : list ranking_entry) : bool :=
  forallb (fun r => match k_rank r with
                    | Some z => (Z.abs z <=? 2 ^ 50)%Z
                    | None => true
                    end) l.

(** ** Chat turns in a row *)

(** The handler called with one message after the other, the session
    threaded from one turn to the next: the replies and the session at the
    end. *)
Fixpoint chats (showFloat : float -> jsstring) (embed : jsstring -> option (list float))
    (cseConfigured : bool) (fetchCSE : jsstring -> nat -> fetch_result)
    (SCHOOL_DB : school_db) (EMB_INDEX : list index_item)
    (complete : list (role * jsstring) -> completion)
    (SESSION : session) (ms : list jsstring) : list response * session :=
  match ms with
  | [] => ([], SESSION)
  | m :: rest =>
      let '(s', r) :=
        chat showFloat embed cseConfigured fetchCSE SCHOOL_DB EMB_INDEX complete
          SESSION m in
      let '(rs, s'') :=
        chats showFloat embed cseConfigured fetchCSE SCHOOL_DB EMB_INDEX complete
          s' rest in
      (r :: rs, s'')
  end.

(** A message that mentions no professor, by full name or by last name, and
    starts no ranking lookup: it has no rank word, or no course code. *)
Definition quiet (db : school_db) (m : jsstring) : bool :=
  match mentioned db m, profMatches db m with
  | [], [] =>
      negb (snd (parseRankIntent m))
      || match courseCodesInQuery db m with [] => true | _ :: _ => false end
  | _, _ => false
  end.

(** ** The semantic stage over the sort of the language *)

(** [semanticStage] with [Array.prototype.sort], under the comparator
    [b.sim - a.sim], as a parameter: the language fixes the order of the
    result only for a consistent comparator, and a similarity that is NaN
    makes the comparator inconsistent. *)
Definition semanticStageWith
    (sort : list (index_item * float) -> list (index_item * float))
    (embed : jsstring -> option (list float)) (EMB_INDEX : list index_item)
    (query : jsstring) : option (list hit) :=
  match EMB_INDEX with
  | [] => None
  | _ :: _ =>
      match embed query with
      | None => None
      | Some queryEmb =>
          let sims := sort (scored EMB_INDEX queryEmb) in
          match firstn 3 (List.filter (fun s => PrimFloat.leb MIN_SIM (snd s)) sims) with
          | [] => None
          | (_ :: _) as t => Some (map embHit t)
          end
      end
  end.

(** ** Example data *)

Definition aliceChen1 : raw_professor := {|
  r_name := Val (lit "Dr. Alice Chen");
  r_department := Val (lit "Computer Science");
  r_rating := Val 4.5%float;
  r_num_ratings := Val 12%Z;
  r_rmp_url := Missing;
  r_courses := Val [lit "CIS 22A"];
  r_reviews := Missing
|}.

Definition aliceChen2 : raw_professor := {|
  r_name := Val (lit "  dr. alice CHEN ");
  r_department := Missing;
  r_rating := Val 4.75%float;
  r_num_ratings := Missing;
  r_rmp_url := Val (lit "https://example.org/chen");
  r_courses := Val [lit "CIS 22B"; lit "CIS 22A"];
  r_reviews := Missing
|}.


(** Collaborators that are switched off: no embedding, no search-engine
    credentials, a network that fails. *)
Definition showNothing (x : float) : jsstring := [].
Definition noEmbedding (text : jsstring) : option (list float) := None.
Definition fetchFails (query : jsstring) (num : nat) : fetch_result := FetchThrows.

Definition professorNamed (n : string) : professor := {|
  p_name := lit n;
  p_department := Val (lit "Mathematics");
  p_rating := Missing;
  p_num_ratings := Missing;
  p_rmp_url := Missing;
  p_courses := [lit "MATH 1A"];
  p_reviews := Missing
|}.

Definition ranked (n : string) (r : Z) (tags : list string) : ranking_entry :=
  {| k_name := lit n; k_rank := Some r; k_tags := Some (map lit tags); k_notes := [] |}.

Definition emptyDb : school_db := {|
  school_name := lit "De Anza College";
  school_website := lit "https://www.deanza.edu/";
  deadlines := [];
  professors := [];
  courses := [];
  faqs := [];
  majors := [];
  rankings := ∅
|}.

(** Four professors who share a last name. *)
Definition fourLees : school_db := {|
  school_name := school_name emptyDb;
  school_website := school_website emptyDb;
  deadlines := [];
  professors := [professorNamed "Ann Lee"; professorNamed "Bob Lee";
                 professorNamed "Cat Lee"; professorNamed "Dan Lee"];
  courses := [];
  faqs := [];
  majors := [];
  rankings := ∅
|}.

Definition rankedPlain (n : string) (r : Z) : ranking_entry :=
  {| k_name := lit n; k_rank := Some r; k_tags := None; k_notes := [] |}.

Definition withRankings (ps : list professor) (cs : list course)
    (code : string) (l : list ranking_entry) : school_db := {|
  school_name := school_name emptyDb;
  school_website := school_website emptyDb;
  deadlines := [];
  professors := ps;
  courses := cs;
  faqs := [];
  majors := [];
  rankings := {[ lit code := l ]}
|}.

(** The school of the MATH 1A scenario: Prof X ranked 1, Prof Y ranked 2. *)
Definition mathDb : school_db :=
  withRankings [] [] "MATH 1A" [rankedPlain "Prof X" 1; rankedPlain "Prof Y" 2].

(** The same rankings, with a professor Smith on the staff. *)
Definition smithDb : school_db :=
  withRankings [professorNamed "John Smith"] [] "MATH 1A"
    [rankedPlain "Prof X" 1; rankedPlain "Prof Y" 2].

Definition math1A : course := {|
  c_code := lit "MATH 1A";
  c_title := lit "Calculus";
  c_department := lit "Mathematics";
  c_description := [];
  c_notes := []
|}.

(** Three ranked names for a course that is in the catalogue. *)
Definition threeDb : school_db :=
  withRankings [] [math1A] "MATH 1A"
    [rankedPlain "Prof X" 1; rankedPlain "Prof Y" 2; rankedPlain "Prof Z" 3].

(** The best-ranked name is not the one tagged easiest. *)
Definition taggedDb : school_db :=
  withRankings [] [] "MATH 1A"
    [ranked "Prof X" 1 ["best_overall"]; ranked "Prof Y" 2 ["easiest"]].

Definition cis22a : course := {|
  c_code := lit "CIS 22A";
  c_title := lit "Beginning Programming";
  c_department := lit "Computer Science";
  c_description := [];
  c_notes := []
|}.

(** A course in the catalogue that has no ranking list. *)
Definition cisDb : school_db := {|
  school_name := school_name emptyDb;
  school_website := school_website emptyDb;
  deadlines := [];
  professors := [];
  courses := [cis22a];
  faqs := [];
  majors := [];
  rankings := ∅
|}.

(** A list that names Prof A twice. *)
Definition repeatedDb : school_db :=
  withRankings [] [] "MATH 1A"
    [rankedPlain "Prof A" 1; rankedPlain "Prof B" 2; rankedPlain "Prof A" 3;
     rankedPlain "Prof C" 4].

(** A completion collaborator that always answers the same text. *)
Definition cannedCompletion (ms : list (role * jsstring)) : completion :=
  CompletionText (lit "free text").

(** The session after "best professor for MATH 1A" was asked of [mathDb]. *)
Definition afterMathQuery : session :=
  fst (searchLocalKB showNothing noEmbedding false fetchFails mathDb []
         SESSION0 (lit "best professor for MATH 1A")).

(** The session after "best professor for CIS 22A" was asked of [cisDb]. *)
Definition afterCisQuery : session :=
  fst (searchLocalKB showNothing noEmbedding false fetchFails cisDb []
         SESSION0 (lit "best professor for CIS 22A")).

(** A session in which Prof A of [repeatedDb] was the last suggestion. *)
Definition afterProfA : session :=
  fst (searchLocalKB showNothing noEmbedding false fetchFails repeatedDb []
         SESSION0 (lit "best professor for MATH 1A")).

(** The name a hit is about. *)
Definition hitName (h : hit) : jsstring :=
  match data h with
  | PRanking r => g_name (rd_prof r)
  | PProfessor p => p_name p
  | _ => []
  end.


(** A small embedding index: six FAQ entries with two-dimensional
    vectors, and an embedding collaborator that maps every query to the first
    axis. *)
Definition faqNamed (q : string) : faq :=
  {| f_q := lit q; f_a := lit "See the catalogue."; f_keywords := [] |}.

Definition smallIndex : list index_item :=
  [{| it_data := PFaq (faqNamed "tutoring"); it_emb := [0.8%float; 0.6%float] |};
   {| it_data := PFaq (faqNamed "tutor sign-up"); it_emb := [0.96%float; 0.28%float] |};
   {| it_data := PFaq (faqNamed "library"); it_emb := [0.6%float; 0.8%float] |};
   {| it_data := PFaq (faqNamed "tutors"); it_emb := [1%float; 0%float] |};
   {| it_data := PFaq (faqNamed "tutor hours"); it_emb := [0.936%float; 0.352%float] |};
   {| it_data := PFaq (faqNamed "parking"); it_emb := [0%float; 1%float] |}].

Definition firstAxis (text : jsstring) : option (list float) :=
  Some [1%float; 0%float].

(** A search engine that is configured but answers badly. *)
Definition fetchGarbage (query : jsstring) (num : nat) : fetch_result :=
  Response true BodyInvalid.

Definition fetchForbidden (query : jsstring) (num : nat) : fetch_result :=
  Response false BodyInvalid.

(** The same name written with two spaces inside. *)
Definition aliceChenWide : raw_professor := {|
  r_name := Val (lit "Dr.  Alice Chen");
  r_department := Missing;
  r_rating := Missing;
  r_num_ratings := Missing;
  r_rmp_url := Missing;
  r_courses := Val [lit "CIS 22B"];
  r_reviews := Missing
|}.

(** A school file with a deadline and two FAQ entries, and the index built
    from it when every text is embedded as the first axis. *)
Definition addDeadline : deadline := {|
  d_term := lit "Fall";
  d_category := lit "Add";
  d_description := lit "Last day to add classes";
  d_date := lit "Oct 5";
  d_time := [];
  d_notes := [];
  d_keywords := [lit "add"]
|}.

Definition tutorDb : school_db := {|
  school_name := school_name emptyDb;
  school_website := school_website emptyDb;
  deadlines := [addDeadline];
  professors := [];
  courses := [cis22a];
  faqs := [faqNamed "tutoring"; faqNamed "parking"];
  majors := [];
  rankings := ∅
|}.

Definition tutorIndex : list index_item := buildIndex showNothing firstAxis tutorDb.

(** The session after "best professor for MATH 1A" was asked of [threeDb]. *)
Definition afterThreeQuery : session :=
  fst (searchLocalKB showNothing noEmbedding false fetchFails threeDb []
         SESSION0 (lit "best professor for MATH 1A")).

(** An index in which every second item has the zero vector as its
    embedding, so that its similarity to any query is NaN. *)
Definition zeroItem : index_item :=
  {| it_data := PFaq (faqNamed "parking"); it_emb := [0%float; 0%float] |}.

Definition nanIndex : list index_item :=
  [{| it_data := PFaq (faqNamed "tutoring"); it_emb := [0.8%float; 0.6%float] |};
   zeroItem;
   {| it_data := PFaq (faqNamed "tutor hours"); it_emb := [0.936%float; 0.352%float] |};
   zeroItem;
   {| it_data := PFaq (faqNamed "tutor sign-up"); it_emb := [0.96%float; 0.28%float] |};
   zeroItem;
   {| it_data := PFaq (faqNamed "tutors"); it_emb := [1%float; 0%float] |}].
(** * Properties *)

(** ** Sanity checks of the string and pattern layer *)

Example canonCourse_ex1 : canonCourse (lit "cis  22b") = lit "CIS 22B".
Proof. vm_compute. reflexivity. Qed.

Example canonCourse_ex2 : canonCourse (lit " math--1a - ") = lit "MATH 1A".
Proof. vm_compute. reflexivity. Qed.

Example split_ex1 : split (plus space) (lit " a  b ") = [[]; lit "a"; lit "b"; []].
Proof. vm_compute. reflexivity. Qed.
Example split_ex2 : split (plus nonword) (lit "best prof, for CIS-22A?") =
  [lit "best"; lit "prof"; lit "for"; lit "CIS"; lit "22A"; []].
Proof. vm_compute. reflexivity. Qed.
Example split_ex3 : split (plus space) [] = [[]].
Proof. vm_compute. reflexivity. Qed.

(** * The course-code normalizer *)

Section RunMatching.
Variable P : N -> bool.

Lemma repLoop_run fuel : forall n i b l c,
  (1 <= n)%nat -> (length l < fuel)%nat ->
  repLoop (mt (Chr P)) true 1 None (fun s' c' => Some (s', c')) fuel n
    (Cursor i b l) c = Some (runEnd P i b l, c).
Proof.
  induction fuel as [|fuel IH]; intros n i b l c Hn Hf; [lia|].
  cbn [repLoop below mt ahead at_].
  destruct l as [|ch t]; cbn [runEnd].
  - destruct n; [lia|]. reflexivity.
  - destruct (P ch) eqn:HP.
    + replace (S i =? i)%nat with false by (symmetry; apply Nat.eqb_neq; lia).
      rewrite andb_false_r. rewrite IH; [reflexivity|lia|cbn in Hf; lia].
    + destruct n; [lia|]. reflexivity.
Qed.

Lemma matchAt_plus i b l :
  matchAt (plus (Chr P)) (Cursor i b l) =
  match l with
  | c :: t => if P c then Some (runEnd P (S i) (Some c) t, []) else None
  | [] => None
  end.
Proof.
  unfold matchAt, plus. cbn [mt ahead]. cbn [repLoop below mt ahead at_].
  destruct l as [|ch t]; [reflexivity|].
  destruct (P ch); [|reflexivity].
  cbn [Nat.leb andb]. rewrite repLoop_run; [reflexivity|lia|cbn; lia].
Qed.

Lemma searchFrom_plus fuel : forall i b l,
  (length l <= fuel)%nat ->
  searchFrom fuel (plus (Chr P)) (Cursor i b l) =
  match findRun P i b l with
  | Some (x, y) => Some (x, y, [])
  | None => None
  end.
Proof.
  induction fuel as [|fuel IH]; intros i b l Hl.
  - destruct l; [|cbn in Hl; lia]. cbn [searchFrom]. rewrite matchAt_plus. reflexivity.
  - cbn [searchFrom]. rewrite matchAt_plus.
    destruct l as [|ch t]; [reflexivity|]. cbn [findRun].
    destruct (P ch); [reflexivity|].
    cbn [step ahead at_]. apply IH. cbn in Hl. lia.
Qed.

Lemma runEnd_spec : forall l i b,
  (length (ahead (runEnd P i b l)) <= length l)%nat /\
  (i <= at_ (runEnd P i b l))%nat /\
  collapseRuns P true l = collapseRuns P false (ahead (runEnd P i b l)).
Proof.
  induction l as [|c t IH]; intros i b; cbn [runEnd].
  - cbn. auto.
  - destruct (P c) eqn:HP.
    + destruct (IH (S i) (Some c)) as (H1 & H2 & H3).
      cbn [collapseRuns length]. rewrite HP. repeat split; [lia|lia|exact H3].
    + cbn [ahead at_ collapseRuns]. rewrite HP. auto.
Qed.

Lemma findRun_none : forall l i b,
  findRun P i b l = None -> collapseRuns P false l = l.
Proof.
  induction l as [|c t IH]; intros i b H; [reflexivity|].
  cbn [findRun] in H. cbn [collapseRuns].
  destruct (P c); [discriminate|]. f_equal. eapply IH; eauto.
Qed.

Lemma findRun_some : forall l i b x y,
  findRun P i b l = Some (x, y) ->
  collapseRuns P false l =
    firstn (at_ x - i) l ++ 32 :: collapseRuns P false (ahead y) /\
  (length (ahead y) < length l)%nat /\ (at_ x < at_ y)%nat /\ (i <= at_ x)%nat.
Proof.
  induction l as [|c t IH]; intros i b x y H; [discriminate|].
  cbn [findRun] in H. cbn [collapseRuns].
  destruct (P c) eqn:HP.
  - inversion H; subst; clear H. cbn [at_].
    destruct (runEnd_spec t (S i) (Some c)) as (H1 & H2 & H3).
    rewrite Nat.sub_diag. cbn [firstn app length]. rewrite H3.
    repeat split; [lia|lia|lia].
  - destruct (IH _ _ _ _ H) as (H1 & H2 & H3 & H4).
    replace (at_ x - i)%nat with (S (at_ x - S i)) by lia.
    cbn [firstn app length]. rewrite H1. repeat split; [lia|lia|lia].
Qed.

Lemma stitch_collapse n : forall fuel l i b,
  (length l <= n)%nat -> (length l < fuel)%nat ->
  stitch (Cursor i b l) [32]
    (matchAllFrom fuel (plus (Chr P)) (Cursor i b l)) =
  collapseRuns P false l.
Proof.
  induction n as [|n IH]; intros fuel l i b Hn Hf.
  - destruct l; [|cbn in Hn; lia]. destruct fuel; [lia|]. reflexivity.
  - destruct fuel as [|fuel]; [lia|].
    cbn [matchAllFrom]. unfold search. cbn [ahead].
    rewrite searchFrom_plus by lia.
    destruct (findRun P i b l) as [[x y]|] eqn:Hfr.
    + destruct (findRun_some _ _ _ _ _ Hfr) as (H1 & H2 & H3 & H4).
      replace (at_ y =? at_ x)%nat with false by (symmetry; apply Nat.eqb_neq; lia).
      cbn [stitch]. unfold between. cbn [at_ ahead].
      destruct y as [yi yb yl]. cbn [ahead] in *.
      rewrite IH by lia. rewrite H1. reflexivity.
    + cbn [stitch ahead]. symmetry. eapply findRun_none; eauto.
Qed.

Lemma replaceAll_plus s :
  replaceAll (plus (Chr P)) [32] s = collapseRuns P false s.
Proof.
  unfold replaceAll, matchAll, start.
  apply (stitch_collapse (length s)); lia.
Qed.
End RunMatching.

Lemma canonCourse_unfold s :
  canonCourse s = trim (collapseRuns isSep false (toUpperCase s)).
Proof. unfold canonCourse, reSpaceHyphen. change (lit " ") with [32]. now rewrite replaceAll_plus. Qed.

Ltac bool_to_prop H :=
  repeat first
    [ rewrite orb_true_iff in H | rewrite andb_true_iff in H
    | rewrite N.leb_le in H | rewrite N.eqb_eq in H ].

Lemma lower_not_space c : isLowerAZ c = true -> isSpace c = false /\ isSpace (c - 32) = false.
Proof.
  intros H. unfold isLowerAZ in H. bool_to_prop H.
  split.
  - destruct (isSpace c) eqn:E; [|reflexivity]. exfalso.
    unfold isSpace in E. bool_to_prop E. lia.
  - destruct (isSpace (c - 32)) eqn:E; [|reflexivity]. exfalso.
    unfold isSpace in E. bool_to_prop E. lia.
Qed.

Lemma isSpace_upper c : isSpace (upperChar c) = isSpace c.
Proof.
  unfold upperChar. destruct (isLowerAZ c) eqn:E; [|reflexivity].
  destruct (lower_not_space c E) as [-> ->]. reflexivity.
Qed.

Lemma isSep_upper c : isSep (upperChar c) = isSep c.
Proof.
  unfold isSep. rewrite isSpace_upper. f_equal.
  unfold upperChar. destruct (isLowerAZ c) eqn:E; [|reflexivity].
  unfold isLowerAZ in E. bool_to_prop E.
  destruct (N.eqb_spec (c - 32) 45), (N.eqb_spec c 45); try reflexivity; lia.
Qed.

Lemma upperChar_idem c : upperChar (upperChar c) = upperChar c.
Proof.
  unfold upperChar. destruct (isLowerAZ c) eqn:E; [|now rewrite E].
  destruct (isLowerAZ (c - 32)) eqn:E2; [|reflexivity].
  unfold isLowerAZ in E, E2. bool_to_prop E. bool_to_prop E2. lia.
Qed.

Lemma toUpperCase_idem s : toUpperCase (toUpperCase s) = toUpperCase s.
Proof.
  unfold toUpperCase. rewrite map_map. apply map_ext. apply upperChar_idem.
Qed.

Lemma collapse_upper b s :
  collapseRuns isSep b (toUpperCase s) = toUpperCase (collapseRuns isSep b s).
Proof.
  revert b. induction s as [|c t IH]; intros b; [reflexivity|].
  cbn [toUpperCase map collapseRuns]. fold (toUpperCase t).
  rewrite isSep_upper. destruct (isSep c), b; cbn [toUpperCase map];
    fold (toUpperCase (collapseRuns isSep true t));
    fold (toUpperCase (collapseRuns isSep false t)); now rewrite IH.
Qed.

Lemma trimStart_upper s : trimStart (toUpperCase s) = toUpperCase (trimStart s).
Proof.
  induction s as [|c t IH]; [reflexivity|].
  cbn [toUpperCase map trimStart]. fold (toUpperCase t).
  rewrite isSpace_upper. destruct (isSpace c); [exact IH|reflexivity].
Qed.

Lemma trim_upper s : trim (toUpperCase s) = toUpperCase (trim s).
Proof.
  unfold trim, trimEnd. rewrite trimStart_upper.
  unfold toUpperCase at 1. rewrite <- map_rev. fold (toUpperCase (rev (trimStart s))).
  rewrite trimStart_upper. unfold toUpperCase. now rewrite map_rev.
Qed.

Lemma tidy_fixed : forall s b, tidy b s = true -> collapseRuns isSep false s = s.
Proof.
  induction s as [|c t IH]; intros b H; [reflexivity|].
  cbn [tidy] in H. cbn [collapseRuns].
  destruct (isSep c) eqn:E.
  - apply andb_true_iff in H as [H H2]. apply andb_true_iff in H as [_ H1].
    apply N.eqb_eq in H1. subst c. f_equal.
    destruct t as [|d u]; [reflexivity|].
    cbn [tidy] in H2. destruct (isSep d) eqn:E2; [discriminate|].
    pose proof (IH false) as IH'. cbn [tidy collapseRuns] in IH'.
    rewrite E2 in IH'. cbn [collapseRuns]. rewrite E2. now apply IH'.
  - f_equal. now apply (IH false).
Qed.

Lemma tidy_collapse : forall s b, tidy b (collapseRuns isSep b s) = true.
Proof.
  induction s as [|c t IH]; intros b; [reflexivity|].
  cbn [collapseRuns]. destruct (isSep c) eqn:E.
  - destruct b; [apply IH|]. cbn [tidy]. change (isSep 32) with true.
    cbn. apply IH.
  - cbn [tidy]. rewrite E. apply IH.
Qed.

Lemma tidy_weaken : forall s, tidy true s = true -> tidy false s = true.
Proof.
  destruct s as [|c t]; [reflexivity|]. cbn [tidy].
  destruct (isSep c); [discriminate|auto].
Qed.

Lemma tidy_any : forall s b, tidy b s = true -> tidy false s = true.
Proof. intros s [] H; [now apply tidy_weaken|assumption]. Qed.

Lemma isSpace_isSep c : isSpace c = true -> isSep c = true.
Proof. unfold isSep. now intros ->. Qed.

Lemma tidy_trimStart : forall s b, tidy b s = true -> tidy false (trimStart s) = true.
Proof.
  induction s as [|c t IH]; intros b H; [reflexivity|].
  cbn [trimStart]. destruct (isSpace c) eqn:E.
  - cbn [tidy] in H. rewrite (isSpace_isSep _ E) in H.
    apply andb_true_iff in H as [_ H]. now apply (IH true).
  - now apply (tidy_any _ b).
Qed.

Lemma tidy_app_l : forall s1 s2 b, tidy b (s1 ++ s2) = true -> tidy b s1 = true.
Proof.
  induction s1 as [|c t IH]; intros s2 b H; [reflexivity|].
  cbn [app tidy] in *. destruct (isSep c).
  - apply andb_true_iff in H as [H1 H2]. rewrite H1. cbn. now apply (IH s2).
  - now apply (IH s2).
Qed.

Lemma trimStart_suffix s : exists sp, s = sp ++ trimStart s.
Proof.
  induction s as [|c t [sp IH]]; [now exists []|].
  cbn [trimStart]. destruct (isSpace c).
  - exists (c :: sp). cbn. now f_equal.
  - now exists [].
Qed.

Lemma trimEnd_prefix s : exists sp, s = trimEnd s ++ sp.
Proof.
  unfold trimEnd. destruct (trimStart_suffix (rev s)) as [sp H].
  exists (rev sp). rewrite <- rev_app_distr, <- H. now rewrite rev_involutive.
Qed.

Lemma tidy_trim s b : tidy b s = true -> tidy false (trim s) = true.
Proof.
  intros H. unfold trim. apply tidy_trimStart in H.
  destruct (trimEnd_prefix (trimStart s)) as [sp E].
  rewrite E in H. now apply tidy_app_l in H.
Qed.

Lemma trimStart_idem s : trimStart (trimStart s) = trimStart s.
Proof.
  induction s as [|c t IH]; [reflexivity|].
  cbn [trimStart]. destruct (isSpace c) eqn:E; [exact IH|].
  cbn [trimStart]. now rewrite E.
Qed.

Lemma trimStart_head s :
  match trimStart s with c :: _ => isSpace c = false | [] => True end.
Proof.
  induction s as [|c t IH]; [exact I|].
  cbn [trimStart]. destruct (isSpace c) eqn:E; [exact IH|exact E].
Qed.

Lemma trimStart_nosp s :
  match s with c :: _ => isSpace c = false | [] => True end -> trimStart s = s.
Proof. destruct s as [|c t]; [reflexivity|]. cbn [trimStart]. now intros ->. Qed.

Lemma trim_idem s : trim (trim s) = trim s.
Proof.
  unfold trim.
  assert (H : trimStart (trimEnd (trimStart s)) = trimEnd (trimStart s)).
  { apply trimStart_nosp.
    pose proof (trimStart_head s) as Hh.
    destruct (trimEnd_prefix (trimStart s)) as [sp E].
    destruct (trimEnd (trimStart s)) as [|c u]; [exact I|].
    rewrite E in Hh. exact Hh. }
  rewrite H. unfold trimEnd at 1 2. rewrite rev_involutive, trimStart_idem. reflexivity.
Qed.

(** *** The normalizer over any upper-casing *)

Lemma isSep_space c : isSep c = false -> isSpace c = false.
Proof.
  unfold isSep. intros H. now apply orb_false_iff in H.
Qed.

Lemma sep_split_left (x : jsstring) :
  (forall c, In c x -> isSep c = false) \/
  exists a c r, x = a ++ c :: r /\ (forall d, In d a -> isSep d = false) /\ isSep c = true.
Proof.
  induction x as [|h t IH]; [left; intros c []|].
  destruct (isSep h) eqn:Eh.
  - right. exists [], h, t. repeat split; auto. intros d [].
  - destruct IH as [IH|(a & c & r & -> & Ha & Hc)].
    + left. intros c [<-|Hc]; auto.
    + right. exists (h :: a), c, r. repeat split; auto.
      intros d [<-|Hd]; auto.
Qed.

Lemma sep_split_right (x : jsstring) :
  (forall c, In c x -> isSep c = false) \/
  exists p c seg, x = p ++ c :: seg /\ isSep c = true /\
                  (forall d, In d seg -> isSep d = false).
Proof.
  induction x as [|h t IH]; [left; intros c []|].
  destruct IH as [IH|(p & c & seg & -> & Hc & Hs)].
  - destruct (isSep h) eqn:Eh.
    + right. exists [], h, t. auto.
    + left. intros c [<-|Hc]; auto.
  - right. exists (h :: p), c, seg. auto.
Qed.

Lemma collapse_plain : forall a r b,
  (forall c, In c a -> isSep c = false) ->
  collapseRuns isSep b (a ++ r)
  = a ++ collapseRuns isSep (match a with [] => b | _ :: _ => false end) r.
Proof.
  induction a as [|x a IH]; intros r b H; [reflexivity|].
  cbn [app collapseRuns]. rewrite (H x) by now left. f_equal.
  rewrite IH by (intros c Hc; apply H; now right). destruct a; reflexivity.
Qed.

Lemma collapse_plain_all : forall a b,
  (forall c, In c a -> isSep c = false) -> collapseRuns isSep b a = a.
Proof.
  induction a as [|x a IH]; intros b H; [reflexivity|].
  cbn [collapseRuns]. rewrite (H x) by now left. f_equal.
  apply IH. intros c Hc. apply H. now right.
Qed.

Lemma trimEnd_snoc y d :
  trimEnd (y ++ [d]) = if isSpace d then trimEnd y else y ++ [d].
Proof.
  unfold trimEnd. rewrite rev_app_distr. cbn [rev app trimStart].
  destruct (isSpace d); [reflexivity|].
  cbn [rev]. now rewrite rev_involutive.
Qed.

Section UpperCasing.
Variable upper : jsstring -> jsstring.
Hypothesis Hup : upperCasing upper.

Lemma upper_plain_some a :
  (forall c, In c a -> isSep c = false) ->
  (forall c, In c (upper a) -> isSep c = false) /\ (upper a = [] <-> a = []).
Proof.
  intros H. split; [now apply (upper_plain upper Hup)|]. split.
  - apply (upper_some upper Hup).
  - intros ->. apply (upper_nil upper Hup).
Qed.

Lemma upper_collapse : forall n x b,
  (length x <= n)%nat ->
  upper (collapseRuns isSep b x) = collapseRuns isSep b (upper x).
Proof.
  induction n as [|n IH]; intros x b Hn.
  { destruct x; [|cbn in Hn; lia]. cbn. now rewrite (upper_nil upper Hup). }
  destruct (sep_split_left x) as [Hx|(a & c & r & -> & Ha & Hc)].
  - destruct (upper_plain_some x Hx) as [Hu _].
    now rewrite !collapse_plain_all by assumption.
  - destruct (upper_plain_some a Ha) as [Hu He].
    rewrite (upper_sep upper Hup) by assumption.
    rewrite !collapse_plain by assumption.
    cbn [collapseRuns]. rewrite Hc.
    assert (Hr : (length r <= n)%nat).
    { rewrite length_app in Hn. cbn in Hn. lia. }
    destruct a as [|a0 a'].
    + rewrite (upper_nil upper Hup). destruct b.
      * cbn [app]. now apply IH.
      * cbn [app]. change (32 :: collapseRuns isSep true r)
          with ([] ++ 32 :: collapseRuns isSep true r).
        rewrite (upper_sep upper Hup) by reflexivity.
        rewrite (upper_nil upper Hup). cbn [app]. f_equal. now apply IH.
    + destruct (upper (a0 :: a')) as [|u0 u'] eqn:Eu.
      { assert (a0 :: a' = []) by now apply He. discriminate. }
      rewrite <- Eu. rewrite (upper_sep upper Hup) by reflexivity.
      do 2 f_equal. now apply IH.
Qed.

Lemma upper_trimStart : forall x, upper (trimStart x) = trimStart (upper x).
Proof.
  induction x as [|h t IH]; [cbn; now rewrite (upper_nil upper Hup)|].
  cbn [trimStart]. destruct (isSpace h) eqn:Eh.
  - change (h :: t) with ([] ++ h :: t).
    rewrite (upper_sep upper Hup) by now apply isSpace_isSep.
    rewrite (upper_nil upper Hup). cbn [app trimStart]. now rewrite Eh.
  - symmetry. apply trimStart_nosp.
    destruct (sep_split_left (h :: t)) as [Hx|(a & c & r & E & Ha & Hc)].
    + destruct (upper_plain_some _ Hx) as [Hu _].
      destruct (upper (h :: t)) as [|u0 u']; [exact I|].
      apply isSep_space, Hu. now left.
    + rewrite E, (upper_sep upper Hup) by assumption.
      destruct (upper_plain_some a Ha) as [Hu He].
      destruct a as [|a0 a'].
      * cbn [app] in E. injection E as <- <-.
        rewrite (upper_nil upper Hup). exact Eh.
      * destruct (upper (a0 :: a')) as [|u0 u'] eqn:Eu.
        { assert (a0 :: a' = []) by now apply He. discriminate. }
        cbn [app]. apply isSep_space, Hu. now left.
Qed.

Lemma upper_trimEnd : forall x, upper (trimEnd x) = trimEnd (upper x).
Proof.
  induction x as [|d y IH] using rev_ind; [cbn; now rewrite (upper_nil upper Hup)|].
  rewrite trimEnd_snoc. destruct (isSpace d) eqn:Ed.
  - rewrite (upper_sep upper Hup) by now apply isSpace_isSep.
    rewrite (upper_nil upper Hup), trimEnd_snoc, Ed. exact IH.
  - destruct (sep_split_right (y ++ [d])) as [Hx|(p & c & seg & E & Hc & Hs)].
    + destruct (upper_plain_some _ Hx) as [Hu _].
      destruct (upper (y ++ [d])) as [|u0 u'] eqn:Eu using rev_ind; [reflexivity|].
      rewrite trimEnd_snoc.
      rewrite (isSep_space u0); [reflexivity|].
      apply Hu, in_or_app. right. now left.
    + rewrite E, (upper_sep upper Hup) by assumption.
      destruct (upper_plain_some seg Hs) as [Hu He].
      destruct seg as [|s0 s'] using rev_ind.
      * apply app_inj_tail in E as [_ ->].
        rewrite (upper_nil upper Hup), trimEnd_snoc, Ed. reflexivity.
      * clear IHs'.
        destruct (upper (s' ++ [s0])) as [|u0 u'] eqn:Eu using rev_ind.
        { assert (s' ++ [s0] = []) by now apply He. destruct s'; discriminate. }
        clear IHu'.
        change (upper p ++ c :: u' ++ [u0]) with (upper p ++ (c :: u') ++ [u0]).
        rewrite app_assoc, trimEnd_snoc.
        rewrite (isSep_space u0); [reflexivity|].
        apply Hu, in_or_app. right. now left.
Qed.

Lemma upper_trim x : upper (trim x) = trim (upper x).
Proof. unfold trim. now rewrite upper_trimEnd, upper_trimStart. Qed.

Lemma canonCourseWith_unfold s :
  canonCourseWith upper s = trim (collapseRuns isSep false (upper s)).
Proof.
  unfold canonCourseWith, reSpaceHyphen. now rewrite replaceAll_plus.
Qed.

Lemma canonCourseWith_upper s :
  upper (canonCourseWith upper s) = canonCourseWith upper s.
Proof.
  rewrite canonCourseWith_unfold, upper_trim.
  rewrite (upper_collapse (length (upper s))) by lia.
  now rewrite (upper_idem upper Hup).
Qed.

Lemma canonCourseWith_tidy s : tidy false (canonCourseWith upper s) = true.
Proof.
  rewrite canonCourseWith_unfold. apply (tidy_trim _ false). apply tidy_collapse.
Qed.

Lemma canonCourseWith_fixed s :
  canonCourseWith upper (canonCourseWith upper s) = canonCourseWith upper s.
Proof.
  rewrite (canonCourseWith_unfold (canonCourseWith upper s)).
  rewrite canonCourseWith_upper, (tidy_fixed _ _ (canonCourseWith_tidy s)).
  rewrite canonCourseWith_unfold. apply trim_idem.
Qed.

End UpperCasing.

(** The upper-casing of the ASCII letters is an upper-casing in this sense,
    and the normalizer of the development is the normalizer over it. *)
Lemma toUpperCase_casing : upperCasing toUpperCase.
Proof.
  split.
  - intros a c b H. unfold toUpperCase. rewrite map_app. cbn [map]. do 2 f_equal.
    unfold upperChar. destruct (isLowerAZ c) eqn:E; [|reflexivity].
    destruct (lower_not_space c E) as [H1 _].
    unfold isSep in H. rewrite H1 in H. cbn in H. apply N.eqb_eq in H. subst c.
    discriminate.
  - intros s H c Hc. unfold toUpperCase in Hc. apply in_map_iff in Hc as (x & <- & Hx).
    rewrite isSep_upper. now apply H.
  - apply toUpperCase_idem.
  - reflexivity.
  - intros s H. destruct s; [reflexivity|discriminate].
Qed.

Lemma canonCourse_with s : canonCourse s = canonCourseWith toUpperCase s.
Proof. reflexivity. Qed.

(** C8. The course-code canonicalizer is a total function and idempotent:
    [canonCourse (canonCourse s) = canonCourse s] for every string [s],
    whatever the upper-casing of the language does to the letters of [s]; it
    upper-cases, replaces each run of whitespace and hyphens by one space,
    and trims, and its result is left unchanged by upper-casing. *)
Theorem canonCourse_idempotent :
  forall upper : jsstring -> jsstring,
    upperCasing upper ->
    forall s : jsstring,
      canonCourseWith upper (canonCourseWith upper s) = canonCourseWith upper s /\
      canonCourseWith upper s = trim (collapseRuns isSep false (upper s)) /\
      upper (canonCourseWith upper s) = canonCourseWith upper s.
Proof.
  intros upper Hup s. split; [|split].
  - now apply canonCourseWith_fixed.
  - apply canonCourseWith_unfold.
  - now apply canonCourseWith_upper.
Qed.

Lemma canonCourse_idempotent_witness :
  canonCourse (canonCourse (lit " math--1a - ")) = canonCourse (lit " math--1a - ") /\
  canonCourse (lit " math--1a - ")
  = trim (collapseRuns isSep false (toUpperCase (lit " math--1a - "))) /\
  toUpperCase (canonCourse (lit " math--1a - ")) = canonCourse (lit " math--1a - ").
Proof.
  exact (canonCourse_idempotent toUpperCase toUpperCase_casing (lit " math--1a - ")).
Defined.

Example mathRound_ex :
  map mathRound [78.4%float; 78.5%float; 79.5%float; (-0.5)%float; (-1.5)%float; 99.99%float; 0.49999999999999994%float]
  = [78%float; 79%float; 80%float; (-0)%float; (-1)%float; 100%float; 0%float].
Proof. vm_compute. reflexivity. Qed.

Example words_ex : words (lit "Who's the BEST prof?") = [lit "who"; lit "s"; lit "the"; lit "best"; lit "prof"].
Proof. vm_compute. reflexivity. Qed.

Example normSchool_ex : normSchool (lit "De Anza College") = lit "de anza".
Proof. vm_compute. reflexivity. Qed.

Example title_ex1 :
  extractNameSchoolFromTitle (lit "Alice Chen at De Anza College | Rate My Professors")
  = Some (lit "Alice Chen", lit "De Anza College").
Proof. vm_compute. reflexivity. Qed.

Example title_ex2 :
  extractNameSchoolFromTitle (lit "Professor Ratings: Bob Lee - Foothill College")
  = Some (lit "Bob Lee", lit "Foothill College").
Proof. vm_compute. reflexivity. Qed.

Example campus_ex : extractCampusHint (lit "UCSD data science") = Some (lit "uc san diego").
Proof. vm_compute. reflexivity. Qed.

Example major_ex : isMajorReqQuery (lit "What are the data science requirements at UCLA?") = true.
Proof. vm_compute. reflexivity. Qed.

Example extractCourseCodes_ex :
  extractCourseCodes (lit "CIS22B and MATH 1A") = [lit "CIS 22B"; lit "MATH 1A"].
Proof. vm_compute. reflexivity. Qed.

Example extractCourseCodes_ex2 :
  extractCourseCodes (lit "best professor for MATH 1A") = [lit "MATH 1A"].
Proof. vm_compute. reflexivity. Qed.

Example parseRankIntent_ex :
  parseRankIntent (lit "best professor for MATH 1A") = ([lit "best_overall"], true).
Proof. vm_compute. reflexivity. Qed.

Example resolveCourseAlias_ex : resolveCourseAlias (lit "who teaches Calc II?") = Some (lit "MATH 1B").
Proof. vm_compute. reflexivity. Qed.

(** * The chat handler *)

Section HandlerFacts.
Variable showFloat : float -> jsstring.
Variable embed : jsstring -> option (list float).
Variable cseConfigured : bool.
Variable fetchCSE : jsstring -> nat -> fetch_result.
Variable SCHOOL_DB : school_db.
Variable EMB_INDEX : list index_item.

Lemma handoff_none SESSION course :
  handoff showFloat SCHOOL_DB SESSION course = None ->
  sortedForHandoff (rankingsOf SCHOOL_DB course) = [].
Proof.
  unfold handoff. destruct (sortedForHandoff (rankingsOf SCHOOL_DB course)); [reflexivity|].
  destruct (_ !! _); discriminate.
Qed.

Lemma secondBest_nil SESSION : secondBest SESSION [] = None.
Proof.
  unfold secondBest. destruct (lastProfessor SESSION) as [n|]; [|reflexivity].
  destruct (nonEmpty n); reflexivity.
Qed.

Lemma inject_after_handoff SESSION course filteredHits :
  handoff showFloat SCHOOL_DB SESSION course = None ->
  injectSecondBest SCHOOL_DB SESSION course filteredHits = (SESSION, filteredHits).
Proof.
  intros H. unfold injectSecondBest. rewrite (handoff_none _ _ H).
  now rewrite secondBest_nil.
Qed.
End HandlerFacts.

(** C10. The second-best injection block of the chat handler never adds a
    hit: when the intent is [class_full] and a course is remembered, either
    the handoff block has already answered (the ranking list is not empty),
    or the list is empty and the block finds no entry. So a turn that reaches
    the completion call sends the messages built from the filtered search
    hits alone, with the session as the search left it. *)
Theorem second_best_injection_unreachable :
  forall showFloat embed cseConfigured fetchCSE SCHOOL_DB EMB_INDEX
         (SESSION : session) (userMessage : jsstring),
    (forall s course filteredHits,
        handoff showFloat SCHOOL_DB s course = None ->
        sortedForHandoff (rankingsOf SCHOOL_DB course) = [] /\
        injectSecondBest SCHOOL_DB s course filteredHits = (s, filteredHits)) /\
    (forall s' ms,
        chatStep showFloat embed cseConfigured fetchCSE SCHOOL_DB EMB_INDEX
          SESSION userMessage = (s', Complete ms) ->
        exists hits,
          searchLocalKB showFloat embed cseConfigured fetchCSE SCHOOL_DB EMB_INDEX
            SESSION userMessage = (s', Ok hits) /\
          ms = messages showFloat (detectIntent SCHOOL_DB s' userMessage)
                 (filterHits (detectIntent SCHOOL_DB s' userMessage) hits) userMessage).
Proof.
  intros. split.
  - intros s course fh H. split; [eapply handoff_none; eauto|].
    now apply (inject_after_handoff showFloat).
  - intros s' ms. unfold chatStep.
    destruct (searchLocalKB _ _ _ _ _ _ _ _) as [s1 [hits|e]]; [|discriminate].
    set (i := detectIntent SCHOOL_DB s1 userMessage).
    destruct i eqn:Ei; try (intros H; inversion H; subst; eexists; split; [reflexivity|];
      subst i; rewrite Ei; reflexivity).
    destruct (lastCourse s1) as [course|] eqn:Ec.
    + destruct (nonEmpty course) eqn:Ene.
      * destruct (handoff showFloat SCHOOL_DB s1 course) as [[s2 r]|] eqn:Eh; [discriminate|].
        rewrite (inject_after_handoff _ _ _ _ _ Eh).
        intros H; inversion H; subst. eexists; split; [reflexivity|].
        subst i; rewrite Ei; reflexivity.
      * intros H; inversion H; subst. eexists; split; [reflexivity|].
        subst i; rewrite Ei; reflexivity.
    + intros H; inversion H; subst. eexists; split; [reflexivity|].
      subst i; rewrite Ei; reflexivity.
Qed.

(** ** Context assembly *)

Lemma truncate_short txt : (length txt <= 600)%nat -> truncate txt = txt.
Proof.
  intros H. unfold truncate.
  destruct (Nat.ltb_spec 600 (length txt)); [lia|reflexivity].
Qed.

Lemma truncate_long txt :
  (600 < length txt)%nat ->
  truncate txt = firstn 600 txt ++ lit "..." /\ length (truncate txt) = 603%nat.
Proof.
  intros H. unfold truncate.
  destruct (Nat.ltb_spec 600 (length txt)); [|lia].
  split; [reflexivity|].
  rewrite length_app, length_firstn. change (length (lit "...")) with 3%nat. lia.
Qed.

Lemma filterHits_plain i hits :
  i <> prof_ranking -> filterHits i hits = List.filter (allowed i) hits.
Proof. destruct i; intros H; try reflexivity. congruence. Qed.

Lemma allowed_table i h :
  allowed i h = true <->
  In (htype h)
     match i with
     | prof_ranking => [TRanking; TProfessor; TCourse]
     | prof_lookup => [TProfessor; TCourse]
     | class_full => [TRanking; TFaq; TDeadline]
     | tutoring => [TFaq; TCourse; TDeadline]
     | deadline_intent => [TDeadline; TFaq]
     | major_requirements => [TMajor; TFaq; TCourse]
     | generic => [TProfessor; TCourse; TFaq]
     end.
Proof.
  unfold allowed.
  destruct i, (htype h); cbn; split; intros H;
    try discriminate; try reflexivity; intuition congruence.
Qed.

Lemma join_nonempty sep x (t : list jsstring) :
  nonEmpty x = true -> nonEmpty (join sep (x :: t)) = true.
Proof.
  intros H. destruct x as [|c x]; [discriminate|]. destruct t; reflexivity.
Qed.

Lemma contextSnippets_nil sf (fh : list hit) :
  contextSnippets sf fh = [] <-> fh = [].
Proof.
  split; [|intros ->; reflexivity].
  destruct fh as [|h t]; [reflexivity|]. intros H. exfalso.
  assert (Hn : nonEmpty (contextSnippets sf (h :: t)) = true).
  { unfold contextSnippets, usedHits, maxSnippets. cbn [firstn imap].
    apply join_nonempty. reflexivity. }
  rewrite H in Hn. discriminate.
Qed.

(** A turn that reaches the completion call sends the messages made of the
    filtered search hits. *)
Lemma chatStep_messages sf em cfg f db idx SESSION q s' ms :
  chatStep sf em cfg f db idx SESSION q = (s', Complete ms) ->
  exists hits,
    searchLocalKB sf em cfg f db idx SESSION q = (s', Ok hits) /\
    ms = messages sf (detectIntent db s' q) (filterHits (detectIntent db s' q) hits) q.
Proof.
  unfold chatStep.
  destruct (searchLocalKB _ _ _ _ _ _ _ _) as [s1 [hits|e]]; [|discriminate].
  set (i := detectIntent db s1 q).
  destruct i eqn:Ei; try (intros H; inversion H; subst; eexists; split; [reflexivity|];
    subst i; rewrite Ei; reflexivity).
  destruct (lastCourse s1) as [course|] eqn:Ec.
  - destruct (nonEmpty course) eqn:Ene.
    + destruct (handoff sf db s1 course) as [[s2 r]|] eqn:Eh; [discriminate|].
      rewrite (inject_after_handoff _ _ _ _ _ Eh).
      intros H; inversion H; subst. eexists; split; [reflexivity|].
      subst i; rewrite Ei; reflexivity.
    + intros H; inversion H; subst. eexists; split; [reflexivity|].
      subst i; rewrite Ei; reflexivity.
  - intros H; inversion H; subst. eexists; split; [reflexivity|].
    subst i; rewrite Ei; reflexivity.
Qed.

(** C9. The context assembler keeps the hits whose type is on the intent's
    allow-list, in order: ranking, professor, course for [prof_ranking];
    professor, course for [prof_lookup]; ranking, faq, deadline for
    [class_full]; faq, course, deadline for [tutoring]; deadline, faq for
    [deadline]; major, faq, course for [major_requirements]; professor,
    course, faq for [generic]. For [prof_ranking] it also keeps the FAQ hits
    when no professor or ranking hit is kept. At most 5 hits are used. The
    context is the snippets of the used hits joined by an empty line; the
    snippet number [k + 1] is the header with the number and the type,
    followed by the formatted text of the hit, cut to its first 600 units
    followed by ["..."] when it is longer than 600 and left as it is
    otherwise. The context is empty only when no hit is kept; otherwise it
    is the last system message of the prompt, and a turn that reaches the
    completion call with this intent and these search hits sends that
    prompt. *)
Theorem context_assembler :
  forall (showFloat : float -> jsstring) (i : intent) (hits : list hit),
    let table :=
      match i with
      | prof_ranking => [TRanking; TProfessor; TCourse]
      | prof_lookup => [TProfessor; TCourse]
      | class_full => [TRanking; TFaq; TDeadline]
      | tutoring => [TFaq; TCourse; TDeadline]
      | deadline_intent => [TDeadline; TFaq]
      | major_requirements => [TMajor; TFaq; TCourse]
      | generic => [TProfessor; TCourse; TFaq]
      end in
    let onTable := fun h => existsb (hit_type_eqb (htype h)) table in
    let kept := List.filter onTable hits in
    let noProf := negb (existsb (fun h => isType TProfessor h || isType TRanking h) kept) in
    let cut := fun txt : jsstring =>
      if (600 <? length txt)%nat then firstn 600 txt ++ lit "..." else txt in
    let snippetOf := fun (k : nat) (h : hit) =>
      lit "Snippet " ++ ofN (N.of_nat (S k)) ++ lit " [" ++ typeName (htype h)
      ++ lit "]:" ++ [10] ++ cut (formatHit showFloat h) in
    let filteredHits := filterHits i hits in
    (forall h, allowed i h = true <-> In (htype h) table) /\
    (filteredHits =
       if noProf && bool_decide (i = prof_ranking)
       then List.filter (fun h => onTable h || isType TFaq h) hits
       else kept) /\
    (forall h, In h filteredHits ->
       In h hits /\
       (In (htype h) table \/
        (i = prof_ranking /\ noProf = true /\ htype h = TFaq))) /\
    (forall h, In h hits -> In (htype h) table -> In h filteredHits) /\
    (i = prof_ranking -> noProf = true ->
       forall h, In h hits -> htype h = TFaq -> In h filteredHits) /\
    (length (usedHits filteredHits) <= 5)%nat /\
    usedHits filteredHits = firstn 5 filteredHits /\
    contextSnippets showFloat filteredHits
      = join [10; 10] (imap snippetOf (firstn 5 filteredHits)) /\
    (forall k h, snippet showFloat k h = snippetOf k h) /\
    (forall txt,
       truncate txt = cut txt /\
       ((length txt <= 600)%nat -> cut txt = txt) /\
       ((600 < length txt)%nat ->
          cut txt = firstn 600 txt ++ lit "..." /\ length (cut txt) = 603%nat)) /\
    (contextSnippets showFloat filteredHits = [] <-> filteredHits = []) /\
    (forall userMessage,
       filteredHits <> [] ->
       exists before,
         messages showFloat i filteredHits userMessage
         = before ++ [(System, lit "Context:" ++ [10]
                               ++ contextSnippets showFloat filteredHits);
                      (User, userMessage)]) /\
    (forall embed cseConfigured fetchCSE SCHOOL_DB EMB_INDEX
            (SESSION s' : session) (userMessage : jsstring) ms,
       chatStep showFloat embed cseConfigured fetchCSE SCHOOL_DB EMB_INDEX
         SESSION userMessage = (s', Complete ms) ->
       detectIntent SCHOOL_DB s' userMessage = i ->
       snd (searchLocalKB showFloat embed cseConfigured fetchCSE SCHOOL_DB EMB_INDEX
              SESSION userMessage) = Ok hits ->
       ms = messages showFloat i filteredHits userMessage).
Proof.
  intros showFloat i hits table onTable kept noProf cut snippetOf filteredHits.
  assert (Hon : forall h, onTable h = allowed i h).
  { intros h. unfold onTable, table, allowed. destruct i; reflexivity. }
  assert (Hkept : kept = List.filter (allowed i) hits).
  { unfold kept. apply filter_ext. exact Hon. }
  assert (Htab : forall h, allowed i h = true <-> In (htype h) table)
    by (intros h; apply allowed_table).
  assert (Hdef : filteredHits =
       if noProf && bool_decide (i = prof_ranking)
       then List.filter (fun h => onTable h || isType TFaq h) hits
       else kept).
  { assert (Hf : List.filter (fun h => onTable h || isType TFaq h) hits
                 = List.filter (fun h => allowed i h || isType TFaq h) hits).
    { apply filter_ext. intros h. now rewrite Hon. }
    rewrite Hf. unfold noProf. rewrite Hkept. unfold filteredHits.
    destruct i; cbn [filterHits]; rewrite ?andb_false_r; try reflexivity.
    rewrite bool_decide_eq_true_2 by reflexivity. rewrite andb_true_r.
    destruct (negb _); reflexivity. }
  split; [exact Htab|]. split; [exact Hdef|].
  split.
  { intros h H. rewrite Hdef in H.
    destruct (noProf && bool_decide (i = prof_ranking)) eqn:E;
      apply filter_In in H as [Hin Hp].
    - split; [assumption|].
      apply andb_true_iff in E as [E1 E2]. apply bool_decide_eq_true in E2.
      apply orb_true_iff in Hp as [Hp|Hp].
      + left. apply Htab. now rewrite <- Hon.
      + right. repeat split; try assumption.
        unfold isType in Hp. destruct (htype h); try discriminate. reflexivity.
    - split; [assumption|]. left. apply Htab. now rewrite <- Hon. }
  split.
  { intros h Hin Hal. apply Htab in Hal. rewrite <- Hon in Hal. rewrite Hdef.
    destruct (noProf && bool_decide (i = prof_ranking)); apply filter_In;
      split; try assumption. now rewrite Hal. }
  split.
  { intros Hi Hn h Hin Ht. rewrite Hdef, Hn, Hi.
    rewrite bool_decide_eq_true_2 by reflexivity. cbn [andb].
    apply filter_In. split; [assumption|].
    unfold isType. rewrite Ht. cbn. apply orb_true_r. }
  split; [unfold usedHits, maxSnippets; rewrite length_firstn; lia|].
  split; [reflexivity|]. split; [reflexivity|]. split; [reflexivity|].
  split.
  { intros txt. split; [reflexivity|]. split.
    - apply truncate_short.
    - apply truncate_long. }
  split; [apply contextSnippets_nil|].
  split.
  { intros msg Hne.
    assert (Hc : nonEmpty (contextSnippets showFloat filteredHits) = true).
    { destruct (contextSnippets showFloat filteredHits) eqn:E; [|reflexivity].
      now apply contextSnippets_nil in E. }
    unfold messages. rewrite Hc.
    exists ([(System, systemPrompt)]
            ++ (if nonEmpty (antiMakeup i filteredHits)
                then [(System, antiMakeup i filteredHits)] else [])
            ++ [(System, classFullPrompt);
                (System, lit "Detected intent: " ++ intentName i)]).
    rewrite <- !app_assoc. reflexivity. }
  intros embed cseConfigured fetchCSE SCHOOL_DB EMB_INDEX SESSION s' msg ms Hstep Hi Hs.
  destruct (chatStep_messages _ _ _ _ _ _ _ _ _ _ Hstep) as (hits' & Hs' & ->).
  rewrite Hs' in Hs. cbn [snd] in Hs. injection Hs as ->. now rewrite Hi.
Qed.

(** * Loading *)

Lemma eqs_true a b : eqs a b = true <-> a = b.
Proof. unfold eqs. apply bool_decide_eq_true. Qed.

Lemma eqs_false a b : eqs a b = false <-> a <> b.
Proof. unfold eqs. apply bool_decide_eq_false. Qed.

Lemma eqs_refl a : eqs a a = true.
Proof. now apply eqs_true. Qed.

Lemma mem_In x l : mem x l = true <-> In x l.
Proof.
  unfold mem. rewrite existsb_exists. split.
  - intros (y & Hy & E). apply eqs_true in E. now subst.
  - intros H. exists x. split; [assumption|apply eqs_refl].
Qed.

Lemma uniq_acc_In seen l c :
  In c (uniq_acc seen l) <-> In c l /\ ~ In c seen.
Proof.
  revert seen. induction l as [|x t IH]; intros seen; cbn [uniq_acc].
  - cbn. tauto.
  - destruct (mem x seen) eqn:E.
    + apply mem_In in E. rewrite IH. cbn. split; [tauto|].
      intros [[->|H] Hn]; [contradiction|tauto].
    + assert (Hx : ~ In x seen) by (rewrite <- mem_In; congruence).
      cbn [In]. rewrite IH. cbn [In]. split.
      * intros [->|[H Hn]]; [tauto|]. split; [tauto|]. intros Hc. apply Hn. now right.
      * intros [[->|H] Hn]; [now left|].
        destruct (decide (x = c)) as [->|Hne]; [now left|right].
        split; [assumption|]. intros [?|?]; [congruence|contradiction].
Qed.

Lemma uniq_acc_NoDup seen l : List.NoDup (uniq_acc seen l).
Proof.
  revert seen. induction l as [|x t IH]; intros seen; cbn [uniq_acc].
  - constructor.
  - destruct (mem x seen); [apply IH|].
    constructor; [|apply IH].
    rewrite uniq_acc_In. cbn. tauto.
Qed.

Lemma uniq_In l c : In c (uniq l) <-> In c l.
Proof. unfold uniq. rewrite uniq_acc_In. cbn. tauto. Qed.

Lemma uniq_NoDup l : List.NoDup (uniq l).
Proof. apply uniq_acc_NoDup. Qed.

Lemma mapGet_mapSet_eq k v m : mapGet k (mapSet k v m) = Some v.
Proof.
  induction m as [|[k' v'] t IH]; cbn [mapSet mapGet].
  - now rewrite eqs_refl.
  - destruct (eqs k k') eqn:E; cbn [mapGet]; rewrite ?eqs_refl, ?E; auto.
Qed.

Lemma mapGet_mapSet_ne k k' v m : k <> k' -> mapGet k' (mapSet k v m) = mapGet k' m.
Proof.
  intros Hne. induction m as [|[k2 v2] t IH]; cbn [mapSet mapGet].
  - assert (E : eqs k' k = false) by (apply eqs_false; congruence). now rewrite E.
  - destruct (eqs k k2) eqn:E; cbn [mapGet].
    + apply eqs_true in E. subst k2.
      assert (E : eqs k' k = false) by (apply eqs_false; congruence). now rewrite E.
    + now rewrite IH.
Qed.

Lemma mapGet_None_keys k m : mapGet k m = None <-> ~ In k (map fst m).
Proof.
  induction m as [|[k' v'] t IH]; cbn [mapGet map fst In]; [tauto|].
  destruct (eqs k k') eqn:E.
  - apply eqs_true in E. subst. split; [discriminate|tauto].
  - apply eqs_false in E. rewrite IH. split; [intros H [?|?]; [congruence|tauto]|tauto].
Qed.

Lemma mapSet_keys k v m :
  map fst (mapSet k v m) =
  match mapGet k m with Some _ => map fst m | None => map fst m ++ [k] end.
Proof.
  induction m as [|[k' v'] t IH]; cbn [mapSet mapGet map fst app]; [reflexivity|].
  destruct (eqs k k') eqn:E; cbn [map fst].
  - apply eqs_true in E. now subst.
  - rewrite IH. destruct (mapGet k t); reflexivity.
Qed.

Lemma mapGet_In k v m : mapGet k m = Some v -> In (k, v) m.
Proof.
  induction m as [|[k' v'] t IH]; cbn [mapGet]; [discriminate|].
  destruct (eqs k k') eqn:E.
  - apply eqs_true in E. intros [= ->]. subst. now left.
  - intros H. right. auto.
Qed.

Lemma In_mapGet k v m : List.NoDup (map fst m) -> In (k, v) m -> mapGet k m = Some v.
Proof.
  induction m as [|[k' v'] t IH]; cbn [mapGet map fst]; [contradiction|].
  intros Hnd [H|H].
  - inversion H; subst. now rewrite eqs_refl.
  - inversion Hnd; subst. destruct (eqs k k') eqn:E.
    + apply eqs_true in E. subst. exfalso. apply H2.
      change k' with (fst (k', v)). now apply in_map.
    + auto.
Qed.

Lemma mapSet_In k v m k' v' :
  In (k', v') (mapSet k v m) -> (k' = k /\ v' = v) \/ In (k', v') m.
Proof.
  induction m as [|[k2 v2] t IH]; cbn [mapSet].
  - intros [H|[]]. inversion H. now left.
  - destruct (eqs k k2) eqn:E.
    + intros [H|H]; [inversion H; now left|right; now right].
    + intros [H|H]; [right; now left|].
      destruct (IH H); [now left|right; now right].
Qed.

Section LoadFacts.
Variable lower : jsstring -> jsstring.

Lemma dedupStep_inv m p : byNameInv lower m -> byNameInv lower (dedupStep lower m p).
Proof.
  intros [Hnd Hk]. unfold dedupStep.
  destruct (nonEmpty (profKey lower p)) eqn:Ene; [|now split].
  assert (Hset : forall v, nameKey lower (p_name v) = profKey lower p ->
                   byNameInv lower (mapSet (profKey lower p) v m)).
  { intros v Hv. split.
    - rewrite mapSet_keys. destruct (mapGet (profKey lower p) m) eqn:Eg; [assumption|].
      apply List.NoDup_app; [assumption|repeat constructor; cbn; tauto|].
      intros x Hx [<-|[]]. now apply mapGet_None_keys in Eg.
    - intros k' v' Hin. apply mapSet_In in Hin as [[-> ->]|Hin]; [now split|auto]. }
  destruct (mapGet (profKey lower p) m); apply Hset; reflexivity.
Qed.

Lemma fold_dedup_inv ps : forall m, byNameInv lower m -> byNameInv lower (fold_left (dedupStep lower) ps m).
Proof.
  induction ps as [|p t IH]; intros m Hm; [assumption|].
  cbn [fold_left]. apply IH. now apply dedupStep_inv.
Qed.

Lemma byName_inv ps : byNameInv lower (byName lower ps).
Proof. apply fold_dedup_inv. split; [constructor|intros ? ? []]. Qed.

Lemma fold_dedup_get ps : forall m k,
  nonEmpty k = true ->
  mapGet k (fold_left (dedupStep lower) ps m) =
  match mapGet k m with
  | Some b => Some (fold_left mergeEntry (entriesOf lower k ps) b)
  | None => mergeGroup (entriesOf lower k ps)
  end.
Proof.
  induction ps as [|p t IH]; intros m k Hk.
  - cbn. destruct (mapGet k m); reflexivity.
  - cbn [fold_left]. rewrite IH by assumption.
    unfold entriesOf. cbn [List.filter]. fold (entriesOf lower k t).
    unfold dedupStep.
    destruct (eqs (profKey lower p) k) eqn:E.
    + apply eqs_true in E. subst k. rewrite Hk.
      destruct (mapGet (profKey lower p) m) as [b|] eqn:Eg; rewrite mapGet_mapSet_eq; reflexivity.
    + apply eqs_false in E.
      destruct (nonEmpty (profKey lower p)); [|reflexivity].
      destruct (mapGet (profKey lower p) m); rewrite mapGet_mapSet_ne by assumption; reflexivity.
Qed.

Lemma byName_get ps k :
  nonEmpty k = true -> mapGet k (byName lower ps) = mergeGroup (entriesOf lower k ps).
Proof. intros H. unfold byName. now rewrite fold_dedup_get. Qed.

Lemma fold_dedup_keys ps : forall m k,
  In k (map fst (fold_left (dedupStep lower) ps m)) <->
  In k (map fst m) \/ (nonEmpty k = true /\ In k (map (profKey lower) ps)).
Proof.
  induction ps as [|p t IH]; intros m k; cbn [fold_left map In]; [tauto|].
  rewrite IH. unfold dedupStep.
  destruct (nonEmpty (profKey lower p)) eqn:Ene.
  - assert (Hs : forall v, In k (map fst (mapSet (profKey lower p) v m)) <->
                   In k (map fst m) \/ k = profKey lower p).
    { intros v. rewrite mapSet_keys. destruct (mapGet (profKey lower p) m) eqn:Eg.
      - split; [tauto|]. intros [H| ->]; [assumption|].
        apply mapGet_In in Eg. change (profKey lower p) with (fst (profKey lower p, p0)).
        now apply in_map.
      - rewrite in_app_iff. cbn. intuition. }
    destruct (mapGet (profKey lower p) m); rewrite Hs; intuition; subst; auto.
  - intuition. subst. congruence.
Qed.

Lemma inv_keys m :
  byNameInv lower m -> map (fun p => nameKey lower (p_name p)) (map snd m) = map fst m.
Proof.
  intros [_ H]. induction m as [|[k v] t IH]; [reflexivity|].
  cbn [map fst snd]. f_equal.
  - apply (H k v). now left.
  - apply IH. intros k' v' Hin. apply H. now right.
Qed.

End LoadFacts.

Lemma merge_courses rest : forall b c,
  In c (p_courses (fold_left mergeEntry rest b)) <->
  In c (p_courses b) \/ exists q, In q rest /\ In c (arrayOr (r_courses q)).
Proof.
  induction rest as [|q t IH]; intros b c; cbn [fold_left].
  - split; [tauto|]. intros [H|(q & [] & _)]. assumption.
  - rewrite IH. cbn [mergeEntry p_courses]. rewrite uniq_In, in_app_iff. split.
    + intros [[H|H]|(q' & Hq & Hc)]; [now left|right; exists q; split; [now left|assumption]|].
      right. exists q'. split; [now right|assumption].
    + intros [H|(q' & [->|Hq] & Hc)]; [tauto|tauto|]. right. now exists q'.
Qed.

Lemma merge_courses_NoDup rest : forall b,
  List.NoDup (p_courses b) -> List.NoDup (p_courses (fold_left mergeEntry rest b)).
Proof.
  induction rest as [|q t IH]; intros b Hb; [assumption|].
  cbn [fold_left]. apply IH. cbn. apply uniq_NoDup.
Qed.

Lemma merge_scalar {A} (get : professor -> field A) (rget : raw_professor -> field A) :
  (forall b q, get (mergeEntry b q) = spread (get b) (rget q)) ->
  forall rest b, get (fold_left mergeEntry rest b) = fold_left spread (map rget rest) (get b).
Proof.
  intros H. induction rest as [|q t IH]; intros b; [reflexivity|].
  cbn [fold_left map]. now rewrite IH, H.
Qed.

Lemma spread_missing {A} (x : field A) : spread Missing x = x.
Proof. now destruct x. Qed.

Lemma last_indep {A} (l : list A) : forall x d d', List.last (x :: l) d = List.last (x :: l) d'.
Proof.
  induction l as [|y t IH]; intros x d d'; [reflexivity|].
  change (List.last (y :: t) d = List.last (y :: t) d'). apply IH.
Qed.

Lemma merge_name rest : forall b p0,
  p_name b = fstr (r_name p0) ->
  p_name (fold_left mergeEntry rest b) = fstr (r_name (List.last rest p0)).
Proof.
  induction rest as [|q t IH]; intros b p0 Hb; [assumption|].
  cbn [fold_left]. rewrite (IH _ q) by reflexivity.
  destruct t as [|r t]; [reflexivity|].
  change (List.last (q :: r :: t) p0) with (List.last (r :: t) p0).
  now rewrite (last_indep t r q p0).
Qed.

(** C6 (amended). After loading, the professor list has exactly one entry
    for every non-empty normalized name of the file, the normalized name
    being the name lower-cased by the language and trimmed; this holds
    whatever the lower-casing does to the letters of the names. The entry is
    the merge, in load order, of the file entries with that name: its courses
    are the union of their courses, without repetition, and each other field
    has the value of the last entry that carries the field. Two entries
    named "Dr. Alice Chen" up to case and surrounding spaces that teach
    CIS 22A and CIS 22B, CIS 22A merge into one with the courses CIS 22A,
    CIS 22B; and two entries whose names have the same lower-casing, as
    the language gives it, always merge into one. *)
Theorem professors_deduplicated :
  (forall (lower : jsstring -> jsstring) (ps : list raw_professor),
     let loaded := dedupProfessors lower ps in
     let keyOf := fun p => nameKey lower (p_name p) in
     List.NoDup (map keyOf loaded) /\
     (forall k, In k (map keyOf loaded) <->
                nonEmpty k = true /\ In k (map (profKey lower) ps)) /\
     (forall p, In p loaded ->
        exists p0 rest,
          entriesOf lower (keyOf p) ps = p0 :: rest /\
          p = fold_left mergeEntry rest (firstEntry p0) /\
          List.NoDup (p_courses p) /\
          (forall c, In c (p_courses p) <->
                     exists q, In q (p0 :: rest) /\ In c (arrayOr (r_courses q))) /\
          p_name p = fstr (r_name (List.last rest p0)) /\
          p_department p = lastPresent (map r_department (p0 :: rest)) /\
          p_rating p = lastPresent (map r_rating (p0 :: rest)) /\
          p_num_ratings p = lastPresent (map r_num_ratings (p0 :: rest)) /\
          p_rmp_url p = lastPresent (map r_rmp_url (p0 :: rest)) /\
          p_reviews p = lastPresent (map r_reviews (p0 :: rest)))) /\
  (forall (lower : jsstring -> jsstring) (p q : raw_professor),
     trim (lower (fstr (r_name p))) = trim (lower (fstr (r_name q))) ->
     trim (lower (fstr (r_name p))) <> [] ->
     dedupProfessors lower [p; q] = [mergeEntry (firstEntry p) q]) /\
  dedupProfessors toLowerCase [aliceChen1; aliceChen2] =
    [{| p_name := lit "  dr. alice CHEN ";
        p_department := Val (lit "Computer Science");
        p_rating := Val 4.75%float;
        p_num_ratings := Val 12%Z;
        p_rmp_url := Val (lit "https://example.org/chen");
        p_courses := [lit "CIS 22A"; lit "CIS 22B"];
        p_reviews := Missing |}].
Proof.
  split; [|split; [|vm_compute; reflexivity]].
  2:{ intros lower p q E Hne.
      assert (Hk : nonEmpty (profKey lower p) = true).
      { unfold profKey, nameKey.
        destruct (trim (lower (fstr (r_name p)))); [congruence|reflexivity]. }
      assert (Hq : profKey lower q = profKey lower p) by (symmetry; exact E).
      unfold dedupProfessors, byName. cbn [fold_left].
      assert (H1 : dedupStep lower [] p = [(profKey lower p, firstEntry p)]).
      { unfold dedupStep. now rewrite Hk. }
      rewrite H1. unfold dedupStep. rewrite Hq, Hk. cbn [mapGet mapSet].
      rewrite eqs_refl. reflexivity. }
  intros lower ps loaded keyOf.
  pose proof (byName_inv lower ps) as Hinv.
  assert (Hkeys : map keyOf loaded = map fst (byName lower ps)) by (apply inv_keys; assumption).
  split; [rewrite Hkeys; apply Hinv|].
  split.
  - intros k. rewrite Hkeys. unfold byName. rewrite fold_dedup_keys. cbn. tauto.
  - intros p Hp. unfold loaded, dedupProfessors in Hp.
    apply in_map_iff in Hp as ([k v] & Hv & Hin). cbn in Hv. subst v.
    destruct Hinv as [Hnd Hk]. destruct (Hk _ _ Hin) as [Hne Hkey].
    pose proof (In_mapGet _ _ _ Hnd Hin) as Hget.
    rewrite byName_get in Hget by assumption.
    unfold keyOf. rewrite Hkey.
    destruct (entriesOf lower k ps) as [|p0 rest] eqn:Eg; [discriminate|].
    cbn [mergeGroup] in Hget. injection Hget as Hget.
    exists p0, rest. split; [reflexivity|]. split; [now symmetry|].
    rewrite <- Hget.
    split; [apply merge_courses_NoDup; cbn; apply uniq_NoDup|].
    split.
    { intros c. rewrite merge_courses. cbn [firstEntry p_courses]. rewrite uniq_In.
      split.
      - intros [H|(q & Hq & Hc)]; [exists p0; split; [now left|assumption]|].
        exists q. split; [now right|assumption].
      - intros (q & [<-|Hq] & Hc); [now left|right; now exists q]. }
    split; [now apply merge_name|].
    unfold lastPresent. cbn [map fold_left]. rewrite !spread_missing.
    repeat split.
    + apply (merge_scalar p_department r_department). reflexivity.
    + apply (merge_scalar p_rating r_rating). reflexivity.
    + apply (merge_scalar p_num_ratings r_num_ratings). reflexivity.
    + apply (merge_scalar p_rmp_url r_rmp_url). reflexivity.
    + apply (merge_scalar p_reviews r_reviews). reflexivity.
Qed.

(** Counterexample to C6 as stated: a name written with two spaces between
    its words is a whitespace variant of "Dr. Alice Chen", yet the two
    entries are not merged; the key only drops the whitespace around the
    name. Both names are ASCII, where the lower-casing of the language is
    that of the letters A to Z. *)
Lemma professors_not_merged :
  map r_name [aliceChen1; aliceChenWide]
    = [Val (lit "Dr. Alice Chen"); Val (lit "Dr.  Alice Chen")] /\
  map p_name (dedupProfessors toLowerCase [aliceChen1; aliceChenWide])
    = [lit "Dr. Alice Chen"; lit "Dr.  Alice Chen"] /\
  map p_courses (dedupProfessors toLowerCase [aliceChen1; aliceChenWide])
    = [[lit "CIS 22A"]; [lit "CIS 22B"]].
Proof. repeat split; vm_compute; reflexivity. Qed.

(** * The retrieval engine *)

Section SearchFacts.
Variable showFloat : float -> jsstring.
Variable embed : jsstring -> option (list float).
Variable cseConfigured : bool.
Variable fetchCSE : jsstring -> nat -> fetch_result.
Variable SCHOOL_DB : school_db.
Variable EMB_INDEX : list index_item.

Local Abbreviation search :=
  (searchLocalKB showFloat embed cseConfigured fetchCSE SCHOOL_DB EMB_INDEX).
Local Abbreviation later :=
  (laterStages showFloat embed cseConfigured fetchCSE SCHOOL_DB EMB_INDEX).

(** Replace the result by the expression it was returned from, without
    reducing that expression. *)
Ltac returned H :=
  match type of H with
  | _ ?x = _ ?y => replace y with x by congruence; clear H
  end.

Lemma semanticStage_length query hits :
  semanticStage embed EMB_INDEX query = Some hits -> (length hits <= 3)%nat.
Proof.
  unfold semanticStage. destruct EMB_INDEX; [discriminate|].
  destruct (embed query) as [e|]; [|discriminate].
  destruct (top _ _) as [|x t] eqn:E; [discriminate|].
  intros H. returned H. rewrite length_map, <- E. unfold top.
  rewrite length_firstn. lia.
Qed.

Lemma hardFilter_length query hits out :
  hardFilter SCHOOL_DB query hits = Some out -> (length out <= 3)%nat.
Proof.
  unfold hardFilter. destruct (askedBestProfForCourse _ _); [|discriminate].
  destruct (List.filter _ _); [discriminate|].
  intros H. returned H. rewrite length_firstn. lia.
Qed.

Lemma majorHits_length query : (length (majorHits SCHOOL_DB query) <= 3)%nat.
Proof.
  unfold majorHits. destruct (isMajorReqQuery query); [|cbn; lia].
  rewrite length_firstn. lia.
Qed.

Lemma webFallback_length query hits out :
  webFallback cseConfigured fetchCSE SCHOOL_DB query hits = Ok out ->
  (length out <= 3)%nat.
Proof.
  unfold webFallback.
  repeat match goal with
         | |- context [bind ?o _] => destruct o; cbn [bind]; [|discriminate]
         end.
  destruct (uniqueNames _ _).
  - destruct (firstn 5 _); intros H; returned H; rewrite length_firstn; lia.
  - intros H. returned H. rewrite length_firstn. lia.
Qed.

Lemma laterStages_length query hits :
  later query = Ok hits -> (length hits <= 3)%nat.
Proof.
  unfold laterStages.
  destruct (semanticStage _ _ _) as [e|] eqn:Es.
  { intros H. returned H. eapply semanticStage_length; eauto. }
  destruct (hardFilter _ _ _) as [o|] eqn:Eh.
  { intros H. returned H. eapply hardFilter_length; eauto. }
  destruct (majorHits SCHOOL_DB query) as [|m ms] eqn:Em.
  - destruct (_ && _).
    + apply webFallback_length.
    + intros H. returned H. rewrite length_firstn. lia.
  - intros H. returned H. rewrite <- Em. apply majorHits_length.
Qed.

Lemma mentioned_exact query :
  exactMatches SCHOOL_DB query = [] -> mentioned SCHOOL_DB query = [].
Proof.
  intros H. destruct (mentioned SCHOOL_DB query) as [|n t] eqn:E; [reflexivity|exfalso].
  assert (Hn : In n (mentioned SCHOOL_DB query)) by (rewrite E; now left).
  unfold mentioned in Hn. apply filter_In in Hn as [Hn _].
  apply in_map_iff in Hn as (p & Hp & Hin).
  assert (Hex : In p (exactMatches SCHOOL_DB query)).
  { unfold exactMatches. apply filter_In. split; [assumption|].
    apply existsb_exists. exists n. split; [rewrite E; now left|].
    subst n. apply eqs_refl. }
  now rewrite H in Hex.
Qed.

(** The search when no professor is mentioned: the ranking lookup or the
    later stages. *)
Lemma search_unmentioned SESSION query :
  mentioned SCHOOL_DB query = [] -> profMatches SCHOOL_DB query = [] ->
  search SESSION query =
    let '(wantTags, asked) := parseRankIntent query in
    match courseCodesInQuery SCHOOL_DB query with
    | code :: _ =>
        if asked then
          let S1 := rememberCourse SESSION code in
          match chosenRanked SCHOOL_DB wantTags code with
          | (r :: _) as chosen =>
              (if nonEmpty (k_name r) then setLastProfessor S1 (k_name r) else S1,
               Ok (firstn 3 (map (rankingHit SCHOOL_DB code) chosen
                             ++ courseCard SCHOOL_DB code)))
          | [] => (S1, later query)
          end
        else (SESSION, later query)
    | [] => (SESSION, later query)
    end.
Proof.
  intros Hm Hp. unfold searchLocalKB.
  assert (He : exactMatches SCHOOL_DB query = []).
  { unfold exactMatches. rewrite Hm. cbn [existsb].
    induction (professors SCHOOL_DB); [reflexivity|assumption]. }
  rewrite He, Hm, Hp. reflexivity.
Qed.

(** C4. The search returns at most 3 hits on every return path but the two
    professor-mention paths; these return one hit for every professor whose
    full name occurs in the query (score 100) or, failing that, whose last
    name is a word of the query (score 90), however many there are. *)
Theorem search_at_most_three :
  forall (SESSION s' : session) (query : jsstring) (hits : list hit),
    searchLocalKB showFloat embed cseConfigured fetchCSE SCHOOL_DB EMB_INDEX
      SESSION query = (s', Ok hits) ->
    (mentioned SCHOOL_DB query = [] -> profMatches SCHOOL_DB query = [] ->
       (length hits <= 3)%nat) /\
    (exactMatches SCHOOL_DB query <> [] ->
       hits = map (professorHit 100) (exactMatches SCHOOL_DB query)) /\
    (mentioned SCHOOL_DB query = [] -> profMatches SCHOOL_DB query <> [] ->
       hits = map (professorHit 90) (profMatches SCHOOL_DB query)).
Proof.
  intros SESSION s' query hits H. repeat split.
  - intros Hm Hp. rewrite search_unmentioned in H by assumption.
    destruct (parseRankIntent query) as [wantTags asked].
    destruct (courseCodesInQuery SCHOOL_DB query) as [|code rest].
    { apply (laterStages_length query). congruence. }
    destruct asked; [|apply (laterStages_length query); congruence].
    destruct (chosenRanked SCHOOL_DB wantTags code) as [|r t].
    { apply (laterStages_length query). congruence. }
    assert (E : Ok (firstn 3 (map (rankingHit SCHOOL_DB code) (r :: t)
                              ++ courseCard SCHOOL_DB code)) = Ok hits) by congruence.
    returned E. rewrite length_firstn. lia.
  - intros Hne. unfold searchLocalKB in H.
    destruct (exactMatches SCHOOL_DB query) as [|p t]; [congruence|].
    congruence.
  - intros Hm Hp. unfold searchLocalKB in H.
    assert (He : exactMatches SCHOOL_DB query = []).
    { unfold exactMatches. rewrite Hm. cbn [existsb].
      induction (professors SCHOOL_DB); [reflexivity|assumption]. }
    rewrite He, Hm in H.
    destruct (profMatches SCHOOL_DB query) as [|p t]; [congruence|].
    congruence.
Qed.

End SearchFacts.

(** Counterexample to C4 as stated: with four professors named Lee, the
    query "who is professor lee" returns four hits through the last-name
    path, and a query with the four full names returns four hits through the
    full-name path. *)
Lemma search_more_than_three :
  (exists hits,
     snd (searchLocalKB showNothing noEmbedding false fetchFails fourLees []
            SESSION0 (lit "who is professor lee")) = Ok hits /\
     hits = map (professorHit 90) (professors fourLees) /\
     length hits = 4%nat) /\
  (exists hits,
     snd (searchLocalKB showNothing noEmbedding false fetchFails fourLees []
            SESSION0 (lit "compare ann lee, bob lee, cat lee and dan lee")) = Ok hits /\
     hits = map (professorHit 100) (professors fourLees) /\
     length hits = 4%nat).
Proof.
  split; eexists; (split; [vm_compute; reflexivity|split; reflexivity]).
Qed.

(** The bound of C4 at a query that mentions nobody. *)
Lemma search_at_most_three_witness :
  exists hits,
    snd (searchLocalKB showNothing noEmbedding false fetchFails fourLees []
           SESSION0 (lit "when is the add deadline")) = Ok hits /\
    (length hits <= 3)%nat.
Proof.
  eexists. split; [vm_compute; reflexivity|].
  refine (proj1 (search_at_most_three showNothing noEmbedding false fetchFails fourLees []
            SESSION0 _ (lit "when is the add deadline") _ _) _ _);
    vm_compute; reflexivity.
Defined.

(** * Sorting *)

Section SortFacts.
Context {A : Type}.
Variable gt : A -> A -> bool.

Lemma insertBy_perm x l : Permutation (insertBy gt x l) (x :: l).
Proof.
  induction l as [|y t IH]; cbn [insertBy]; [reflexivity|].
  destruct (gt x y); [|reflexivity].
  rewrite IH. apply perm_swap.
Qed.

Lemma sortBy_perm l : Permutation (sortBy gt l) l.
Proof.
  induction l as [|x t IH]; cbn [sortBy fold_right]; [reflexivity|].
  fold (sortBy gt t). rewrite insertBy_perm. now constructor.
Qed.

Lemma sortBy_In l x : In x (sortBy gt l) <-> In x l.
Proof.
  split; apply Permutation_in; [|symmetry]; apply sortBy_perm.
Qed.

Lemma sortBy_length l : length (sortBy gt l) = length l.
Proof. apply Permutation_length, sortBy_perm. Qed.

Lemma sortBy_nil l : sortBy gt l = [] -> l = [].
Proof.
  intros H. apply length_zero_iff_nil. rewrite <- sortBy_length, H. reflexivity.
Qed.

Lemma insertBy_sorted x l :
  consistentOn gt (x :: l) ->
  StronglySorted (notAfter gt) l -> StronglySorted (notAfter gt) (insertBy gt x l).
Proof.
  intros [Hasym Htrans] Hs. induction Hs as [|y t Hs IH Hy]; cbn [insertBy].
  - repeat constructor.
  - destruct (gt x y) eqn:E.
    + constructor.
      * apply IH.
        -- intros a b Ha Hb. apply Hasym; cbn in *; tauto.
        -- intros a b c Ha Hb Hc. apply Htrans; cbn in *; tauto.
      * apply List.Forall_forall. intros z Hz.
        apply (Permutation_in _ (insertBy_perm x t)) in Hz as [<-|Hz].
        -- apply Hasym; cbn; auto.
        -- rewrite List.Forall_forall in Hy. now apply Hy.
    + constructor; [now constructor|].
      constructor; [exact E|].
      apply List.Forall_forall. intros z Hz. rewrite List.Forall_forall in Hy.
      apply (Htrans x y z); cbn; auto. now apply Hy.
Qed.

Lemma sortBy_sorted l : consistentOn gt l -> StronglySorted (notAfter gt) (sortBy gt l).
Proof.
  induction l as [|x t IH]; intros Hc; cbn [sortBy fold_right]; [constructor|].
  fold (sortBy gt t).
  assert (Hin : forall a, In a (x :: sortBy gt t) -> In a (x :: t)).
  { intros a [Ha|Ha]; [now left|right; now apply sortBy_In]. }
  destruct Hc as [Ha Ht]. apply insertBy_sorted.
  - split.
    + intros a b Ha' Hb'. apply Ha; now apply Hin.
    + intros a b c Ha' Hb' Hc'. apply Ht; now apply Hin.
  - apply IH. split.
    + intros a b ? ?. apply Ha; now right.
    + intros a b c ? ? ?. apply Ht; now right.
Qed.
End SortFacts.

Lemma sorted_filter {A} (R : A -> A -> Prop) (f : A -> bool) l :
  StronglySorted R l -> StronglySorted R (List.filter f l).
Proof.
  induction 1 as [|x t Hs IH Hx]; cbn [List.filter]; [constructor|].
  destruct (f x); [|assumption].
  constructor; [assumption|].
  rewrite List.Forall_forall in *. intros y Hy. apply Hx. now apply filter_In in Hy.
Qed.

Lemma sorted_firstn {A} (R : A -> A -> Prop) n : forall l,
  StronglySorted R l -> StronglySorted R (firstn n l).
Proof.
  induction n as [|n IH]; intros l Hs; [constructor|].
  destruct Hs as [|x t Hs Hx]; cbn [firstn]; [constructor|].
  constructor; [now apply IH|].
  rewrite List.Forall_forall in *. intros y Hy. apply Hx.
  rewrite <- (firstn_skipn n t). apply in_or_app. now left.
Qed.

Lemma sorted_impl {A} (R Q : A -> A -> Prop) l :
  (forall a b, R a b -> Q a b) -> StronglySorted R l -> StronglySorted Q l.
Proof.
  intros H. induction 1 as [|x t Hs IH Hx]; constructor; [assumption|].
  rewrite List.Forall_forall in *. auto.
Qed.

Lemma sortedForSearch_sorted l :
  StronglySorted (fun a b => (rankOr 999 a <= rankOr 999 b)%Z) (sortedForSearch l).
Proof.
  unfold sortedForSearch.
  eapply sorted_impl; [|apply sortBy_sorted].
  - intros a b H. unfold notAfter in H. apply Z.ltb_ge in H. lia.
  - split.
    + intros a b _ _ H. apply Z.ltb_lt in H. apply Z.ltb_ge. lia.
    + intros a b c _ _ _ H1 H2. apply Z.ltb_ge in H1, H2. apply Z.ltb_ge. lia.
Qed.

Lemma sortedForHandoff_sorted l :
  StronglySorted (fun a b => (rankNullish 999 a <= rankNullish 999 b)%Z) (sortedForHandoff l).
Proof.
  unfold sortedForHandoff.
  eapply sorted_impl; [|apply sortBy_sorted].
  - intros a b H. unfold notAfter in H. apply Z.ltb_ge in H. lia.
  - split.
    + intros a b _ _ H. apply Z.ltb_lt in H. apply Z.ltb_ge. lia.
    + intros a b c _ _ _ H1 H2. apply Z.ltb_ge in H1, H2. apply Z.ltb_ge. lia.
Qed.

(** * Ranking lookup *)

Lemma firstn_In {A} n (l : list A) x : In x (firstn n l) -> In x l.
Proof.
  intros H. rewrite <- (firstn_skipn n l). apply in_or_app. now left.
Qed.

Section RankingLookup.
Variable showFloat : float -> jsstring.
Variable embed : jsstring -> option (list float).
Variable cseConfigured : bool.
Variable fetchCSE : jsstring -> nat -> fetch_result.
Variable SCHOOL_DB : school_db.
Variable EMB_INDEX : list index_item.

(** The entries the ranking hits are made of: the first three of the
    entries with a requested tag, or of all entries when none has one. *)
Lemma chosenRanked_pool wantTags code :
  exists pool,
    chosenRanked SCHOOL_DB wantTags code = firstn 3 pool /\
    (pool = sortedForSearch (rankingsOf SCHOOL_DB code) \/
     (pool <> [] /\
      pool = List.filter (tagged wantTags) (sortedForSearch (rankingsOf SCHOOL_DB code)))).
Proof.
  unfold chosenRanked.
  set (l := sortedForSearch (rankingsOf SCHOOL_DB code)).
  destruct wantTags as [|t ts].
  - exists l. split; [destruct l; reflexivity|now left].
  - destruct (List.filter (tagged (t :: ts)) l) as [|m ms] eqn:E.
    + exists l. split; [reflexivity|now left].
    + exists (m :: ms). split; [reflexivity|right]. split; [discriminate|reflexivity].
Qed.

Lemma chosenRanked_facts wantTags code :
  rankingsOf SCHOOL_DB code <> [] ->
  let chosen := chosenRanked SCHOOL_DB wantTags code in
  chosen <> [] /\ (length chosen <= 3)%nat /\
  StronglySorted (fun a b => (rankOr 999 a <= rankOr 999 b)%Z) chosen /\
  (forall r, In r chosen -> In r (rankingsOf SCHOOL_DB code)).
Proof.
  intros Hne chosen. subst chosen.
  destruct (chosenRanked_pool wantTags code) as (pool & -> & Hpool).
  assert (Hp : pool <> []).
  { destruct Hpool as [->|[H _]]; [|assumption].
    intros H. apply Hne. unfold sortedForSearch in H. now apply sortBy_nil in H. }
  assert (Hs : StronglySorted (fun a b => (rankOr 999 a <= rankOr 999 b)%Z) pool).
  { destruct Hpool as [->|[_ ->]]; [|apply sorted_filter]; apply sortedForSearch_sorted. }
  assert (Hin : forall r, In r pool -> In r (rankingsOf SCHOOL_DB code)).
  { intros r Hr. destruct Hpool as [->|[_ ->]].
    - now apply sortBy_In in Hr.
    - apply filter_In in Hr as [Hr _]. now apply sortBy_In in Hr. }
  repeat split.
  - destruct pool; [congruence|discriminate].
  - rewrite length_firstn. lia.
  - now apply sorted_firstn.
  - intros r Hr. apply Hin. rewrite <- (firstn_skipn 3 pool). apply in_or_app. now left.
Qed.

Lemma courseCard_facts code :
  match List.find (fun c => eqs (canonCourse (c_code c)) code) (courses SCHOOL_DB) with
  | Some c => courseCard SCHOOL_DB code = [{| score := SInt 0; data := PCourse c |}]
  | None => courseCard SCHOOL_DB code = []
  end.
Proof. unfold courseCard. destruct (List.find _ _); reflexivity. Qed.

Lemma courseCard_length code : (length (courseCard SCHOOL_DB code) <= 1)%nat.
Proof. unfold courseCard. destruct (List.find _ _); cbn; lia. Qed.

Lemma tagged_iff wantTags r :
  tagged wantTags r = true <->
  exists t, In t (default [] (k_tags r)) /\ In t wantTags.
Proof.
  unfold tagged. rewrite existsb_exists. split.
  - intros (t & Ht & Hm). exists t. split; [assumption|now apply mem_In].
  - intros (t & Ht & Hm). exists t. split; [assumption|now apply mem_In].
Qed.

Lemma chosenRanked_explicit wantTags code :
  chosenRanked SCHOOL_DB wantTags code
  = let sorted := sortedForSearch (rankingsOf SCHOOL_DB code) in
    let matches := List.filter (tagged wantTags) sorted in
    firstn 3 (match matches with [] => sorted | _ :: _ => matches end).
Proof.
  unfold chosenRanked. cbv zeta. destruct wantTags as [|t ts]; [|reflexivity].
  set (l := sortedForSearch _).
  assert (H : List.filter (tagged []) l = []).
  { induction l as [|x l IH]; [reflexivity|]. cbn [List.filter].
    assert (E : tagged [] x = false).
    { unfold tagged. induction (default [] (k_tags x)); [reflexivity|assumption]. }
    now rewrite E. }
  rewrite H. now destruct l.
Qed.

Lemma lookup_firstn_app {A} (l1 l2 : list A) i x n :
  l1 !! i = Some x -> (length l1 <= n)%nat -> firstn n (l1 ++ l2) !! i = Some x.
Proof.
  intros H Hn.
  assert (Hi : (i < length l1)%nat) by (apply lookup_lt_is_Some; eauto).
  change (take n (l1 ++ l2) !! i = Some x).
  rewrite lookup_take_lt by lia. now rewrite lookup_app_l.
Qed.

(** C1 (amended). For an ASCII query and a school file with ASCII names and
    integer ranks of magnitude at most 2^50: a query that asks for a
    ranking, resolves a course code whose ranking list is not empty, and
    mentions no professor gets at most three hits. The list is sorted by
    ascending rank (no rank or rank 0 counts as 999); the entries that carry
    a requested tag are taken from it, or the whole list when no entry
    carries one; the first three of these are chosen. The hits start with
    one ranking hit for each chosen entry, in that order, with the entry's
    name, tags and rank, the course code, and the score 100 - 2 * rank (rank
    99 when the entry has no rank or rank 0). When fewer than three entries
    are chosen and the catalogue has a course with that canonical code, the
    hit of the first such course (score 0) follows and is the last hit;
    when three are chosen there is no course hit. The session gets
    [lastCourse = code], [rankCursor[code] = 0], and [lastProfessor] the name
    of the first chosen entry when that name is not empty (it is left as it
    was otherwise). *)
Theorem ranking_lookup :
  forall (SESSION : session) (query : jsstring) (wantTags : list jsstring)
         (code : jsstring) (rest : list jsstring),
    isAscii query = true ->
    asciiNames SCHOOL_DB = true ->
    smallRanks (rankingsOf SCHOOL_DB code) = true ->
    mentioned SCHOOL_DB query = [] ->
    profMatches SCHOOL_DB query = [] ->
    parseRankIntent query = (wantTags, true) ->
    courseCodesInQuery SCHOOL_DB query = code :: rest ->
    rankingsOf SCHOOL_DB code <> [] ->
    let rankOf := fun (d : Z) (r : ranking_entry) =>
      match k_rank r with
      | Some z => if (z =? 0)%Z then d else z
      | None => d
      end in
    let hasTag := fun r =>
      exists t, In t (default [] (k_tags r)) /\ In t wantTags in
    let sorted := sortedForSearch (rankingsOf SCHOOL_DB code) in
    let matches := List.filter (tagged wantTags) sorted in
    let chosen := firstn 3 (match matches with [] => sorted | _ :: _ => matches end) in
    exists (s' : session) (hits : list hit),
      searchLocalKB showFloat embed cseConfigured fetchCSE SCHOOL_DB EMB_INDEX
        SESSION query = (s', Ok hits) /\
      Permutation sorted (rankingsOf SCHOOL_DB code) /\
      StronglySorted (fun a b => (rankOf 999 a <= rankOf 999 b)%Z) sorted /\
      (forall r, In r matches <-> In r sorted /\ hasTag r) /\
      StronglySorted (fun a b => (rankOf 999 a <= rankOf 999 b)%Z) chosen /\
      chosen <> [] /\ (length chosen <= 3)%nat /\
      (matches <> [] -> forall r, In r chosen -> hasTag r) /\
      (forall i r, chosen !! i = Some r ->
         exists h d,
           hits !! i = Some h /\ data h = PRanking d /\
           score h = SInt (100 - 2 * rankOf 99%Z r)%Z /\
           rd_course d = code /\
           g_name (rd_prof d) = k_name r /\
           rd_tags d = default [] (k_tags r) /\
           rd_rank d = match k_rank r with
                       | Some z => if (z =? 0)%Z then None else Some z
                       | None => None
                       end) /\
      (forall c, In c (courses SCHOOL_DB) -> canonCourse (c_code c) = code ->
         exists c',
           List.find (fun x => eqs (canonCourse (c_code x)) code) (courses SCHOOL_DB)
             = Some c' /\
           In c' (courses SCHOOL_DB) /\ canonCourse (c_code c') = code /\
           ((length chosen < 3)%nat ->
              hits !! length chosen = Some {| score := SInt 0; data := PCourse c' |} /\
              length hits = S (length chosen))) /\
      ((forall c, In c (courses SCHOOL_DB) -> canonCourse (c_code c) <> code) ->
         length hits = length chosen) /\
      (length chosen = 3%nat -> length hits = 3%nat) /\
      (length hits <= 3)%nat /\
      lastCourse s' = Some code /\
      rankCursor s' !! code = Some 0%nat /\
      (forall r t, chosen = r :: t ->
         lastProfessor s'
         = if nonEmpty (k_name r) then Some (k_name r) else lastProfessor SESSION).
Proof.
  intros SESSION query wantTags code rest _ _ _ Hm Hp Hi Hc Hne
         rankOf hasTag sorted matches chosen.
  assert (Hle : forall l,
            StronglySorted (fun a b => (rankOr 999 a <= rankOr 999 b)%Z) l ->
            StronglySorted (fun a b => (rankOf 999 a <= rankOf 999 b)%Z) l)
    by (intros l H; exact H).
  assert (Hch : chosenRanked SCHOOL_DB wantTags code = chosen)
    by (rewrite chosenRanked_explicit; reflexivity).
  destruct (chosenRanked_facts wantTags code Hne) as (Hnn & Hlen & Hsort & Hin).
  rewrite Hch in Hnn, Hlen, Hsort, Hin.
  set (card := courseCard SCHOOL_DB code).
  set (rh := map (rankingHit SCHOOL_DB code) chosen).
  assert (Hrh : length rh = length chosen) by apply length_map.
  pose proof (courseCard_length code) as Hcard. fold card in Hcard.
  assert (Hs : exists r0 t0, chosen = r0 :: t0 /\
            searchLocalKB showFloat embed cseConfigured fetchCSE SCHOOL_DB EMB_INDEX
              SESSION query
            = (if nonEmpty (k_name r0)
               then setLastProfessor (rememberCourse SESSION code) (k_name r0)
               else rememberCourse SESSION code,
               Ok (firstn 3 (rh ++ card)))).
  { rewrite (search_unmentioned showFloat embed cseConfigured fetchCSE SCHOOL_DB
               EMB_INDEX SESSION query Hm Hp), Hi, Hc.
    unfold rh, card. clearbody chosen. rewrite Hch.
    destruct chosen as [|r0 t0]; [congruence|]. now exists r0, t0. }
  destruct Hs as (r0 & t0 & Ech & Hs).
  eexists _, _. split; [exact Hs|].
  split; [apply sortBy_perm|].
  split; [apply Hle, sortedForSearch_sorted|].
  split.
  { intros r. unfold matches. rewrite filter_In, tagged_iff. reflexivity. }
  split; [now apply Hle|].
  split; [assumption|]. split; [assumption|].
  split.
  { intros Hmne r Hr. unfold chosen in Hr.
    destruct matches as [|m ms] eqn:Em; [congruence|].
    apply firstn_In in Hr. rewrite <- Em in Hr.
    unfold matches in Hr. apply filter_In in Hr as [_ Hr]. now apply tagged_iff. }
  split.
  { intros i r Hr.
    exists (rankingHit SCHOOL_DB code r),
           {| rd_course := code;
              rd_tags := default [] (k_tags r);
              rd_rank := rankTruthy r;
              rd_prof := mergeProf code r (findProf SCHOOL_DB (k_name r)) |}.
    split.
    - apply lookup_firstn_app; [|lia]. unfold rh.
      apply (list_lookup_fmap_Some_2 (rankingHit SCHOOL_DB code)). exact Hr.
    - cbn. repeat split. f_equal. unfold rankOr, rankOf.
      destruct (k_rank r) as [z|]; [destruct (z =? 0)%Z|]; lia. }
  assert (Hfind : forall c', List.find (fun x => eqs (canonCourse (c_code x)) code)
                     (courses SCHOOL_DB) = Some c' ->
                   card = [{| score := SInt 0; data := PCourse c' |}]).
  { intros c' E. unfold card, courseCard. now rewrite E. }
  split.
  { intros c Hcin Hcc.
    destruct (List.find (fun x => eqs (canonCourse (c_code x)) code) (courses SCHOOL_DB))
      as [c'|] eqn:Ef.
    - exists c'. split; [reflexivity|]. apply find_some in Ef as Hf. destruct Hf as [Hf1 Hf2].
      split; [assumption|]. split; [now apply eqs_true|].
      intros Hlt. rewrite (Hfind c' eq_refl). split.
      + change (take 3 (rh ++ [{| score := SInt 0; data := PCourse c' |}]) !! length chosen
                = Some {| score := SInt 0; data := PCourse c' |}).
        rewrite lookup_take_lt by lia. rewrite <- Hrh.
        rewrite lookup_app_r by lia. now rewrite Nat.sub_diag.
      + rewrite length_firstn, length_app, Hrh. cbn [length]. lia.
    - exfalso. apply (find_none _ _ Ef) in Hcin. apply eqs_false in Hcin. congruence. }
  split.
  { intros Hno. assert (E : card = []).
    { unfold card, courseCard.
      destruct (List.find _ _) as [c'|] eqn:Ef; [|reflexivity].
      apply find_some in Ef as [Hf1 Hf2]. apply eqs_true in Hf2.
      now apply Hno in Hf1. }
    rewrite E, app_nil_r, length_firstn, Hrh. lia. }
  split.
  { intros H3. rewrite length_firstn, length_app, Hrh. lia. }
  split.
  { rewrite length_firstn. lia. }
  split; [destruct (nonEmpty (k_name r0)); reflexivity|].
  split; [destruct (nonEmpty (k_name r0)); cbn; apply lookup_insert_eq|].
  intros r' t' E. rewrite Ech in E. injection E as <- <-.
  destruct (nonEmpty (k_name r0)); reflexivity.
Qed.

End RankingLookup.

(** The MATH 1A instance of C1: "best professor for MATH 1A" returns Prof X
    then Prof Y and leaves [lastCourse = "MATH 1A"], [lastProfessor =
    "Prof X"], [rankCursor["MATH 1A"] = 0]. *)
Lemma ranking_lookup_witness :
  exists (s' : session) (hits : list hit),
    searchLocalKB showNothing noEmbedding false fetchFails mathDb []
      SESSION0 (lit "best professor for MATH 1A") = (s', Ok hits) /\
    map hitName hits = [lit "Prof X"; lit "Prof Y"] /\
    map htype hits = [TRanking; TRanking] /\
    map score hits = [SInt 98; SInt 96] /\
    lastCourse s' = Some (lit "MATH 1A") /\
    lastProfessor s' = Some (lit "Prof X") /\
    rankCursor s' !! lit "MATH 1A" = Some 0%nat.
Proof.
  assert (A1 : isAscii (lit "best professor for MATH 1A") = true)
    by (vm_compute; reflexivity).
  assert (A2 : asciiNames mathDb = true) by (vm_compute; reflexivity).
  assert (A3 : smallRanks (rankingsOf mathDb (lit "MATH 1A")) = true)
    by (vm_compute; reflexivity).
  assert (H1 : mentioned mathDb (lit "best professor for MATH 1A") = [])
    by (vm_compute; reflexivity).
  assert (H2 : profMatches mathDb (lit "best professor for MATH 1A") = [])
    by (vm_compute; reflexivity).
  assert (H3 : parseRankIntent (lit "best professor for MATH 1A")
               = ([lit "best_overall"], true)) by (vm_compute; reflexivity).
  assert (H4 : courseCodesInQuery mathDb (lit "best professor for MATH 1A")
               = [lit "MATH 1A"]) by (vm_compute; reflexivity).
  assert (H5 : rankingsOf mathDb (lit "MATH 1A") <> []) by (vm_compute; discriminate).
  destruct (ranking_lookup showNothing noEmbedding false fetchFails mathDb []
              SESSION0 _ _ _ _ A1 A2 A3 H1 H2 H3 H4 H5)
    as (s' & hits & Hs & _ & _ & _ & _ & _ & _ & _ & _ & _ & _ & _ & _ & Hlc & Hrc & Hlp).
  exists s', hits. split; [exact Hs|].
  assert (E : (s', Ok hits)
              = searchLocalKB showNothing noEmbedding false fetchFails mathDb []
                  SESSION0 (lit "best professor for MATH 1A")) by (symmetry; exact Hs).
  assert (Eh : hits = match snd (searchLocalKB showNothing noEmbedding false fetchFails
                                   mathDb [] SESSION0 (lit "best professor for MATH 1A"))
                      with Ok l => l | Throw _ => [] end)
    by (rewrite <- E; reflexivity).
  split; [rewrite Eh; vm_compute; reflexivity|].
  split; [rewrite Eh; vm_compute; reflexivity|].
  split; [rewrite Eh; vm_compute; reflexivity|].
  split; [exact Hlc|]. split; [|exact Hrc].
  exact (Hlp (rankedPlain "Prof X" 1) [rankedPlain "Prof Y" 2] eq_refl).
Defined.

(** Counterexamples to C1 as stated. (1) With a professor Smith on the
    staff, "is smith the best professor for MATH 1A" has ranking intent and
    resolves MATH 1A, whose list is not empty, but the last-name path answers:
    one professor hit, no ranking hit, and [lastCourse] stays unset. (2) With
    three ranked names and MATH 1A in the catalogue, the three ranking hits
    fill the result and no course hit is returned. (3) With Prof X ranked
    first and Prof Y tagged easiest, "easiest professor for MATH 1A" sets
    [lastProfessor] to Prof Y, not to the top-ranked Prof X. *)
Lemma ranking_lookup_counterexample :
  (parseRankIntent (lit "is smith the best professor for MATH 1A")
     = ([lit "best_overall"], true) /\
   courseCodesInQuery smithDb (lit "is smith the best professor for MATH 1A")
     = [lit "MATH 1A"] /\
   rankingsOf smithDb (lit "MATH 1A") <> [] /\
   searchLocalKB showNothing noEmbedding false fetchFails smithDb []
     SESSION0 (lit "is smith the best professor for MATH 1A")
   = ({| lastCourse := None; lastProfessor := Some (lit "John Smith"); rankCursor := ∅ |},
      Ok [professorHit 90 (professorNamed "John Smith")])) /\
  (exists s' hits,
     searchLocalKB showNothing noEmbedding false fetchFails threeDb []
       SESSION0 (lit "best professor for MATH 1A") = (s', Ok hits) /\
     courseCard threeDb (lit "MATH 1A") = [{| score := SInt 0; data := PCourse math1A |}] /\
     map htype hits = [TRanking; TRanking; TRanking]) /\
  (exists s' hits,
     searchLocalKB showNothing noEmbedding false fetchFails taggedDb []
       SESSION0 (lit "easiest professor for MATH 1A") = (s', Ok hits) /\
     map hitName (map (rankingHit taggedDb (lit "MATH 1A"))
                    (sortedForSearch (rankingsOf taggedDb (lit "MATH 1A"))))
       = [lit "Prof X"; lit "Prof Y"] /\
     map hitName hits = [lit "Prof Y"] /\
     lastProfessor s' = Some (lit "Prof Y")).
Proof.
  split; [|split].
  - split; [vm_compute; reflexivity|]. split; [vm_compute; reflexivity|].
    split; [vm_compute; discriminate|vm_compute; reflexivity].
  - eexists _, _. split; [vm_compute; reflexivity|].
    split; vm_compute; reflexivity.
  - eexists _, _. split; [vm_compute; reflexivity|].
    split; [vm_compute; reflexivity|]. split; vm_compute; reflexivity.
Qed.

(** * Patterns on a translated subject *)

Section Folding.
Variable f : N -> N.
Hypothesis f_word : forall c, isWordChar (f c) = isWordChar c.

Local Abbreviation fc := (mapCursor f).

Lemma wordy_map o : wordy (option_map f o) = wordy o.
Proof. destruct o; cbn; [apply f_word|reflexivity]. Qed.

Lemma repLoop_folds {A B : Type} (g : A -> B) (m : @matcher A) (m' : @matcher B)
    (gr : bool) lo hi k k' :
  (forall s c (k1 : cursor -> caps -> option A) (k1' : cursor -> caps -> option B),
      (forall s1 c1, k1' (fc s1) c1 = option_map g (k1 s1 c1)) ->
      m' (fc s) c k1' = option_map g (m s c k1)) ->
  (forall s1 c1, k' (fc s1) c1 = option_map g (k s1 c1)) ->
  forall fuel n s c,
    repLoop m' gr lo hi k' fuel n (fc s) c =
    option_map g (repLoop m gr lo hi k fuel n s c).
Proof.
  intros Hm Hk. induction fuel as [|fuel IH]; intros n s c; [reflexivity|].
  cbn [repLoop].
  assert (Hmore :
    (if below n hi
     then m' (fc s) c (fun s' c' =>
            if (lo <=? n)%nat && (at_ s' =? at_ (fc s))%nat then None
            else repLoop m' gr lo hi k' fuel (S n) s' c')
     else None) =
    option_map g
      (if below n hi
       then m s c (fun s' c' =>
              if (lo <=? n)%nat && (at_ s' =? at_ s)%nat then None
              else repLoop m gr lo hi k fuel (S n) s' c')
       else None)).
  { destruct (below n hi); [|reflexivity]. apply Hm.
    intros s1 c1. cbn [mapCursor at_].
    destruct ((lo <=? n)%nat && (at_ s1 =? at_ s)%nat); [reflexivity|apply IH]. }
  assert (Hstop : (if (lo <=? n)%nat then k' (fc s) c else None) =
                  option_map g (if (lo <=? n)%nat then k s c else None)).
  { destruct (lo <=? n)%nat; [apply Hk|reflexivity]. }
  destruct gr; cbv zeta; rewrite Hmore, Hstop; clear Hmore Hstop.
  - destruct (if below n hi then _ else None); reflexivity.
  - destruct (if (lo <=? n)%nat then k s c else None); reflexivity.
Qed.

Lemma mt_folds r r' : folds f r r' ->
  forall (A B : Type) (g : A -> B) s c
         (k : cursor -> caps -> option A) (k' : cursor -> caps -> option B),
    (forall s1 c1, k' (fc s1) c1 = option_map g (k s1 c1)) ->
    mt r' (fc s) c k' = option_map g (mt r s c k).
Proof.
  induction 1 as [p p' Hp| |a a' b b' _ IHa _ IHb|a a' b b' _ IHa _ IHb
                 |gr lo hi a a' _ IHa|i a a' _ IHa| | |];
    intros A B g s c k k' Hk; cbn [mt].
  - cbn [mapCursor ahead at_]. destruct (ahead s) as [|ch tl]; [reflexivity|].
    cbn [map]. rewrite <- Hp. destruct (p ch); [|reflexivity].
    apply (Hk (Cursor (S (at_ s)) (Some ch) tl)).
  - apply Hk.
  - apply IHa. intros s1 c1. now apply IHb.
  - rewrite (IHa A B g s c k k' Hk). destruct (mt a s c k); [reflexivity|].
    now apply IHb.
  - cbn [mapCursor ahead]. rewrite length_map.
    apply (repLoop_folds g (mt a) (mt a')); [|assumption].
    intros s0 c0 k1 k1' H1. now apply IHa.
  - apply IHa. intros s1 c1. apply Hk.
  - cbn [mapCursor before ahead]. rewrite wordy_map.
    replace (wordy (head (map f (ahead s)))) with (wordy (head (ahead s)))
      by (destruct (ahead s); cbn; [reflexivity|now rewrite f_word]).
    destruct (xorb _ _); [apply Hk|reflexivity].
  - cbn [mapCursor at_]. destruct (at_ s =? 0)%nat; [apply Hk|reflexivity].
  - cbn [mapCursor ahead]. destruct (ahead s); [apply Hk|reflexivity].
Qed.

Lemma matchAt_folds r r' s : folds f r r' ->
  matchAt r' (fc s) = option_map (fun x => (fc (fst x), snd x)) (matchAt r s).
Proof.
  intros H. unfold matchAt. apply (mt_folds r r' H). reflexivity.
Qed.

Lemma searchFrom_folds r r' : folds f r r' -> forall fuel s,
  searchFrom fuel r' (fc s) =
  option_map (fun x => (fc (fst (fst x)), fc (snd (fst x)), snd x)) (searchFrom fuel r s).
Proof.
  intros H. induction fuel as [|fuel IH]; intros s; cbn [searchFrom];
    rewrite (matchAt_folds r r' s H); destruct (matchAt r s) as [[e c]|];
    try reflexivity.
  unfold step. cbn [mapCursor ahead at_].
  destruct (ahead s) as [|ch tl]; [reflexivity|].
  cbn [map]. apply (IH (Cursor (S (at_ s)) (Some ch) tl)).
Qed.

Lemma test_folds r r' s : folds f r r' -> test r' (map f s) = test r s.
Proof.
  intros H. unfold test, search.
  change (start (map f s)) with (fc (start s)).
  cbn [mapCursor ahead]. rewrite length_map.
  change (Cursor (at_ (start s)) (option_map f (before (start s))) (map f (ahead (start s))))
    with (fc (start s)).
  rewrite (searchFrom_folds r r' H).
  destruct (searchFrom _ r _); reflexivity.
Qed.

Lemma folds_seqs l l' : Forall2 (folds f) l l' -> folds f (seqs l) (seqs l').
Proof.
  induction 1 as [|r r' t t' Hr Ht IH]; [constructor|].
  destruct Ht as [|r2 r2' t2 t2' H2 Ht2]; [exact Hr|].
  change (folds f (Seq r (seqs (r2 :: t2))) (Seq r' (seqs (r2' :: t2')))).
  now constructor.
Qed.

Lemma folds_alts l l' : Forall2 (folds f) l l' -> folds f (alts l) (alts l').
Proof.
  induction 1 as [|r r' t t' Hr Ht IH]; [constructor; reflexivity|].
  destruct Ht as [|r2 r2' t2 t2' H2 Ht2]; [exact Hr|].
  change (folds f (Alt r (alts (r2 :: t2))) (Alt r' (alts (r2' :: t2')))).
  now constructor.
Qed.
End Folding.

(** * Case folding *)

Ltac bool_to_prop_all :=
  repeat match goal with
         | H : _ && _ = true |- _ => apply andb_true_iff in H; destruct H
         | H : _ && _ = false |- _ => apply andb_false_iff in H; destruct H
         | H : _ || _ = true |- _ => apply orb_true_iff in H; destruct H
         | H : _ || _ = false |- _ => apply orb_false_iff in H; destruct H
         | H : (_ <=? _) = true |- _ => apply N.leb_le in H
         | H : (_ <=? _) = false |- _ => apply N.leb_gt in H
         | H : (_ =? _) = true |- _ => apply N.eqb_eq in H
         | H : (_ =? _) = false |- _ => apply N.eqb_neq in H
         end.

Lemma upper_lower_range c : isUpperAZ c = true -> isLowerAZ (c + 32) = true.
Proof.
  unfold isUpperAZ, isLowerAZ. intros H. bool_to_prop_all.
  apply andb_true_iff. split; apply N.leb_le; lia.
Qed.

Lemma isWordChar_lower c : isWordChar (lowerChar c) = isWordChar c.
Proof.
  unfold lowerChar. destruct (isUpperAZ c) eqn:E; [|reflexivity].
  unfold isWordChar. now rewrite E, (upper_lower_range c E), orb_true_r.
Qed.

Lemma isSpace_lower c : isSpace (lowerChar c) = isSpace c.
Proof.
  unfold lowerChar. destruct (isUpperAZ c) eqn:E; [|reflexivity].
  unfold isUpperAZ in E.
  destruct (isSpace (c + 32)) eqn:E1, (isSpace c) eqn:E2; try reflexivity;
    unfold isSpace in *; bool_to_prop_all; lia.
Qed.

Lemma letter_folds c :
  isLowerAZ c = true -> forall x, (upperChar x =? upperChar c) = (c =? lowerChar x).
Proof.
  intros Hc x. unfold upperChar, lowerChar. rewrite Hc.
  unfold isLowerAZ, isUpperAZ in *.
  destruct ((97 <=? x) && (x <=? 122)) eqn:E1, ((65 <=? x) && (x <=? 90)) eqn:E2;
    match goal with
    | |- (?a =? ?b) = (?c =? ?d) =>
        destruct (N.eqb_spec a b), (N.eqb_spec c d); try reflexivity
    end; bool_to_prop_all; lia.
Qed.

Lemma folds_one c : isLowerAZ c = true -> folds lowerChar (oneI c) (one c).
Proof. intros H. constructor. now apply letter_folds. Qed.

Lemma folds_strI s :
  forallb isLowerAZ (lit s) = true -> folds lowerChar (strI s) (str s).
Proof.
  intros H. unfold strI, str. apply folds_seqs.
  induction (lit s) as [|c t IH]; [constructor|].
  cbn [forallb] in H. apply andb_true_iff in H as [Hc Ht].
  constructor; [now apply folds_one|now apply IH].
Qed.

Lemma folds_space : folds lowerChar (plus space) (plus space).
Proof. constructor. constructor. intros c. symmetry. apply isSpace_lower. Qed.

Lemma reRankedProf_folds : folds lowerChar reRankedProfI reRankedProf.
Proof.
  unfold reRankedProfI, reRankedProf.
  assert (Hs : forall l, forallb (fun s => forallb isLowerAZ (lit s)) l = true ->
                 folds lowerChar (alts (map strI l)) (alts (map str l))).
  { intros l Hl. apply folds_alts. induction l as [|s t IH]; [constructor|].
    cbn [forallb] in Hl. apply andb_true_iff in Hl as [H1 H2].
    constructor; [now apply folds_strI|now apply IH]. }
  apply folds_seqs.
  constructor; [apply (Hs ["best"; "top"; "easiest"]); reflexivity|].
  constructor; [apply folds_space|].
  constructor; [apply (Hs ["prof"; "professor"]); reflexivity|].
  constructor.
Qed.

(** The case-insensitive test of the web fallback on the query is the
    test of the intent classifier on the lower-cased query. *)
Lemma rankedProf_tests query :
  test reRankedProf (toLowerCase query) = test reRankedProfI query.
Proof. apply test_folds; [apply isWordChar_lower|apply reRankedProf_folds]. Qed.

(** * The handoff *)

Lemma lookup_In {A} (l : list A) i x : l !! i = Some x -> In x l.
Proof.
  revert i. induction l as [|y t IH]; intros [|i] H; try discriminate.
  - injection H as ->. now left.
  - right. now apply (IH i).
Qed.

Lemma distinctNamesb_sound l : distinctNamesb l = true -> distinctNames l.
Proof.
  induction l as [|h t IH]; intros H i j a b Ha Hb Hne Heq.
  - destruct i; discriminate.
  - cbn [distinctNamesb] in H.
    apply andb_true_iff in H as [H H3]. apply andb_true_iff in H as [H1 H2].
    rewrite forallb_forall in H1, H2.
    destruct i as [|i], j as [|j]; [reflexivity| | |].
    + exfalso. injection Ha as <-. change (t !! j = Some b) in Hb.
      apply lookup_In in Hb.
      specialize (H1 b Hb). rewrite Hne in H1. cbn in H1.
      apply negb_true_iff, eqs_false in H1. contradiction.
    + exfalso. injection Hb as <-. change (t !! i = Some a) in Ha.
      apply lookup_In in Ha.
      specialize (H2 a Ha). rewrite Hne in H2. cbn in H2.
      apply negb_true_iff, eqs_false in H2. congruence.
    + f_equal. now apply (IH H3 i j a b).
Qed.

Lemma findIndex_first name l i r :
  l !! i = Some r -> toLowerCase (k_name r) = toLowerCase name ->
  exists j r', findIndex name l = Some j /\ (j <= i)%nat /\ l !! j = Some r' /\
               toLowerCase (k_name r') = toLowerCase name.
Proof.
  revert i. induction l as [|h t IH]; intros i Hl He; [destruct i; discriminate|].
  cbn [findIndex]. destruct (eqs (toLowerCase (k_name h)) (toLowerCase name)) eqn:E.
  - exists O, h. apply eqs_true in E. repeat split; [lia|assumption].
  - destruct i as [|i].
    + injection Hl as <-. apply eqs_false in E. contradiction.
    + destruct (IH i Hl He) as (j & r' & Hf & Hj & Hr & Hn).
      exists (S j), r'. rewrite Hf. repeat split; [lia|assumption|assumption].
Qed.

Lemma findIndex_distinct l i r :
  distinctNames l -> l !! i = Some r -> nonEmpty (k_name r) = true ->
  findIndex (k_name r) l = Some i.
Proof.
  intros Hd Hl Hne.
  destruct (findIndex_first (k_name r) l i r Hl eq_refl) as (j & r' & Hf & Hj & Hr & Hn).
  rewrite Hf. f_equal. symmetry. now apply (Hd i j r r').
Qed.

Section HandoffFacts.
Variable showFloat : float -> jsstring.
Variable embed : jsstring -> option (list float).
Variable cseConfigured : bool.
Variable fetchCSE : jsstring -> nat -> fetch_result.
Variable SCHOOL_DB : school_db.
Variable EMB_INDEX : list index_item.

Local Abbreviation search :=
  (searchLocalKB showFloat embed cseConfigured fetchCSE SCHOOL_DB EMB_INDEX).
Local Abbreviation step :=
  (chatStep showFloat embed cseConfigured fetchCSE SCHOOL_DB EMB_INDEX).
Local Abbreviation ranked course := (sortedForHandoff (rankingsOf SCHOOL_DB course)).

Lemma class_full_not_ranked SESSION q :
  detectIntent SCHOOL_DB SESSION q = class_full -> test reRankedProfI q = false.
Proof.
  unfold detectIntent. rewrite <- rankedProf_tests.
  destruct (isMajorReqQuery (toLowerCase q)); [discriminate|].
  destruct (test reRankedProf (toLowerCase q)); [discriminate|reflexivity].
Qed.

Lemma laterStages_ok q :
  test reRankedProfI q = false ->
  exists hits,
    laterStages showFloat embed cseConfigured fetchCSE SCHOOL_DB EMB_INDEX q = Ok hits.
Proof.
  intros H. unfold laterStages. rewrite H, andb_false_r.
  destruct (semanticStage _ _ _); [eauto|].
  destruct (hardFilter _ _ _); [eauto|].
  destruct (majorHits _ _); eauto.
Qed.

Lemma search_ok SESSION q :
  test reRankedProfI q = false -> exists hits, snd (search SESSION q) = Ok hits.
Proof.
  intros H. destruct (laterStages_ok q H) as [hs Hl].
  unfold searchLocalKB. rewrite Hl.
  destruct (exactMatches _ _); [|cbn; eauto].
  destruct (match mentioned _ _ with [] => _ | _ => _ end); [|cbn; eauto].
  destruct (parseRankIntent q) as [tags asked].
  destruct (courseCodesInQuery _ _); [cbn; eauto|].
  destruct asked; [|cbn; eauto].
  destruct (chosenRanked _ _ _); cbn; eauto.
Qed.

(** A turn of intent [class_full] with a remembered course whose list is
    not empty is answered by the handoff. *)
Lemma chatStep_handoff SESSION q course :
  let s1 := fst (search SESSION q) in
  detectIntent SCHOOL_DB s1 q = class_full ->
  lastCourse s1 = Some course -> nonEmpty course = true ->
  ranked course <> [] ->
  exists s' r,
    handoff showFloat SCHOOL_DB s1 course = Some (s', r) /\
    step SESSION q = (s', Respond r).
Proof.
  intros s1 Hi Hc Hne Hl. subst s1.
  destruct (search_ok SESSION q (class_full_not_ranked _ _ Hi)) as [hits Hs].
  unfold chatStep. destruct (search SESSION q) as [s1 found]. cbn [fst snd] in *.
  subst found. rewrite Hi, Hc, Hne.
  unfold handoff. destruct (ranked course) as [|e l] eqn:El; [congruence|].
  destruct (_ !! _); eexists _, _; split; reflexivity.
Qed.

Lemma handoff_serves SESSION course :
  ranked course <> [] ->
  exists s',
    handoff showFloat SCHOOL_DB SESSION course
      = Some (s', serveAt showFloat SCHOOL_DB course (nextIndex SESSION course (ranked course))) /\
    match ranked course !! nextIndex SESSION course (ranked course) with
    | Some nextBest =>
        s' = {| lastCourse := lastCourse SESSION;
                lastProfessor := Some (k_name nextBest);
                rankCursor := <[course := nextIndex SESSION course (ranked course)]>
                                (rankCursor SESSION) |}
    | None => s' = SESSION
    end.
Proof.
  intros Hl. unfold handoff, serveAt.
  destruct (ranked course) as [|e l] eqn:El; [congruence|].
  destruct (_ !! _); eexists; split; reflexivity.
Qed.

Lemma nextIndex_after SESSION course i nextBest :
  distinctNames (ranked course) ->
  ranked course !! i = Some nextBest ->
  nextIndex {| lastCourse := lastCourse SESSION;
               lastProfessor := Some (k_name nextBest);
               rankCursor := <[course := i]> (rankCursor SESSION) |}
            course (ranked course) = S i.
Proof.
  intros Hd Hl. unfold nextIndex. cbn [lastProfessor rankCursor].
  rewrite lookup_insert_eq. cbn [default].
  destruct (nonEmpty (k_name nextBest)) eqn:E; [|reflexivity].
  now rewrite (findIndex_distinct _ _ _ Hd Hl E).
Qed.

Lemma handoffs_serve course : ranked course <> [] -> distinctNames (ranked course) ->
  forall n SESSION j,
    (nextIndex SESSION course (ranked course) = j \/
     (length (ranked course) <= nextIndex SESSION course (ranked course) /\
      length (ranked course) <= j))%nat ->
    fst (handoffs showFloat SCHOOL_DB n SESSION course)
    = map (fun k => serveAt showFloat SCHOOL_DB course (j + k)) (seq 0 n).
Proof.
  intros Hl Hd. induction n as [|n IH]; intros SESSION j Hj; [reflexivity|].
  cbn [handoffs].
  destruct (handoff_serves SESSION course Hl) as (s' & Hh & Hs'). rewrite Hh.
  destruct (handoffs showFloat SCHOOL_DB n s' course) as [rs s''] eqn:Er.
  cbn [fst seq map]. rewrite Nat.add_0_r. f_equal.
  - destruct Hj as [->|[H1 H2]]; [reflexivity|].
    unfold serveAt. now rewrite !lookup_ge_None_2 by assumption.
  - change rs with (fst (rs, s'')). rewrite <- Er, <- seq_shift, map_map.
    rewrite (IH s' (S j)).
    + apply map_ext. intros k. f_equal. lia.
    + destruct (ranked course !! nextIndex SESSION course (ranked course)) as [nb|] eqn:E.
      * subst s'. rewrite (nextIndex_after _ _ _ _ Hd E).
        destruct Hj as [->|[H1 H2]]; [now left|].
        apply lookup_lt_Some in E. lia.
      * subst s'. right. apply lookup_ge_None_1 in E.
        destruct Hj as [<-|[H1 H2]]; lia.
Qed.

(** A turn of intent [class_full] with a remembered course that has no
    ranking list goes on to the completion call, with the messages of the
    filtered search hits. *)
Lemma chatStep_no_list SESSION q course :
  let s1 := fst (search SESSION q) in
  detectIntent SCHOOL_DB s1 q = class_full ->
  lastCourse s1 = Some course -> nonEmpty course = true ->
  rankingsOf SCHOOL_DB course = [] ->
  exists hits,
    snd (search SESSION q) = Ok hits /\
    step SESSION q
    = (s1, Complete (messages showFloat class_full (filterHits class_full hits) q)).
Proof.
  intros s1 Hi Hc Hne Hl. subst s1.
  destruct (search_ok SESSION q (class_full_not_ranked _ _ Hi)) as [hits Hs].
  exists hits. split; [exact Hs|].
  unfold chatStep. destruct (search SESSION q) as [s1 found]. cbn [fst snd] in *.
  subst found. rewrite Hi, Hc, Hne.
  assert (Hn : handoff showFloat SCHOOL_DB s1 course = None).
  { unfold handoff. now rewrite Hl. }
  rewrite Hn, (inject_after_handoff showFloat SCHOOL_DB s1 course _ Hn). reflexivity.
Qed.

Lemma detectIntent_lastCourse s s' q :
  lastCourse s = lastCourse s' ->
  detectIntent SCHOOL_DB s q = detectIntent SCHOOL_DB s' q.
Proof. intros H. unfold detectIntent. now rewrite H. Qed.

Lemma search_quiet SESSION q :
  quiet SCHOOL_DB q = true -> fst (search SESSION q) = SESSION.
Proof.
  unfold quiet. intros H.
  destruct (mentioned SCHOOL_DB q) eqn:Em; [|discriminate].
  destruct (profMatches SCHOOL_DB q) eqn:Ep; [|discriminate].
  rewrite (search_unmentioned showFloat embed cseConfigured fetchCSE SCHOOL_DB EMB_INDEX
             SESSION q Em Ep).
  destruct (parseRankIntent q) as [tags asked]. cbn [snd] in H.
  destruct (courseCodesInQuery SCHOOL_DB q); [reflexivity|].
  destruct asked; [discriminate|reflexivity].
Qed.

Lemma handoff_lastCourse SESSION course s' r :
  handoff showFloat SCHOOL_DB SESSION course = Some (s', r) ->
  lastCourse s' = lastCourse SESSION.
Proof.
  unfold handoff. destruct (ranked course); [discriminate|].
  destruct (_ !! _); intros [= <- _]; reflexivity.
Qed.

(** Quiet turns of intent [class_full] are handoff calls in a row. *)
Lemma chats_handoffs complete course :
  nonEmpty course = true -> ranked course <> [] ->
  forall ms SESSION,
    lastCourse SESSION = Some course ->
    Forall (fun m => quiet SCHOOL_DB m = true /\
                     detectIntent SCHOOL_DB SESSION m = class_full) ms ->
    chats showFloat embed cseConfigured fetchCSE SCHOOL_DB EMB_INDEX complete SESSION ms
    = handoffs showFloat SCHOOL_DB (length ms) SESSION course.
Proof.
  intros Hne Hl. induction ms as [|m ms IH]; intros SESSION Hc Hq; [reflexivity|].
  inversion Hq as [|? ? [Hm Hi] Hrest]; subst.
  pose proof (search_quiet SESSION m Hm) as Hs.
  destruct (chatStep_handoff SESSION m course) as (s' & r & Hh & Hstep);
    try (rewrite Hs; assumption); try assumption.
  rewrite Hs in Hh.
  cbn [chats handoffs length]. unfold chat. rewrite Hstep, Hh.
  pose proof (handoff_lastCourse _ _ _ _ Hh) as Hlc.
  rewrite (IH s').
  - reflexivity.
  - now rewrite Hlc.
  - eapply List.Forall_impl; [|exact Hrest]. intros a [Ha1 Ha2]. split; [assumption|].
    rewrite <- Ha2. apply detectIntent_lastCourse. exact Hlc.
Qed.

End HandoffFacts.

(** C2 (amended). For an ASCII message and a school file with ASCII names:
    when the detected intent is [class_full] and a course is remembered,
    the handler answers by itself exactly when that course has a ranking
    list that is not empty. It then answers with status 200, whatever the
    completion collaborator would say. With [i] the resume index in the
    list sorted by rank: if the list has an entry at [i], [rankCursor[course]]
    becomes [i], [lastProfessor] the entry's name, and, the name not being
    empty, the reply names that professor; if it has none, the session is
    left as it is and the reply says that every name was given, with the
    date of the first deadline whose category contains "add" (or the generic
    phrase when there is none or its date is empty). When the course has no
    ranking list, the turn reaches the completion call with the messages made
    of the filtered search hits, and the reply is the collaborator's. *)
Theorem handoff_deterministic :
  forall showFloat embed cseConfigured fetchCSE SCHOOL_DB EMB_INDEX
         (SESSION : session) (userMessage course : jsstring),
    let s1 := fst (searchLocalKB showFloat embed cseConfigured fetchCSE SCHOOL_DB
                     EMB_INDEX SESSION userMessage) in
    let list := sortedForHandoff (rankingsOf SCHOOL_DB course) in
    let i := nextIndex s1 course list in
    isAscii userMessage = true ->
    asciiNames SCHOOL_DB = true ->
    smallRanks (rankingsOf SCHOOL_DB course) = true ->
    (forall n, lastProfessor SESSION = Some n -> isAscii n = true) ->
    detectIntent SCHOOL_DB s1 userMessage = class_full ->
    lastCourse s1 = Some course ->
    nonEmpty course = true ->
    (rankingsOf SCHOOL_DB course <> [] ->
     exists (s' : session) (r : response),
       chatStep showFloat embed cseConfigured fetchCSE SCHOOL_DB EMB_INDEX
         SESSION userMessage = (s', Respond r) /\
       (forall complete,
          chat showFloat embed cseConfigured fetchCSE SCHOOL_DB EMB_INDEX complete
            SESSION userMessage = (s', r)) /\
       status r = 200%nat /\
       Permutation list (rankingsOf SCHOOL_DB course) /\
       StronglySorted
         (fun a b => (match k_rank a with Some z => z | None => 999 end
                      <= match k_rank b with Some z => z | None => 999 end)%Z) list /\
       (1 <= i)%nat /\
       match list !! i with
       | Some nextBest =>
           s' = {| lastCourse := Some course;
                   lastProfessor := Some (k_name nextBest);
                   rankCursor := <[course := i]> (rankCursor s1) |} /\
           (nonEmpty (k_name nextBest) = true ->
            r = okReply (nextBestReply showFloat SCHOOL_DB course nextBest) /\
            exists tail,
              reply r = lit "Next best for " ++ course ++ lit " is **"
                        ++ k_name nextBest ++ lit "** " ++ tail)
       | None =>
           s' = s1 /\
           r = okReply (exhaustedReply SCHOOL_DB course) /\
           (exists head,
              reply r = head ++ lit "and check " ++ addDrop SCHOOL_DB ++ lit ".") /\
           addDrop SCHOOL_DB =
             match List.find (fun d => test reAdd (d_category d)) (deadlines SCHOOL_DB) with
             | Some d => if nonEmpty (d_date d) then d_date d else lit "the add deadline"
             | None => lit "the add deadline"
             end
       end) /\
    (rankingsOf SCHOOL_DB course = [] ->
     exists hits,
       snd (searchLocalKB showFloat embed cseConfigured fetchCSE SCHOOL_DB EMB_INDEX
              SESSION userMessage) = Ok hits /\
       let ms := messages showFloat class_full (filterHits class_full hits) userMessage in
       chatStep showFloat embed cseConfigured fetchCSE SCHOOL_DB EMB_INDEX
         SESSION userMessage = (s1, Complete ms) /\
       forall complete,
         chat showFloat embed cseConfigured fetchCSE SCHOOL_DB EMB_INDEX complete
           SESSION userMessage
         = (s1, match complete ms with
                | CompletionThrows => serverError
                | CompletionError message =>
                    okReply (lit "Oops! API error: " ++ message)
                | CompletionText content => okReply content
                end)).
Proof.
  intros showFloat embed cseConfigured fetchCSE SCHOOL_DB EMB_INDEX SESSION userMessage
         course s1 list i _ _ _ _ Hi Hc Hne.
  split.
  - intros Hr.
    assert (Hl : list <> []).
    { intros H. apply Hr. unfold list, sortedForHandoff in H. now apply sortBy_nil in H. }
    destruct (chatStep_handoff showFloat embed cseConfigured fetchCSE SCHOOL_DB EMB_INDEX
                SESSION userMessage course Hi Hc Hne Hl) as (s' & r & Hh & Hs).
    exists s', r. split; [exact Hs|]. split.
    { intros complete. unfold chat. now rewrite Hs. }
    destruct (handoff_serves showFloat SCHOOL_DB s1 course Hl) as (s2 & Hh2 & Hm).
    fold s1 in Hh. rewrite Hh in Hh2. injection Hh2 as <- ->.
    fold list i in Hm |- *. unfold serveAt. fold list.
    split; [destruct (list !! i); reflexivity|].
    split; [apply sortBy_perm|].
    split; [apply sortedForHandoff_sorted|].
    split.
    { unfold i, nextIndex. destruct (lastProfessor s1) as [n|]; [|lia].
      destruct (nonEmpty n); [|lia]. destruct (findIndex n list); lia. }
    destruct (list !! i) as [nextBest|].
    + rewrite Hc in Hm. split; [exact Hm|]. intros _. split; [reflexivity|].
      eexists. unfold okReply, nextBestReply. cbn [reply]. reflexivity.
    + repeat split; [exact Hm| |].
      * exists ((lit "I" ++ [8217] ++ lit "ve listed everyone I have for ") ++ course
                ++ lit ". At this point: "
                ++ lit "join the waitlist (if offered), email the instructor for an add code, ").
        unfold okReply, exhaustedReply. cbn [reply].
        rewrite <- !app_assoc. reflexivity.
      * unfold addDrop, orStr. destruct (List.find _ _) as [d|]; reflexivity.
  - intros Hr.
    destruct (chatStep_no_list showFloat embed cseConfigured fetchCSE SCHOOL_DB EMB_INDEX
                SESSION userMessage course Hi Hc Hne Hr) as (hits & Hs & Hstep).
    exists hits. split; [exact Hs|]. cbv zeta. split; [exact Hstep|].
    intros complete. unfold chat. rewrite Hstep.
    destruct (complete _); reflexivity.
Qed.

(** C3 (amended). For a school file with ASCII names and ASCII messages:
    take a course whose rank-sorted list is not empty and whose names are
    not empty and pairwise different, ignoring case. Chat turns in a row
    that are classified [class_full], mention no professor and start no
    ranking lookup (no rank word such as "top" next to a course code), in a
    session that remembers the course, serve the indices [i0], [i0 + 1], ...
    one after the other, where [i0 >= 1] is the resume index of the first
    turn: the turn number [k] names the entry at [i0 + k], and gives the
    exhaustion reply once [i0 + k] is past the end of the list. No name is
    served twice. *)
Theorem handoff_monotone :
  forall showFloat embed cseConfigured fetchCSE SCHOOL_DB EMB_INDEX complete
         (SESSION : session) (course : jsstring) (ms : list jsstring),
    let list := sortedForHandoff (rankingsOf SCHOOL_DB course) in
    let i0 := nextIndex SESSION course list in
    let replies :=
      fst (chats showFloat embed cseConfigured fetchCSE SCHOOL_DB EMB_INDEX complete
             SESSION ms) in
    asciiNames SCHOOL_DB = true ->
    smallRanks (rankingsOf SCHOOL_DB course) = true ->
    forallb isAscii ms = true ->
    (forall n, lastProfessor SESSION = Some n -> isAscii n = true) ->
    lastCourse SESSION = Some course ->
    nonEmpty course = true ->
    list <> [] ->
    distinctNamesb list = true ->
    forallb (fun r => nonEmpty (k_name r)) list = true ->
    Forall (fun m => quiet SCHOOL_DB m = true /\
                     detectIntent SCHOOL_DB SESSION m = class_full) ms ->
    length replies = length ms /\
    Permutation list (rankingsOf SCHOOL_DB course) /\
    StronglySorted
      (fun a b => (match k_rank a with Some z => z | None => 999 end
                   <= match k_rank b with Some z => z | None => 999 end)%Z) list /\
    (1 <= i0)%nat /\
    (forall k r, replies !! k = Some r ->
       match list !! (i0 + k)%nat with
       | Some nextBest =>
           r = okReply (nextBestReply showFloat SCHOOL_DB course nextBest) /\
           exists tail,
             reply r = lit "Next best for " ++ course ++ lit " is **"
                       ++ k_name nextBest ++ lit "** " ++ tail
       | None => r = okReply (exhaustedReply SCHOOL_DB course)
       end) /\
    (forall k1 k2 a b,
       k1 <> k2 ->
       list !! (i0 + k1)%nat = Some a -> list !! (i0 + k2)%nat = Some b ->
       k_name a <> k_name b /\
       toLowerCase (k_name a) <> toLowerCase (k_name b)) /\
    (forall k k', (k <= k')%nat -> list !! (i0 + k)%nat = None ->
       list !! (i0 + k')%nat = None).
Proof.
  intros showFloat embed cseConfigured fetchCSE SCHOOL_DB EMB_INDEX complete SESSION
         course ms list i0 replies _ _ _ _ Hc Hne Hl Hd Hnames Hq.
  apply distinctNamesb_sound in Hd.
  assert (Hr : replies
               = map (fun k => serveAt showFloat SCHOOL_DB course (i0 + k))
                     (seq 0 (length ms))).
  { unfold replies.
    rewrite (chats_handoffs showFloat embed cseConfigured fetchCSE SCHOOL_DB EMB_INDEX
               complete course Hne Hl ms SESSION Hc Hq).
    apply handoffs_serve; [assumption|assumption|now left]. }
  split; [rewrite Hr, length_map, length_seq; reflexivity|].
  split; [apply sortBy_perm|].
  split; [apply sortedForHandoff_sorted|].
  split.
  { unfold i0, nextIndex. destruct (lastProfessor SESSION) as [n|]; [|lia].
    destruct (nonEmpty n); [|lia]. destruct (findIndex n list); lia. }
  split.
  { intros k r Hk. rewrite Hr in Hk.
    change (map (fun k => serveAt showFloat SCHOOL_DB course (i0 + k))
                (seq 0 (length ms)) !! k = Some r) in Hk.
    apply list_lookup_fmap_Some_1 in Hk as (j & -> & Hj).
    apply lookup_seq in Hj as [-> _]. cbn [Nat.add].
    unfold serveAt. fold list. destruct (list !! (i0 + k)%nat) as [nb|]; [|reflexivity].
    split; [reflexivity|]. eexists. unfold okReply, nextBestReply. cbn [reply].
    reflexivity. }
  split.
  { intros k1 k2 a b Hk Ha Hb.
    assert (Hna : nonEmpty (k_name a) = true).
    { rewrite forallb_forall in Hnames. apply Hnames. eapply lookup_In; eauto. }
    assert (Hlow : toLowerCase (k_name a) <> toLowerCase (k_name b)).
    { intros Heq. pose proof (Hd _ _ _ _ Ha Hb Hna Heq). lia. }
    split; [|exact Hlow]. intros E. apply Hlow. now rewrite E. }
  intros k k' Hk Hn. apply lookup_ge_None_2. apply lookup_ge_None_1 in Hn. lia.
Qed.

(** The MATH 1A scenario of C2: after the ranking query, the turn "the
    class is full" names Prof Y and moves the cursor to 1; the next
    [class_full] turn gives the exhaustion reply, with status 200. *)
Lemma handoff_deterministic_witness :
  exists (s2 s3 : session) (r2 r3 : response),
    chat showNothing noEmbedding false fetchFails mathDb [] cannedCompletion
      afterMathQuery (lit "the class is full") = (s2, r2) /\
    r2 = okReply (nextBestReply showNothing mathDb (lit "MATH 1A") (rankedPlain "Prof Y" 2)) /\
    rankCursor s2 !! lit "MATH 1A" = Some 1%nat /\
    lastProfessor s2 = Some (lit "Prof Y") /\
    chat showNothing noEmbedding false fetchFails mathDb [] cannedCompletion
      s2 (lit "it is still full") = (s3, r3) /\
    r3 = okReply (exhaustedReply mathDb (lit "MATH 1A")) /\
    status r3 = 200%nat /\ s3 = s2.
Proof.
  assert (A : asciiNames mathDb = true) by (vm_compute; reflexivity).
  assert (N : rankingsOf mathDb (lit "MATH 1A") <> []) by (vm_compute; discriminate).
  destruct (handoff_deterministic showNothing noEmbedding false fetchFails mathDb []
              afterMathQuery (lit "the class is full") (lit "MATH 1A"))
    as [H2 _];
    [vm_compute; reflexivity|exact A|vm_compute; reflexivity
    |intros n H; vm_compute in H; injection H as <-; vm_compute; reflexivity
    |vm_compute; reflexivity|vm_compute; reflexivity|reflexivity|].
  destruct (H2 N) as (s2 & r2 & _ & Hchat2 & _ & _ & _ & _ & Hm2). clear H2.
  cbv zeta in Hm2.
  assert (E2 : sortedForHandoff (rankingsOf mathDb (lit "MATH 1A"))
               !! nextIndex
                    (fst (searchLocalKB showNothing noEmbedding false fetchFails mathDb []
                            afterMathQuery (lit "the class is full")))
                    (lit "MATH 1A") (sortedForHandoff (rankingsOf mathDb (lit "MATH 1A")))
               = Some (rankedPlain "Prof Y" 2)) by (vm_compute; reflexivity).
  rewrite E2 in Hm2. destruct Hm2 as (Hs2 & Hr2).
  destruct (Hr2 eq_refl) as [Hr2' _]. clear Hr2.
  destruct (handoff_deterministic showNothing noEmbedding false fetchFails mathDb []
              s2 (lit "it is still full") (lit "MATH 1A"))
    as [H3 _];
    [vm_compute; reflexivity|exact A|vm_compute; reflexivity
    |intros n H; subst s2; vm_compute in H; injection H as <-; vm_compute; reflexivity
    |subst s2; vm_compute; reflexivity|subst s2; vm_compute; reflexivity|reflexivity|].
  destruct (H3 N) as (s3 & r3 & _ & Hchat3 & _ & _ & _ & _ & Hm3). clear H3.
  cbv zeta in Hm3.
  assert (E3 : sortedForHandoff (rankingsOf mathDb (lit "MATH 1A"))
               !! nextIndex
                    (fst (searchLocalKB showNothing noEmbedding false fetchFails mathDb []
                            s2 (lit "it is still full")))
                    (lit "MATH 1A") (sortedForHandoff (rankingsOf mathDb (lit "MATH 1A")))
               = None) by (subst s2; vm_compute; reflexivity).
  rewrite E3 in Hm3. destruct Hm3 as (Hs3 & Hr3 & _).
  exists s2, s3, r2, r3.
  split; [apply Hchat2|]. split; [exact Hr2'|].
  split; [subst s2; vm_compute; reflexivity|]. split; [subst s2; reflexivity|].
  split; [apply Hchat3|]. split; [exact Hr3|]. split; [subst r3; reflexivity|].
  rewrite Hs3. subst s2. vm_compute. reflexivity.
Defined.

(** Counterexample to C2 as stated: "best professor for CIS 22A" makes
    CIS 22A the remembered course although it has no ranking list; the next
    turn, "the class is full", has intent [class_full] and a remembered
    course, and goes to the completion collaborator. *)
Lemma handoff_counterexample :
  lastCourse afterCisQuery = Some (lit "CIS 22A") /\
  rankingsOf cisDb (lit "CIS 22A") = [] /\
  fst (searchLocalKB showNothing noEmbedding false fetchFails cisDb []
         afterCisQuery (lit "the class is full")) = afterCisQuery /\
  detectIntent cisDb afterCisQuery (lit "the class is full") = class_full /\
  (exists ms,
     chatStep showNothing noEmbedding false fetchFails cisDb []
       afterCisQuery (lit "the class is full") = (afterCisQuery, Complete ms)) /\
  chat showNothing noEmbedding false fetchFails cisDb [] cannedCompletion
    afterCisQuery (lit "the class is full")
  = (afterCisQuery, okReply (lit "free text")).
Proof.
  split; [vm_compute; reflexivity|]. split; [vm_compute; reflexivity|].
  split; [vm_compute; reflexivity|]. split; [vm_compute; reflexivity|].
  split; [eexists; vm_compute; reflexivity|vm_compute; reflexivity].
Qed.

(** The MATH 1A scenario of C3: after the ranking query, three turns in a
    row that say the class is full name Prof Y and then give the exhaustion
    reply twice: the resume index is 1, and the turns serve the indices 1, 2
    and 3 of a list of two. *)
Lemma handoff_monotone_witness :
  let list := sortedForHandoff (rankingsOf mathDb (lit "MATH 1A")) in
  let replies :=
    fst (chats showNothing noEmbedding false fetchFails mathDb [] cannedCompletion
           afterMathQuery
           [lit "the class is full"; lit "it is still full"; lit "still on the waitlist"]) in
  length replies = 3%nat /\
  (forall k r, replies !! k = Some r ->
     match list !! (nextIndex afterMathQuery (lit "MATH 1A") list + k)%nat with
     | Some nextBest =>
         r = okReply (nextBestReply showNothing mathDb (lit "MATH 1A") nextBest) /\
         exists tail,
           reply r = lit "Next best for " ++ lit "MATH 1A" ++ lit " is **"
                     ++ k_name nextBest ++ lit "** " ++ tail
     | None => r = okReply (exhaustedReply mathDb (lit "MATH 1A"))
     end) /\
  nextIndex afterMathQuery (lit "MATH 1A") list = 1%nat /\
  map k_name list = [lit "Prof X"; lit "Prof Y"].
Proof.
  destruct (handoff_monotone showNothing noEmbedding false fetchFails mathDb []
              cannedCompletion afterMathQuery (lit "MATH 1A")
              [lit "the class is full"; lit "it is still full";
               lit "still on the waitlist"])
    as (Hlen & _ & _ & _ & Hserve & _);
    [vm_compute; reflexivity|vm_compute; reflexivity|vm_compute; reflexivity
    |intros n H; vm_compute in H; injection H as <-; vm_compute; reflexivity
    |vm_compute; reflexivity|reflexivity|vm_compute; discriminate
    |vm_compute; reflexivity|vm_compute; reflexivity
    |repeat constructor; vm_compute; reflexivity|].
  split; [exact Hlen|]. split; [exact Hserve|].
  split; vm_compute; reflexivity.
Defined.

(** Counterexamples to C3 as stated. (1) The list names Prof A at ranks 1
    and 3. After Prof A was suggested, three handoffs in a row serve index 1
    (Prof B), index 2 (Prof A) and index 1 (Prof B) again; Prof C, at index 3
    of a list of four, is not reached. (2) With three different names, the
    turn "the top one for MATH 1A is full" is classified [class_full] and
    mentions no professor, but its rank word and course code make the search
    run the ranking lookup again, which sets the last suggestion back to
    Prof X: every such turn names Prof Y, and Prof Z is never reached. *)
Lemma handoff_repeats :
  (lastProfessor afterProfA = Some (lit "Prof A") /\
   length (sortedForHandoff (rankingsOf repeatedDb (lit "MATH 1A"))) = 4%nat /\
   exists s1 s2 s3 r1 r2 r3,
     handoff showNothing repeatedDb afterProfA (lit "MATH 1A") = Some (s1, r1) /\
     handoff showNothing repeatedDb s1 (lit "MATH 1A") = Some (s2, r2) /\
     handoff showNothing repeatedDb s2 (lit "MATH 1A") = Some (s3, r3) /\
     (rankCursor s1 !! lit "MATH 1A", lastProfessor s1) = (Some 1%nat, Some (lit "Prof B")) /\
     (rankCursor s2 !! lit "MATH 1A", lastProfessor s2) = (Some 2%nat, Some (lit "Prof A")) /\
     (rankCursor s3 !! lit "MATH 1A", lastProfessor s3) = (Some 1%nat, Some (lit "Prof B")) /\
     r3 = r1 /\
     fst (handoffs showNothing repeatedDb 3 afterProfA (lit "MATH 1A")) = [r1; r2; r1] /\
     fst (chats showNothing noEmbedding false fetchFails repeatedDb [] cannedCompletion
            afterProfA
            [lit "the class is full"; lit "it is still full"; lit "still on the waitlist"])
     = [r1; r2; r1]) /\
  (distinctNamesb (sortedForHandoff (rankingsOf threeDb (lit "MATH 1A"))) = true /\
   map k_name (sortedForHandoff (rankingsOf threeDb (lit "MATH 1A")))
   = [lit "Prof X"; lit "Prof Y"; lit "Prof Z"] /\
   lastProfessor afterThreeQuery = Some (lit "Prof X") /\
   mentioned threeDb (lit "the top one for MATH 1A is full") = [] /\
   profMatches threeDb (lit "the top one for MATH 1A is full") = [] /\
   (forall s, detectIntent threeDb s (lit "the top one for MATH 1A is full") = class_full) /\
   fst (chats showNothing noEmbedding false fetchFails threeDb [] cannedCompletion
          afterThreeQuery
          [lit "the top one for MATH 1A is full"; lit "the top one for MATH 1A is full";
           lit "the top one for MATH 1A is full"])
   = [okReply (nextBestReply showNothing threeDb (lit "MATH 1A") (rankedPlain "Prof Y" 2));
      okReply (nextBestReply showNothing threeDb (lit "MATH 1A") (rankedPlain "Prof Y" 2));
      okReply (nextBestReply showNothing threeDb (lit "MATH 1A") (rankedPlain "Prof Y" 2))]).
Proof.
  split.
  - split; [vm_compute; reflexivity|]. split; [vm_compute; reflexivity|].
    eexists _, _, _, _, _, _.
    split; [vm_compute; reflexivity|]. split; [vm_compute; reflexivity|].
    split; [vm_compute; reflexivity|].
    repeat split; vm_compute; reflexivity.
  - split; [vm_compute; reflexivity|]. split; [vm_compute; reflexivity|].
    split; [vm_compute; reflexivity|]. split; [vm_compute; reflexivity|].
    split; [vm_compute; reflexivity|]. split; [|vm_compute; reflexivity].
    intros s.
    rewrite (detectIntent_lastCourse threeDb s
               {| lastCourse := lastCourse s; lastProfessor := None; rankCursor := ∅ |}
               _ eq_refl).
    unfold detectIntent.
    assert (E : test reClassFull (toLowerCase (lit "the top one for MATH 1A is full")) = true)
      by (vm_compute; reflexivity).
    assert (E1 : isMajorReqQuery (toLowerCase (lit "the top one for MATH 1A is full")) = false)
      by (vm_compute; reflexivity).
    assert (E2 : test reRankedProf (toLowerCase (lit "the top one for MATH 1A is full")) = false)
      by (vm_compute; reflexivity).
    rewrite E1, E2, E. reflexivity.
Qed.

(** * Semantic search *)

Lemma sorted_app_cross {A} (R : A -> A -> Prop) l1 l2 :
  StronglySorted R (l1 ++ l2) -> forall a b, In a l1 -> In b l2 -> R a b.
Proof.
  induction l1 as [|x t IH]; intros Hs a b Ha Hb; [contradiction|].
  inversion Hs as [|? ? Hs' Hx]; subst. destruct Ha as [<-|Ha].
  - rewrite List.Forall_forall in Hx. apply Hx. apply in_or_app. now right.
  - now apply IH.
Qed.

Lemma perm_filter {A} (f : A -> bool) (l l' : list A) :
  Permutation l l' -> Permutation (List.filter f l) (List.filter f l').
Proof.
  induction 1 as [|x l l' _ IH|x y l|l l' l'' _ IH1 _ IH2]; cbn [List.filter].
  - constructor.
  - destruct (f x); [now constructor|assumption].
  - destruct (f x), (f y); try reflexivity. apply perm_swap.
  - now transitivity (List.filter f l').
Qed.

Lemma filter_map_swap {A B} (g : A -> B) (p : B -> bool) (l : list A) :
  List.filter p (map g l) = map g (List.filter (fun x => p (g x)) l).
Proof.
  induction l as [|x l IH]; [reflexivity|]. cbn [map List.filter].
  destruct (p (g x)); cbn [map]; now rewrite IH.
Qed.

Lemma sorted_map {A B} (R : A -> A -> Prop) (Q : B -> B -> Prop) (g : A -> B) l :
  (forall a b, In a l -> In b l -> R a b -> Q (g a) (g b)) ->
  StronglySorted R l -> StronglySorted Q (map g l).
Proof.
  intros H Hs. induction Hs as [|x l Hs IH Hx]; [constructor|].
  cbn [map]. constructor.
  - apply IH. intros a b Ha Hb. apply H; now right.
  - rewrite List.Forall_forall in *. intros y Hy.
    apply in_map_iff in Hy as (b & <- & Hb).
    apply H; [now left|now right|now apply Hx].
Qed.

Lemma consistentOn_perm {A} (gt : A -> A -> bool) l l' :
  Permutation l l' -> consistentOn gt l -> consistentOn gt l'.
Proof.
  intros Hp [H1 H2]. symmetry in Hp. split.
  - intros a b Ha Hb. apply H1; eapply Permutation_in; eauto.
  - intros a b c Ha Hb Hc. apply H2; eapply Permutation_in; eauto.
Qed.

(** The semantic stage of the model is the stage over the stable insertion
    sort, which returns a permutation, sorted when the comparator is
    consistent. *)
Lemma semanticStage_with embed EMB_INDEX query :
  semanticStage embed EMB_INDEX query
  = semanticStageWith (sortBy simAfter) embed EMB_INDEX query.
Proof. reflexivity. Qed.

(** C5 (amended). The sort of the language returns a permutation of the
    similarities, ordered when the comparator [b.sim - a.sim] is consistent
    on them. Whatever it returns otherwise: when the index is not empty and
    the query is embedded, the semantic stage returns hits exactly when some
    item has a cosine similarity of at least 0.78 to the query embedding. Its
    hits are then those of min(3, number of such items) of these items, each
    with the item's data and the score [Math.round] of 100 times its
    similarity; no item of similarity below 0.78 is among them. When the
    comparator is consistent on the similarities, the hits come in
    descending order of similarity and no item that is left out is more
    similar than a returned one. *)
Theorem semantic_threshold :
  forall (sort : list (index_item * float) -> list (index_item * float))
         (embed : jsstring -> option (list float)) (EMB_INDEX : list index_item)
         (query : jsstring) (queryEmb : list float),
    (forall l, Permutation (sort l) l) ->
    (forall l, consistentOn simAfter l -> StronglySorted (notAfter simAfter) (sort l)) ->
    EMB_INDEX <> [] ->
    embed query = Some queryEmb ->
    let sim := fun it => cosine queryEmb (it_emb it) in
    let near := List.filter (fun it => PrimFloat.leb 0.78%float (sim it)) EMB_INDEX in
    let hitOf := fun it =>
      {| score := SNum (mathRound (PrimFloat.mul 100%float (sim it)));
         data := it_data it |} in
    (semanticStageWith sort embed EMB_INDEX query = None <-> near = []) /\
    (forall hits,
       semanticStageWith sort embed EMB_INDEX query = Some hits ->
       exists chosen rest : list index_item,
         hits = map hitOf chosen /\
         Permutation (chosen ++ rest) near /\
         length chosen = Nat.min 3 (length near) /\
         (0 < length hits <= 3)%nat /\
         (forall it, In it chosen ->
            In it EMB_INDEX /\ PrimFloat.leb 0.78%float (sim it) = true) /\
         (consistentOn simAfter (scored EMB_INDEX queryEmb) ->
            StronglySorted
              (fun a b => PrimFloat.ltb fzero (PrimFloat.sub (sim b) (sim a)) = false)
              chosen /\
            forall it it', In it chosen -> In it' rest ->
              PrimFloat.ltb fzero (PrimFloat.sub (sim it') (sim it)) = false)).
Proof.
  intros sort embed EMB_INDEX query queryEmb Hperm Hsorted Hidx He sim near hitOf.
  set (g := fun it : index_item => (it, sim it)).
  set (p := fun s : index_item * float => PrimFloat.leb MIN_SIM (snd s)).
  set (sims := sort (scored EMB_INDEX queryEmb)).
  set (qual := List.filter p sims).
  assert (Hsc : scored EMB_INDEX queryEmb = map g EMB_INDEX) by reflexivity.
  assert (HA : forall s, In s sims -> snd s = sim (fst s) /\ In (fst s) EMB_INDEX).
  { intros s Hs. apply (Permutation_in _ (Hperm _)) in Hs. rewrite Hsc in Hs.
    apply in_map_iff in Hs as (it & <- & Hit). now split. }
  assert (HB : Permutation qual (map g near)).
  { unfold qual, near. etransitivity; [apply perm_filter, Hperm|].
    rewrite Hsc, filter_map_swap. reflexivity. }
  assert (Hlen : length qual = length near).
  { rewrite (Permutation_length HB). apply length_map. }
  assert (Hstage : semanticStageWith sort embed EMB_INDEX query
                   = match firstn 3 qual with
                     | [] => None
                     | _ :: _ => Some (map embHit (firstn 3 qual))
                     end).
  { unfold semanticStageWith. rewrite He.
    destruct EMB_INDEX; [congruence|]. cbv zeta. unfold qual, sims, p.
    destruct (firstn 3 _); reflexivity. }
  split.
  { rewrite Hstage. split.
    - intros H. destruct qual as [|x t] eqn:E; [|discriminate].
      destruct near; [reflexivity|discriminate].
    - intros H. rewrite H in Hlen. destruct qual; [reflexivity|discriminate]. }
  intros hits H. rewrite Hstage in H.
  assert (Hh : hits = map embHit (firstn 3 qual) /\ firstn 3 qual <> []).
  { destruct (firstn 3 qual); [discriminate|]. split; [congruence|discriminate]. }
  clear H. destruct Hh as [-> Hne].
  assert (Hq : forall s, In s qual -> In s sims /\ p s = true).
  { intros s Hs. now apply filter_In in Hs. }
  exists (map fst (firstn 3 qual)), (map fst (skipn 3 qual)).
  split.
  { rewrite map_map. apply map_ext_in. intros s Hs. apply firstn_In in Hs.
    destruct (HA s (proj1 (Hq s Hs))) as [E _].
    unfold embHit, hitOf. now rewrite E. }
  split.
  { rewrite <- map_app, firstn_skipn.
    etransitivity; [apply Permutation_map, HB|].
    rewrite map_map. cbn [g fst]. now rewrite map_id. }
  split; [now rewrite length_map, length_firstn, Hlen|].
  split.
  { rewrite length_map, length_firstn. split; [|lia].
    destruct qual; [now cbn in Hne|cbn; lia]. }
  split.
  { intros it Hit. apply in_map_iff in Hit as (s & <- & Hs). apply firstn_In in Hs.
    destruct (Hq s Hs) as [Hs1 Hs2]. destruct (HA s Hs1) as [E Hin].
    split; [assumption|]. unfold p in Hs2. now rewrite E in Hs2. }
  intros Hc.
  assert (Hs : StronglySorted (notAfter simAfter) qual).
  { unfold qual. apply sorted_filter. now apply Hsorted. }
  assert (Hconv : forall a b, In a qual -> In b qual -> notAfter simAfter a b ->
            PrimFloat.ltb fzero (PrimFloat.sub (sim (fst b)) (sim (fst a))) = false).
  { intros a b Ha Hb Hab. unfold notAfter, simAfter in Hab.
    destruct (HA a (proj1 (Hq a Ha))) as [Ea _].
    destruct (HA b (proj1 (Hq b Hb))) as [Eb _].
    now rewrite Ea, Eb in Hab. }
  split.
  - apply (sorted_map (notAfter simAfter)).
    + intros a b Ha Hb. apply Hconv; now apply firstn_In in Ha, Hb.
    + now apply sorted_firstn.
  - intros it it' Hit Hit'.
    apply in_map_iff in Hit as (s & <- & Hin).
    apply in_map_iff in Hit' as (s' & <- & Hin').
    rewrite <- (firstn_skipn 3 qual) in Hs.
    pose proof (sorted_app_cross _ _ _ Hs s s' Hin Hin') as Hss.
    apply Hconv; [now apply firstn_In in Hin| |assumption].
    rewrite <- (firstn_skipn 3 qual). apply in_or_app. now right.
Qed.

Lemma consistentOnb_sound {A} (gt : A -> A -> bool) l :
  consistentOnb gt l = true -> consistentOn gt l.
Proof.
  unfold consistentOnb. rewrite forallb_forall. intros H. split.
  - intros a b Ha Hb Hab. specialize (H a Ha). rewrite forallb_forall in H.
    specialize (H b Hb). apply andb_true_iff in H as [H _].
    rewrite Hab in H. cbn in H. now apply negb_true_iff in H.
  - intros a b c Ha Hb Hc Hab Hbc. specialize (H a Ha). rewrite forallb_forall in H.
    specialize (H b Hb). apply andb_true_iff in H as [_ H].
    rewrite forallb_forall in H. specialize (H c Hc).
    rewrite Hab, Hbc in H. cbn in H. now apply negb_true_iff in H.
Qed.

(** C5 on a small index: of six items with similarities 0.8, 0.96, 0.6, 1,
    0.936 and 0 to the query, the stage returns the items of similarity 1,
    0.96 and 0.936, with scores 100, 96 and 94; the item of similarity 0.8
    qualifies, is left out, and is not more similar than any returned one. *)
Lemma semantic_threshold_witness :
  exists hits chosen rest,
    semanticStage firstAxis smallIndex (lit "where do I find a tutor") = Some hits /\
    map score hits = [SNum 100%float; SNum 96%float; SNum 94%float] /\
    map data hits = [PFaq (faqNamed "tutors"); PFaq (faqNamed "tutor sign-up");
                     PFaq (faqNamed "tutor hours")] /\
    map it_data chosen = map data hits /\
    length chosen = 3%nat /\
    Permutation (chosen ++ rest)
      (List.filter (fun it => PrimFloat.leb 0.78%float (cosine [1%float; 0%float] (it_emb it)))
         smallIndex) /\
    length rest = 1%nat /\
    forall it it', In it chosen -> In it' rest ->
      PrimFloat.ltb fzero
        (PrimFloat.sub (cosine [1%float; 0%float] (it_emb it'))
                       (cosine [1%float; 0%float] (it_emb it))) = false.
Proof.
  assert (Hidx : smallIndex <> []) by discriminate.
  assert (Hst : semanticStageWith (sortBy simAfter) firstAxis smallIndex
                  (lit "where do I find a tutor")
                = Some (map embHit (top smallIndex [1%float; 0%float])))
    by (vm_compute; reflexivity).
  destruct (semantic_threshold (sortBy simAfter) firstAxis smallIndex
              (lit "where do I find a tutor") [1%float; 0%float]
              (sortBy_perm simAfter)
              (sortBy_sorted simAfter) Hidx eq_refl) as [_ H].
  destruct (H _ Hst) as (chosen & rest & Hh & Hp & Hlen & _ & _ & Hc). clear H.
  assert (Hcons : consistentOnb simAfter (scored smallIndex [1%float; 0%float]) = true)
    by (vm_compute; reflexivity).
  destruct (Hc (consistentOnb_sound _ _ Hcons)) as [_ Htop].
  exists (map embHit (top smallIndex [1%float; 0%float])), chosen, rest.
  split; [exact Hst|].
  split; [vm_compute; reflexivity|]. split; [vm_compute; reflexivity|].
  split.
  { rewrite Hh, !map_map. reflexivity. }
  assert (Hl3 : length chosen = 3%nat) by (rewrite Hlen; vm_compute; reflexivity).
  split; [exact Hl3|]. split; [exact Hp|].
  split; [|exact Htop].
  apply Permutation_length in Hp. rewrite length_app, Hl3 in Hp.
  assert (E : length (List.filter
                (fun it => PrimFloat.leb 0.78%float (cosine [1%float; 0%float] (it_emb it)))
                smallIndex) = 4%nat) by (vm_compute; reflexivity).
  rewrite E in Hp. lia.
Defined.

(** Counterexample to C5 as stated: in an index where every second item
    has the zero vector as its embedding, the similarities to the query are
    0.8, NaN, 0.936, NaN, 0.96, NaN and 1. The sort first looks for a run
    of neighbours that are in order: every comparison of two neighbours is
    with a NaN, the comparator answers NaN, which counts as equal, and the
    list is left as it is. The stage returns the items of similarity 0.8, 0.936
    and 0.96, in this order: the item of similarity 1 qualifies, is more
    similar than each of them, and is left out. *)
Lemma semantic_not_top :
  map (fun it => PrimFloat.is_nan (cosine [1%float; 0%float] (it_emb it))) nanIndex
    = [false; true; false; true; false; true; false] /\
  sims nanIndex [1%float; 0%float] = scored nanIndex [1%float; 0%float] /\
  consistentOnb simAfter (scored nanIndex [1%float; 0%float]) = false /\
  exists hits best,
    semanticStage firstAxis nanIndex (lit "where do I find a tutor") = Some hits /\
    map data hits = [PFaq (faqNamed "tutoring"); PFaq (faqNamed "tutor hours");
                     PFaq (faqNamed "tutor sign-up")] /\
    map score hits = [SNum 80%float; SNum 94%float; SNum 96%float] /\
    In best nanIndex /\
    it_data best = PFaq (faqNamed "tutors") /\
    ~ In (it_data best) (map data hits) /\
    PrimFloat.leb 0.78%float (cosine [1%float; 0%float] (it_emb best)) = true /\
    forall s, In s (top nanIndex [1%float; 0%float]) ->
      PrimFloat.ltb (snd s) (cosine [1%float; 0%float] (it_emb best)) = true.
Proof.
  split; [vm_compute; reflexivity|]. split; [vm_compute; reflexivity|].
  split; [vm_compute; reflexivity|].
  exists (map embHit (top nanIndex [1%float; 0%float])),
         {| it_data := PFaq (faqNamed "tutors"); it_emb := [1%float; 0%float] |}.
  split; [vm_compute; reflexivity|]. split; [vm_compute; reflexivity|].
  split; [vm_compute; reflexivity|].
  split; [unfold nanIndex; cbn; tauto|]. split; [reflexivity|].
  split.
  { assert (E : map data (map embHit (top nanIndex [1%float; 0%float]))
                = [PFaq (faqNamed "tutoring"); PFaq (faqNamed "tutor hours");
                   PFaq (faqNamed "tutor sign-up")]) by (vm_compute; reflexivity).
    rewrite E. cbn [it_data In]. intros [H|[H|[H|[]]]]; vm_compute in H; discriminate. }
  split; [vm_compute; reflexivity|].
  assert (E : top nanIndex [1%float; 0%float]
              = firstn 3 (List.filter (fun s => PrimFloat.leb MIN_SIM (snd s))
                            (scored nanIndex [1%float; 0%float])))
    by (vm_compute; reflexivity).
  rewrite E. intros s Hs.
  cbn [nanIndex scored map List.filter] in Hs.
  vm_compute in Hs.
  destruct Hs as [<-|[<-|[<-|[]]]]; vm_compute; reflexivity.
Qed.

(** * Web search failures *)

(** What [webSearch] does with each answer of the search engine. *)
Lemma webSearch_cases cseConfigured fetchCSE q site num :
  webSearch cseConfigured fetchCSE q site num =
    if negb cseConfigured then Ok []
    else
      match fetchCSE (if nonEmpty site then lit "site:" ++ site ++ lit " " ++ q else q) num with
      | FetchThrows => Throw NetworkError
      | Response false _ => Ok []
      | Response true BodyInvalid => Throw BadBody
      | Response true (BodyJson None) => Ok []
      | Response true (BodyJson (Some items)) => Ok items
      end.
Proof. reflexivity. Qed.

(** C7 fails on the code. With the search engine configured, the query
    "best professor for CIS 22A" on a school without rankings reaches the web
    fallback. When [fetch] throws, or the body is not JSON, the exception
    leaves [webSearch] and [searchLocalKB], and the chat handler answers with
    status 500; only a non-success status is turned into an empty list. *)
Theorem web_search_failure_escapes :
  webSearch true fetchFails (lit "CIS 22A De Anza College Rate My Professors")
    (lit "ratemyprofessors.com") 10 = Throw NetworkError /\
  snd (searchLocalKB showNothing noEmbedding true fetchFails cisDb []
         SESSION0 (lit "best professor for CIS 22A")) = Throw NetworkError /\
  snd (chat showNothing noEmbedding true fetchFails cisDb [] cannedCompletion
         SESSION0 (lit "best professor for CIS 22A")) = serverError /\
  snd (searchLocalKB showNothing noEmbedding true fetchGarbage cisDb []
         SESSION0 (lit "best professor for CIS 22A")) = Throw BadBody /\
  webSearch true fetchForbidden (lit "CIS 22A De Anza College Rate My Professors")
    (lit "ratemyprofessors.com") 10 = Ok [] /\
  (exists hits,
     snd (searchLocalKB showNothing noEmbedding true fetchForbidden cisDb []
            SESSION0 (lit "best professor for CIS 22A")) = Ok hits).
Proof.
  repeat split; try (vm_compute; reflexivity).
  eexists. vm_compute. reflexivity.
Qed.

(** * Further properties of the code *)

(** ** The form of a canonical course code *)

Lemma canonCourse_fixed s : canonCourse (canonCourse s) = canonCourse s.
Proof.
  rewrite (canonCourse_unfold s).
  set (v := collapseRuns isSep false (toUpperCase s)).
  rewrite canonCourse_unfold.
  assert (Hu : toUpperCase (trim v) = trim v).
  { rewrite <- trim_upper. unfold v. rewrite <- collapse_upper.
    now rewrite toUpperCase_idem. }
  rewrite Hu.
  assert (Ht : tidy false (trim v) = true).
  { apply (tidy_trim v false). apply tidy_collapse. }
  rewrite (tidy_fixed _ _ Ht). apply trim_idem.
Qed.

Lemma tidy_In : forall s b c,
  tidy b s = true -> In c s -> isSep c = true -> c = 32.
Proof.
  induction s as [|x t IH]; intros b c Ht Hin Hc; [destruct Hin|].
  cbn [tidy] in Ht. destruct Hin as [->|Hin].
  - rewrite Hc in Ht. apply andb_true_iff in Ht as [Ht _].
    apply andb_true_iff in Ht as [_ Ht]. now apply N.eqb_eq in Ht.
  - destruct (isSep x).
    + apply andb_true_iff in Ht as [_ Ht]. eauto.
    + eauto.
Qed.

Lemma tidy_adjacent : forall s b i,
  tidy b s = true -> s !! i = Some 32 -> s !! S i <> Some 32.
Proof.
  induction s as [|x t IH]; intros b i Ht Hi; [discriminate|].
  destruct i as [|i].
  - cbn in Hi. injection Hi as ->. cbn [tidy] in Ht.
    change (isSep 32) with true in Ht. cbv iota in Ht.
    apply andb_true_iff in Ht as [_ Ht].
    destruct t as [|y u]; [discriminate|].
    cbn. intros [= ->]. cbn [tidy] in Ht. change (isSep 32) with true in Ht.
    cbn in Ht. discriminate.
  - change (t !! i = Some 32) in Hi. change ((x :: t) !! S (S i)) with (t !! S i).
    cbn [tidy] in Ht. destruct (isSep x).
    + apply andb_true_iff in Ht as [_ Ht]. eauto.
    + eauto.
Qed.

Lemma trim_In s c : In c (trim s) -> In c s.
Proof.
  intros H. unfold trim in H.
  destruct (trimEnd_prefix (trimStart s)) as [e E].
  destruct (trimStart_suffix s) as [b B].
  rewrite B, E. apply in_or_app. right. apply in_or_app. now left.
Qed.

Lemma collapseRuns_In P : forall s b c,
  In c (collapseRuns P b s) -> c = 32 \/ In c s.
Proof.
  induction s as [|x t IH]; intros b c H; [destruct H|].
  cbn [collapseRuns] in H. destruct (P x).
  - destruct b.
    + apply IH in H. destruct H; [now left|right; now right].
    + destruct H as [<-|H]; [now left|].
      apply IH in H. destruct H; [now left|right; now right].
  - destruct H as [<-|H]; [right; now left|].
    apply IH in H. destruct H; [now left|right; now right].
Qed.

Lemma trim_head s c t : trim s = c :: t -> isSpace c = false.
Proof.
  intros E. pose proof (trimStart_head (trim s)) as H.
  assert (Hs : trimStart (trim s) = trim s).
  { unfold trim. apply trimStart_nosp.
    pose proof (trimStart_head s) as Hh.
    destruct (trimEnd_prefix (trimStart s)) as [e E'].
    destruct (trimEnd (trimStart s)) as [|x u]; [exact I|].
    rewrite E' in Hh. exact Hh. }
  rewrite Hs, E in H. exact H.
Qed.

Lemma trim_last s t c : trim s = t ++ [c] -> isSpace c = false.
Proof.
  unfold trim, trimEnd. intros E.
  pose proof (trimStart_head (rev (trimStart s))) as H.
  apply (f_equal (@rev N)) in E. rewrite rev_involutive, rev_app_distr in E.
  cbn in E. rewrite E in H. exact H.
Qed.

(** X1. Whatever the upper-casing of the language does to the letters, a
    canonical course code holds no hyphen; its only whitespace is the plain
    space, never two in a row and never at either end. When the upper-cased
    input holds no lower-case ASCII letter, neither does the canonical
    code. *)
Theorem canonCourse_normal_form :
  forall (upper : jsstring -> jsstring) (s : jsstring),
    let r := canonCourseWith upper s in
    (forall c, In c r -> c <> 45 /\ (isSpace c = true -> c = 32)) /\
    (forall i, r !! i = Some 32 -> r !! S i <> Some 32) /\
    (forall c t, r = c :: t -> isSpace c = false) /\
    (forall t c, r = t ++ [c] -> isSpace c = false) /\
    ((forall c, In c (upper s) -> isLowerAZ c = false) ->
     forall c, In c r -> isLowerAZ c = false).
Proof.
  intros upper s r. subst r. unfold canonCourseWith, reSpaceHyphen.
  rewrite replaceAll_plus.
  set (v := collapseRuns isSep false (upper s)).
  assert (Ht : tidy false (trim v) = true).
  { apply (tidy_trim v false). apply tidy_collapse. }
  split; [|split; [|split; [|split]]].
  - intros c H. split.
    + intros ->. assert (E : (45 : N) = 32) by (apply (tidy_In _ _ _ Ht H); reflexivity).
      discriminate.
    + intros Hc. apply (tidy_In _ _ _ Ht H). now apply isSpace_isSep.
  - intros i. apply (tidy_adjacent _ _ _ Ht).
  - intros c t. apply trim_head.
  - intros t c. apply trim_last.
  - intros Hl c H. apply trim_In in H. apply collapseRuns_In in H as [->|H]; [reflexivity|].
    now apply Hl.
Qed.

(** ** Valid codes and the codes of a query *)

(** X2. The valid codes are exactly the canonical forms of the catalogue's
    course codes and of the keys of the rankings; every valid code is left
    unchanged by the canonicalizer. *)
Theorem valid_codes_canonical :
  forall (db : school_db) (c : jsstring),
    (c ∈ computeValidCodes db <->
       (exists x, In x (courses db) /\ canonCourse (c_code x) = c) \/
       (exists k l, rankings db !! k = Some l /\ canonCourse k = c)) /\
    (c ∈ computeValidCodes db -> canonCourse c = c).
Proof.
  intros db c.
  assert (H : c ∈ computeValidCodes db <->
       (exists x, In x (courses db) /\ canonCourse (c_code x) = c) \/
       (exists k l, rankings db !! k = Some l /\ canonCourse k = c)).
  { unfold computeValidCodes. rewrite elem_of_union, !elem_of_list_to_set.
    rewrite !list_elem_of_In, !in_map_iff. split.
    - intros [(x & <- & Hx)|(k & <- & Hk)]; [left; eauto|right].
      apply list_elem_of_In, elem_of_elements, elem_of_dom in Hk.
      destruct Hk as [l Hl]. eauto.
    - intros [(x & Hx & <-)|(k & l & Hl & <-)]; [left; eauto|right].
      exists k. split; [reflexivity|].
      apply list_elem_of_In, elem_of_elements, elem_of_dom. eauto. }
  split; [exact H|].
  intros Hc. apply H in Hc as [(x & _ & <-)|(k & l & _ & <-)]; apply canonCourse_fixed.
Qed.

Lemma aliasCodes_canonical q o :
  (forall c, In c o -> canonCourse c = c) ->
  forall c, In c (aliasCodes q o) -> canonCourse c = c.
Proof.
  intros Ho c. unfold aliasCodes.
  destruct (resolveCourseAlias q) as [a|]; [|apply Ho].
  destruct (nonEmpty a); [|apply Ho].
  intros [<-|[]]. apply canonCourse_fixed.
Qed.

Lemma courseCodes_canonical db query c :
  In c (courseCodesInQuery db query) -> canonCourse c = c.
Proof.
  unfold courseCodesInQuery.
  set (codes := map canonCourse (extractCourseCodes query)).
  assert (Hc : forall c, In c codes -> canonCourse c = c).
  { intros x Hx. apply in_map_iff in Hx as (y & <- & _). apply canonCourse_fixed. }
  assert (Ha : forall o c, (forall c, In c o -> canonCourse c = c) ->
               In c match o with [] => aliasCodes query o | _ :: _ => o end ->
               canonCourse c = c).
  { intros o x Ho. destruct o; [apply aliasCodes_canonical|]; apply Ho. }
  set (codes' := match codes with [] => _ | _ :: _ => _ end).
  assert (Hc' : forall c, In c codes' -> canonCourse c = c).
  { intros x. apply Ha, Hc. }
  destruct codes' as [|x t] eqn:E; [intros []|].
  destruct (negb _); [apply aliasCodes_canonical|]; apply Hc'.
Qed.

(** X3. Every course code the search takes from a query is canonical, and
    the list holds none when neither a code pattern nor an alias occurs in
    the query. A ranking list filed under a key that is not canonical is
    therefore never the list of a query's code. *)
Theorem query_codes_canonical :
  forall (db : school_db) (query : jsstring),
    (forall c, In c (courseCodesInQuery db query) -> canonCourse c = c) /\
    (extractCourseCodes query = [] -> resolveCourseAlias query = None ->
       courseCodesInQuery db query = []) /\
    (forall k, canonCourse k <> k -> ~ In k (courseCodesInQuery db query)).
Proof.
  intros db query. split; [apply courseCodes_canonical|]. split.
  - intros E1 E2. unfold courseCodesInQuery, aliasCodes. rewrite E1, E2. reflexivity.
  - intros k Hk Hin. apply Hk. now apply (courseCodes_canonical db query).
Qed.

(** ** Where the search can fail, and what it does to the session *)

Section SearchEffects.
Variable showFloat : float -> jsstring.
Variable embed : jsstring -> option (list float).
Variable cseConfigured : bool.
Variable fetchCSE : jsstring -> nat -> fetch_result.
Variable SCHOOL_DB : school_db.
Variable EMB_INDEX : list index_item.

Lemma webSearch_throws q site num e :
  webSearch cseConfigured fetchCSE q site num = Throw e ->
  cseConfigured = true /\ exists q' n, fetchError (fetchCSE q' n) = Some e.
Proof.
  unfold webSearch. destruct cseConfigured; [|discriminate]. cbn [negb].
  set (q' := if nonEmpty site then _ else _).
  destruct (fetchCSE q' num) as [|ok b] eqn:E.
  - intros [= <-]. split; [reflexivity|]. exists q', num. now rewrite E.
  - destruct ok; [|discriminate]. destruct b as [|[items|]]; try discriminate.
    intros [= <-]. split; [reflexivity|]. exists q', num. now rewrite E.
Qed.

Lemma webFallback_throws query hits e :
  webFallback cseConfigured fetchCSE SCHOOL_DB query hits = Throw e ->
  cseConfigured = true /\ exists q' n, fetchError (fetchCSE q' n) = Some e.
Proof.
  unfold webFallback.
  repeat match goal with
         | |- context [bind ?o _] =>
             let E := fresh "E" in
             destruct o eqn:E; cbn [bind];
             [|intros [= <-]; exact (webSearch_throws _ _ _ _ E)]
         end.
  destruct (uniqueNames _ _); [destruct (firstn 5 _)|]; discriminate.
Qed.

Lemma laterStages_throws query e :
  laterStages showFloat embed cseConfigured fetchCSE SCHOOL_DB EMB_INDEX query = Throw e ->
  test reRankedProfI query = true /\
  cseConfigured = true /\ exists q' n, fetchError (fetchCSE q' n) = Some e.
Proof.
  unfold laterStages.
  destruct (semanticStage _ _ _); [discriminate|].
  destruct (hardFilter _ _ _); [discriminate|].
  destruct (majorHits _ _); [|discriminate].
  destruct (test reRankedProfI query); [|rewrite andb_false_r; discriminate].
  destruct (negb _); cbn [andb]; [|discriminate].
  intros H. split; [reflexivity|]. exact (webFallback_throws _ _ _ H).
Qed.

(** The result of a search is that of the professor stages, of the ranking
    lookup, or of the later stages. *)
Lemma search_result SESSION query :
  (exists hits, snd (searchLocalKB showFloat embed cseConfigured fetchCSE SCHOOL_DB
                       EMB_INDEX SESSION query) = Ok hits) \/
  snd (searchLocalKB showFloat embed cseConfigured fetchCSE SCHOOL_DB
         EMB_INDEX SESSION query)
  = laterStages showFloat embed cseConfigured fetchCSE SCHOOL_DB EMB_INDEX query.
Proof.
  unfold searchLocalKB.
  destruct (exactMatches _ _); [|left; cbn; eauto].
  destruct (match mentioned _ _ with [] => _ | _ => _ end); [|left; cbn; eauto].
  destruct (parseRankIntent query) as [tags asked].
  destruct (courseCodesInQuery _ _); [now right|].
  destruct asked; [|now right].
  destruct (chosenRanked _ _ _); [now right|left; cbn; eauto].
Qed.

End SearchEffects.

Lemma search_throws sf em cfg f db idx S q e :
  snd (searchLocalKB sf em cfg f db idx S q) = Throw e ->
  cfg = true /\ test reRankedProfI q = true /\
  exists q' n, fetchError (f q' n) = Some e.
Proof.
  intros H.
  destruct (search_result sf em cfg f db idx S q) as [[hits E]|E]; [congruence|].
  rewrite E in H. apply laterStages_throws in H. tauto.
Qed.

(** ** The session does not depend on the collaborators *)

Lemma search_session_indep sf em cfg f idx sf' em' cfg' f' idx' db S q :
  fst (searchLocalKB sf em cfg f db idx S q)
  = fst (searchLocalKB sf' em' cfg' f' db idx' S q).
Proof.
  unfold searchLocalKB.
  destruct (exactMatches _ _); [|reflexivity].
  destruct (match mentioned _ _ with [] => _ | _ => _ end); [|reflexivity].
  destruct (parseRankIntent q) as [tags asked].
  destruct (courseCodesInQuery _ _); [reflexivity|].
  destruct asked; [|reflexivity].
  destruct (chosenRanked _ _ _); reflexivity.
Qed.

Lemma handoff_session_indep sf sf' db S course :
  option_map fst (handoff sf db S course) = option_map fst (handoff sf' db S course).
Proof.
  unfold handoff. destruct (sortedForHandoff _); [reflexivity|].
  destruct (_ !! _); reflexivity.
Qed.

Lemma ranked_not_class_full db s q :
  test reRankedProfI q = true -> detectIntent db s q <> class_full.
Proof.
  intros H E. apply class_full_not_ranked in E. congruence.
Qed.

Lemma chat_session sf em cfg f db idx complete S q :
  fst (chat sf em cfg f db idx complete S q)
  = afterSearch sf db (fst (searchLocalKB sf em cfg f db idx S q)) q.
Proof.
  unfold chat, chatStep, afterSearch.
  pose proof (search_throws sf em cfg f db idx S q) as Ht.
  destruct (searchLocalKB sf em cfg f db idx S q) as [s1 found]. cbn [fst snd] in *.
  destruct found as [hits|e].
  - destruct (detectIntent db s1 q) eqn:Ei;
      try (destruct (complete _); reflexivity).
    destruct (lastCourse s1) as [course|]; [|destruct (complete _); reflexivity].
    destruct (nonEmpty course); [|destruct (complete _); reflexivity].
    destruct (handoff sf db s1 course) as [[s' r]|] eqn:Eh; [reflexivity|].
    rewrite (inject_after_handoff sf db s1 course _ Eh).
    destruct (complete _); reflexivity.
  - destruct (Ht e eq_refl) as (_ & Hr & _).
    pose proof (ranked_not_class_full db s1 q Hr) as Hn.
    cbn [fst]. destruct (detectIntent db s1 q); try reflexivity. congruence.
Qed.

(** X5. The session after a search, and after a whole chat turn, is the
    same whatever the embedding, web-search, completion and number-printing
    collaborators answer, and whatever the embedding index holds: it is a
    function of the school file, the session before and the message. *)
Theorem session_independent_of_collaborators :
  forall sf em cfg f idx complete sf' em' cfg' f' idx' complete'
         (db : school_db) (SESSION : session) (message : jsstring),
    fst (searchLocalKB sf em cfg f db idx SESSION message)
    = fst (searchLocalKB sf' em' cfg' f' db idx' SESSION message) /\
    fst (chat sf em cfg f db idx complete SESSION message)
    = fst (chat sf' em' cfg' f' db idx' complete' SESSION message).
Proof.
  intros. split; [apply search_session_indep|].
  rewrite !chat_session.
  rewrite (search_session_indep sf em cfg f idx sf' em' cfg' f' idx').
  set (s1 := fst _). unfold afterSearch.
  destruct (detectIntent db s1 message); try reflexivity.
  destruct (lastCourse s1) as [course|]; [|reflexivity].
  destruct (nonEmpty course); [|reflexivity].
  pose proof (handoff_session_indep sf sf' db s1 course) as H.
  destruct (handoff sf db s1 course) as [[s' r]|],
           (handoff sf' db s1 course) as [[s'' r']|]; cbn in H; congruence.
Qed.

(** ** The status of an answer *)

Lemma handoff_status sf db S course s' r :
  handoff sf db S course = Some (s', r) -> status r = 200%nat.
Proof.
  unfold handoff. destruct (sortedForHandoff _); [discriminate|].
  destruct (_ !! _); intros [= <- <-]; reflexivity.
Qed.

Lemma chatStep_cases sf em cfg f db idx S q :
  match snd (chatStep sf em cfg f db idx S q) with
  | Respond r =>
      (r = serverError /\
       exists e, snd (searchLocalKB sf em cfg f db idx S q) = Throw e) \/
      (status r = 200%nat /\
       exists hits, snd (searchLocalKB sf em cfg f db idx S q) = Ok hits)
  | Complete _ => exists hits, snd (searchLocalKB sf em cfg f db idx S q) = Ok hits
  end.
Proof.
  unfold chatStep.
  destruct (searchLocalKB sf em cfg f db idx S q) as [s1 found]. cbn [snd].
  destruct found as [hits|e]; [|cbn; left; eauto].
  destruct (detectIntent db s1 q); cbn [snd]; eauto.
  destruct (lastCourse s1) as [course|]; cbn [snd]; eauto.
  destruct (nonEmpty course); cbn [snd]; eauto.
  destruct (handoff sf db s1 course) as [[s' r]|] eqn:E.
  - cbn [snd]. right. split; [|eauto]. exact (handoff_status _ _ _ _ _ _ E).
  - destruct (injectSecondBest _ _ _ _). cbn [snd]. eauto.
Qed.

(** X6. A chat turn is answered with status 200 or 500. It is 500, with
    the fixed apology as the reply, exactly when the search throws or when
    the completion call throws; an error object from the completion
    collaborator, like the handoff, is answered with status 200. *)
Theorem chat_status :
  forall sf em cfg f db idx complete (SESSION : session) (message : jsstring),
    let r := snd (chat sf em cfg f db idx complete SESSION message) in
    (status r = 200%nat \/ status r = 500%nat) /\
    (status r = 500%nat <-> r = serverError) /\
    (status r = 500%nat <->
       (exists e, snd (searchLocalKB sf em cfg f db idx SESSION message) = Throw e) \/
       (exists ms, snd (chatStep sf em cfg f db idx SESSION message) = Complete ms /\
                   complete ms = CompletionThrows)).
Proof.
  intros sf em cfg f db idx complete S q r. subst r.
  pose proof (chatStep_cases sf em cfg f db idx S q) as Hc.
  unfold chat. destruct (chatStep sf em cfg f db idx S q) as [s st]. cbn [snd] in *.
  destruct st as [r|ms].
  - cbn [snd]. destruct Hc as [[-> [e He]]|[Hr [hits Hh]]].
    + split; [now right|]. split; [tauto|]. split; [eauto|reflexivity].
    + split; [now left|]. split.
      * split; [lia|]. intros ->. discriminate.
      * split; [lia|]. intros [[e He]|(ms & Hm & _)]; congruence.
  - destruct Hc as [hits Hh]. destruct (complete ms) eqn:Ec; cbn [snd].
    + split; [now right|]. split; [tauto|]. split; [right; eauto|reflexivity].
    + split; [now left|]. split.
      * split; [discriminate|]. intros [=].
      * split; [discriminate|]. intros [[e He]|(ms' & [= <-] & Hm)]; congruence.
    + split; [now left|]. split.
      * split; [discriminate|]. intros [=].
      * split; [discriminate|]. intros [[e He]|(ms' & [= <-] & Hm)]; congruence.
Qed.

(** ** What a turn keeps of the session *)

Lemma chosenRanked_known db tags code r :
  In r (chosenRanked db tags code) -> knownName db (k_name r).
Proof.
  intros H. destruct (chosenRanked_pool db tags code) as (pool & E & Hp).
  rewrite E in H. apply firstn_In in H.
  assert (Hs : In r (sortedForSearch (rankingsOf db code))).
  { destruct Hp as [->|[_ ->]]; [assumption|]. now apply filter_In in H. }
  unfold sortedForSearch in Hs. apply sortBy_In in Hs. unfold rankingsOf in Hs.
  destruct (rankings db !! code) as [l|] eqn:El; [|destruct Hs].
  right. exists code, l, r. auto.
Qed.

Lemma search_keeps_inv sf em cfg f db idx S q :
  sessionInv db S -> sessionInv db (fst (searchLocalKB sf em cfg f db idx S q)).
Proof.
  intros HS. pose proof HS as (I1 & I2 & I3).
  assert (Hset : forall S' n, sessionInv db S' -> knownName db n ->
                   sessionInv db (setLastProfessor S' n)).
  { intros S' n (J1 & J2 & J3) Hn. repeat split; cbn; try apply J1; try apply J2; auto.
    intros n' [= <-]. exact Hn. }
  assert (Hprof : forall p, In p (professors db) -> knownName db (p_name p)).
  { intros p Hp. left. now apply in_map. }
  unfold searchLocalKB.
  destruct (exactMatches db q) as [|p t] eqn:Ee.
  2:{ cbn [fst]. apply Hset; [exact HS|]. apply Hprof.
      assert (Hin : In p (exactMatches db q)) by (rewrite Ee; now left).
      unfold exactMatches in Hin. now apply filter_In in Hin. }
  destruct (match mentioned db q with [] => _ | _ => _ end) as [|p t] eqn:Ep.
  2:{ cbn [fst]. apply Hset; [exact HS|]. apply Hprof.
      destruct (mentioned db q); [|discriminate].
      assert (Hin : In p (profMatches db q)) by (rewrite Ep; now left).
      unfold profMatches in Hin. now apply filter_In in Hin. }
  destruct (parseRankIntent q) as [tags asked].
  destruct (courseCodesInQuery db q) as [|code rest] eqn:Ec; [exact HS|].
  destruct asked; [|exact HS].
  assert (Hrem : sessionInv db (rememberCourse S code)).
  { repeat split; cbn.
    - injection H as <-. apply (courseCodes_canonical db q). rewrite Ec. now left.
    - injection H as <-. rewrite lookup_insert_eq. eauto.
    - intros c i. destruct (decide (code = c)) as [->|Hne].
      + rewrite lookup_insert_eq. intros [= <-]. now left.
      + rewrite lookup_insert_ne by assumption. apply I2.
    - apply I3. }
  destruct (chosenRanked db tags code) as [|r t] eqn:Er; [exact Hrem|].
  cbn [fst]. destruct (nonEmpty (k_name r)); [|exact Hrem].
  apply Hset; [exact Hrem|]. apply (chosenRanked_known db tags code).
  rewrite Er. now left.
Qed.

Lemma handoff_keeps_inv sf db S course s' r :
  sessionInv db S -> lastCourse S = Some course ->
  handoff sf db S course = Some (s', r) -> sessionInv db s'.
Proof.
  intros HS Hc. pose proof HS as (I1 & I2 & I3). unfold handoff.
  destruct (sortedForHandoff (rankingsOf db course)) as [|e l] eqn:El; [discriminate|].
  rewrite <- El.
  destruct (_ !! _) as [nb|] eqn:En; intros [= <- <-]; [|exact HS].
  set (i := nextIndex S course _) in *.
  assert (Hin : In nb (rankingsOf db course)).
  { apply lookup_In in En. unfold sortedForHandoff in En. now apply sortBy_In in En. }
  assert (Hi : (i < length (rankingsOf db course))%nat).
  { apply lookup_lt_Some in En. unfold sortedForHandoff in En.
    now rewrite sortBy_length in En. }
  repeat split; cbn.
  - now apply I1.
  - destruct (decide (course = c)) as [->|Hne].
    + rewrite lookup_insert_eq. eauto.
    + rewrite lookup_insert_ne by assumption. now apply I1.
  - intros c j. destruct (decide (course = c)) as [->|Hne].
    + rewrite lookup_insert_eq. intros [= <-]. now right.
    + rewrite lookup_insert_ne by assumption. apply I2.
  - intros n [= <-]. unfold rankingsOf in Hin.
    destruct (rankings db !! course) as [l'|] eqn:E; [|destruct Hin].
    right. exists course, l', nb. auto.
Qed.

(** X7. Between two turns the remembered course, when there is one, is a
    canonical code that has a cursor; every cursor is 0 or an index of its
    course's ranking list; and the remembered professor, when there is one,
    is a professor of the school file or a name of one of its ranking
    lists. This holds of the initial session and is kept by every chat turn,
    whatever the collaborators answer. *)
Theorem session_invariant :
  forall sf em cfg f db idx complete,
    sessionInv db SESSION0 /\
    forall (SESSION : session) (message : jsstring),
      sessionInv db SESSION ->
      sessionInv db (fst (chat sf em cfg f db idx complete SESSION message)).
Proof.
  intros sf em cfg f db idx complete. split.
  { repeat split; cbn; discriminate. }
  intros S q HS. rewrite chat_session.
  pose proof (search_keeps_inv sf em cfg f db idx S q HS) as H1.
  set (s1 := fst _) in *. unfold afterSearch.
  destruct (detectIntent db s1 q); try exact H1.
  destruct (lastCourse s1) as [course|] eqn:Ec; [|exact H1].
  destruct (nonEmpty course); [|exact H1].
  destruct (handoff sf db s1 course) as [[s' r]|] eqn:Eh; [|exact H1].
  exact (handoff_keeps_inv _ _ _ _ _ _ H1 Ec Eh).
Qed.

Lemma handoff_frame sf db S course s' r :
  handoff sf db S course = Some (s', r) ->
  lastCourse s' = lastCourse S /\
  forall k, course <> k -> rankCursor s' !! k = rankCursor S !! k.
Proof.
  unfold handoff. destruct (sortedForHandoff _); [discriminate|].
  destruct (_ !! _); intros [= <- <-]; cbn; split; auto.
  intros k Hk. now rewrite lookup_insert_ne.
Qed.

(** X8. What a turn may write. The search leaves every cursor but that of
    the first course code of the query, and the remembered course is
    afterwards the one before or that code. The rest of the handler never
    changes the remembered course, leaves every cursor but that of the
    remembered course, and leaves the whole session as the search left it
    unless the intent is [class_full]. *)
Theorem turn_frame :
  forall sf em cfg f db idx complete (SESSION : session) (message : jsstring),
    let s1 := fst (searchLocalKB sf em cfg f db idx SESSION message) in
    let s2 := fst (chat sf em cfg f db idx complete SESSION message) in
    (forall k, head (courseCodesInQuery db message) <> Some k ->
       rankCursor s1 !! k = rankCursor SESSION !! k) /\
    (lastCourse s1 = lastCourse SESSION \/
     lastCourse s1 = head (courseCodesInQuery db message)) /\
    lastCourse s2 = lastCourse s1 /\
    (forall k, lastCourse s1 <> Some k -> rankCursor s2 !! k = rankCursor s1 !! k) /\
    (detectIntent db s1 message <> class_full -> s2 = s1).
Proof.
  intros sf em cfg f db idx complete S q s1 s2.
  assert (H1 : (forall k, head (courseCodesInQuery db q) <> Some k ->
                  rankCursor s1 !! k = rankCursor S !! k) /\
               (lastCourse s1 = lastCourse S \/
                lastCourse s1 = head (courseCodesInQuery db q))).
  { subst s1 s2. unfold searchLocalKB.
    destruct (exactMatches db q); [|cbn; auto].
    destruct (match mentioned db q with [] => _ | _ => _ end); [|cbn; auto].
    destruct (parseRankIntent q) as [tags asked].
    destruct (courseCodesInQuery db q) as [|code rest]; [cbn; auto|].
    destruct asked; [|cbn; auto].
    assert (Hr : forall k, head (code :: rest) <> Some k ->
                   rankCursor (rememberCourse S code) !! k = rankCursor S !! k).
    { intros k Hk. cbn. rewrite lookup_insert_ne; [reflexivity|].
      intros ->. now apply Hk. }
    destruct (chosenRanked db tags code) as [|r t]; [cbn [fst]; split; [exact Hr|now right]|].
    cbn [fst]. destruct (nonEmpty (k_name r)); split; try exact Hr; now right. }
  destruct H1 as [H1 H2]. split; [exact H1|]. split; [exact H2|].
  subst s2. rewrite chat_session. fold s1. unfold afterSearch.
  destruct (detectIntent db s1 q); try (repeat split; auto; congruence).
  destruct (lastCourse s1) as [course|] eqn:Ec; [|repeat split; auto].
  destruct (nonEmpty course); [|repeat split; auto].
  destruct (handoff sf db s1 course) as [[s' r]|] eqn:Eh; [|repeat split; auto].
  destruct (handoff_frame _ _ _ _ _ _ Eh) as [F1 F2].
  split; [congruence|]. split; [|congruence].
  intros k Hk. apply F2. congruence.
Qed.

(** ** A semantic stage that finds nothing *)

Lemma laterStages_no_semantic sf em cfg f db idx q :
  semanticStage em idx q = None ->
  laterStages sf em cfg f db idx q = laterStages sf em cfg f db [] q.
Proof.
  intros H. unfold laterStages. rewrite H. reflexivity.
Qed.

Lemma search_no_semantic sf em cfg f db idx S q :
  semanticStage em idx q = None ->
  searchLocalKB sf em cfg f db idx S q = searchLocalKB sf em cfg f db [] S q.
Proof.
  intros H. unfold searchLocalKB.
  rewrite (laterStages_no_semantic sf em cfg f db idx q H). reflexivity.
Qed.

Lemma filter_none {A} (p : A -> bool) l :
  (forall x, In x l -> p x = false) -> List.filter p l = [].
Proof.
  induction l as [|a l IH]; intros H; [reflexivity|].
  cbn. rewrite (H a) by now left. apply IH. intros x Hx. apply H. now right.
Qed.

Lemma cosine_empty b : cosine [] b = PrimFloat.nan.
Proof. reflexivity. Qed.

Lemma top_empty_vector idx : top idx [] = [].
Proof.
  unfold top, qualifying. rewrite filter_none; [reflexivity|].
  intros [it s] H. unfold sims in H. apply sortBy_In in H.
  unfold scored in H. apply in_map_iff in H as (it' & [= <- <-] & _).
  reflexivity.
Qed.

(** X9. When the embedding of the query fails, or comes back as an empty
    vector, the search gives the hits, the exception and the session that it
    gives with an empty index: the failure is swallowed, and an empty vector
    makes every similarity NaN, which is below the threshold. *)
Theorem embedding_failure_falls_through :
  forall sf em cfg f db idx (SESSION : session) (query : jsstring),
    em query = None \/ em query = Some [] ->
    semanticStage em idx query = None /\
    searchLocalKB sf em cfg f db idx SESSION query
    = searchLocalKB sf em cfg f db [] SESSION query.
Proof.
  intros sf em cfg f db idx S q H.
  assert (Hs : semanticStage em idx q = None).
  { unfold semanticStage. destruct idx as [|it idx']; [reflexivity|].
    destruct H as [->| ->]; [reflexivity|]. now rewrite top_empty_vector. }
  split; [exact Hs|]. now apply search_no_semantic.
Qed.

Lemma embedding_failure_falls_through_witness :
  semanticStage noEmbedding smallIndex (lit "where do I find a tutor") = None /\
  searchLocalKB showNothing noEmbedding false fetchFails mathDb smallIndex
    SESSION0 (lit "where do I find a tutor")
  = searchLocalKB showNothing noEmbedding false fetchFails mathDb []
      SESSION0 (lit "where do I find a tutor").
Proof.
  apply (embedding_failure_falls_through showNothing noEmbedding false fetchFails
           mathDb smallIndex SESSION0 (lit "where do I find a tutor")).
  left. reflexivity.
Defined.

(** ** Edge cases of the handoff *)

Lemma nextIndex_positive S course l : (1 <= nextIndex S course l)%nat.
Proof.
  unfold nextIndex. destruct (lastProfessor S) as [n|]; [|lia].
  destruct (nonEmpty n); [|lia]. destruct (findIndex n l); lia.
Qed.

(** X10. The handoff answers exactly when the course has a ranking list
    that is not empty. It never serves the first entry of the sorted list:
    the index it serves is at least 1, so a list of one entry always gets
    the reply that everyone was listed, and the session is left as it was. *)
Theorem handoff_edges :
  forall sf db (SESSION : session) (course : jsstring),
    let l := rankingsOf db course in
    (l = [] <-> handoff sf db SESSION course = None) /\
    (length l = 1%nat ->
       handoff sf db SESSION course = Some (SESSION, okReply (exhaustedReply db course))) /\
    (forall s' r, handoff sf db SESSION course = Some (s', r) ->
       (s' = SESSION /\ r = okReply (exhaustedReply db course)) \/
       exists i nb,
         (1 <= i < length l)%nat /\
         sortedForHandoff l !! i = Some nb /\
         r = okReply (nextBestReply sf db course nb) /\
         rankCursor s' !! course = Some i /\
         lastProfessor s' = Some (k_name nb)).
Proof.
  intros sf db S course l. subst l. unfold handoff.
  pose proof (sortBy_length (fun a b => (0 <? rankNullish 999 a - rankNullish 999 b)%Z)
                (rankingsOf db course)) as Hlen.
  fold (sortedForHandoff (rankingsOf db course)) in Hlen.
  pose proof (nextIndex_positive S course (sortedForHandoff (rankingsOf db course))) as Hpos.
  set (sl := sortedForHandoff (rankingsOf db course)) in *.
  set (i := nextIndex S course sl) in *.
  destruct sl as [|e t] eqn:El.
  - assert (E : rankingsOf db course = []).
    { destruct (rankingsOf db course); [reflexivity|discriminate]. }
    rewrite E. repeat split; try discriminate.
  - repeat split.
    + intros E. rewrite E in Hlen. discriminate.
    + destruct (_ !! i); discriminate.
    + intros H1. rewrite lookup_ge_None_2; [reflexivity|]. rewrite Hlen. lia.
    + intros s' r. destruct ((e :: t) !! i) as [nb|] eqn:En.
      * intros [= <- <-]. right. exists i, nb. cbn [rankCursor lastProfessor].
        apply lookup_lt_Some in En as Hlt. rewrite lookup_insert_eq.
        rewrite <- Hlen. repeat split; auto; lia.
      * intros [= <- <-]. now left.
Qed.

(** ** The order of the professors after loading *)

Lemma uniq_acc_ext l : forall s1 s2,
  (forall x, In x s1 <-> In x s2) -> uniq_acc s1 l = uniq_acc s2 l.
Proof.
  induction l as [|a l IH]; intros s1 s2 H; [reflexivity|].
  cbn [uniq_acc].
  assert (E : mem a s1 = mem a s2).
  { destruct (mem a s1) eqn:E1, (mem a s2) eqn:E2; try reflexivity.
    - apply mem_In, H, mem_In in E1. congruence.
    - apply mem_In, H, mem_In in E2. congruence. }
  rewrite E. destruct (mem a s2).
  - now apply IH.
  - f_equal. apply IH. intros x. cbn. now rewrite H.
Qed.

Lemma mem_false_iff x l : mem x l = false <-> ~ In x l.
Proof.
  rewrite <- mem_In. destruct (mem x l); split; congruence.
Qed.

Lemma fold_dedup_order lower ps : forall m,
  map fst (fold_left (dedupStep lower) ps m)
  = map fst m ++ uniq_acc (map fst m) (List.filter nonEmpty (map (profKey lower) ps)).
Proof.
  induction ps as [|p ps IH]; intros m; [cbn; now rewrite app_nil_r|].
  cbn [fold_left map List.filter]. rewrite IH. unfold dedupStep.
  destruct (nonEmpty (profKey lower p)) eqn:Ek; [|reflexivity].
  cbn [uniq_acc].
  destruct (mapGet (profKey lower p) m) as [b|] eqn:Eg.
  - assert (Hin : mem (profKey lower p) (map fst m) = true).
    { apply mem_In. apply mapGet_In in Eg. apply in_map_iff.
      now exists (profKey lower p, b). }
    rewrite Hin, mapSet_keys, Eg. reflexivity.
  - assert (Hin : mem (profKey lower p) (map fst m) = false).
    { apply mem_false_iff. now apply mapGet_None_keys. }
    rewrite Hin, mapSet_keys, Eg, <- app_assoc. cbn [app]. do 2 f_equal.
    apply uniq_acc_ext. intros x. rewrite in_app_iff. cbn. tauto.
Qed.

Lemma uniq_acc_length seen l : (length (uniq_acc seen l) <= length l)%nat.
Proof.
  revert seen. induction l as [|a l IH]; intros seen; [cbn; lia|].
  cbn [uniq_acc]. destruct (mem a seen); cbn [length].
  - specialize (IH seen). lia.
  - specialize (IH (a :: seen)). lia.
Qed.

(** X11. Loading keeps one professor for every distinct normalized name
    that is not empty, in the order in which these names first appear in the
    file, the normalized name being the name lower-cased by the language and
    trimmed, whatever the lower-casing does to the letters; entries without
    a name are dropped, so the loaded list is never longer than the
    file's. *)
Theorem professors_in_first_appearance_order :
  forall (lower : jsstring -> jsstring) (ps : list raw_professor),
    map (fun p => trim (lower (p_name p))) (dedupProfessors lower ps)
    = uniq (List.filter nonEmpty (map (fun p => trim (lower (fstr (r_name p)))) ps)) /\
    (length (dedupProfessors lower ps) <= length ps)%nat /\
    (forall p, In p ps -> nonEmpty (trim (lower (fstr (r_name p)))) = true ->
       exists p', In p' (dedupProfessors lower ps) /\
                  trim (lower (p_name p')) = trim (lower (fstr (r_name p)))).
Proof.
  intros lower ps.
  change (fun p => trim (lower (fstr (r_name p)))) with (profKey lower).
  change (fun p => trim (lower (p_name p))) with (fun p => nameKey lower (p_name p)).
  assert (H : map (fun p => nameKey lower (p_name p)) (dedupProfessors lower ps)
              = uniq (List.filter nonEmpty (map (profKey lower) ps))).
  { unfold dedupProfessors. rewrite (inv_keys lower _ (byName_inv lower ps)).
    unfold byName. rewrite fold_dedup_order. reflexivity. }
  split; [exact H|]. split.
  - rewrite <- (length_map (fun p => nameKey lower (p_name p))), H. unfold uniq.
    etransitivity; [apply uniq_acc_length|].
    etransitivity; [apply filter_length_le|]. now rewrite length_map.
  - intros p Hp Hk.
    assert (Hin : In (profKey lower p)
                     (map (fun p => nameKey lower (p_name p)) (dedupProfessors lower ps))).
    { rewrite H. apply uniq_In. apply filter_In. split; [|assumption].
      now apply in_map. }
    apply in_map_iff in Hin as (p' & E & Hp'). exists p'. split; [assumption|exact E].
Qed.

(** ** The web fallback *)

Lemma uniqueNames_keys cs : forall seen,
  map (fun c => toLowerCase (cand_name c)) (uniqueNames seen cs)
  = uniq_acc seen (map (fun c => toLowerCase (cand_name c)) cs).
Proof.
  induction cs as [|c cs IH]; intros seen; [reflexivity|].
  cbn [uniqueNames map uniq_acc].
  destruct (mem (toLowerCase (cand_name c)) seen); [apply IH|].
  cbn [map]. f_equal. apply IH.
Qed.

Lemma uniqueNames_sublist cs : forall seen, sublist (uniqueNames seen cs) cs.
Proof.
  induction cs as [|c cs IH]; intros seen; [constructor|].
  cbn [uniqueNames]. destruct (mem _ seen).
  - apply sublist_cons. apply IH.
  - apply sublist_skip. apply IH.
Qed.

(** X12. The candidate names of the web fallback are de-duplicated by
    lower-cased name: the kept candidates are a subsequence of the found
    ones, no two of them share a lower-cased name, and every lower-cased
    name that was found is kept once, by its first candidate. *)
Theorem unique_candidates :
  forall cs : list candidate,
    let key := fun c => toLowerCase (cand_name c) in
    sublist (uniqueNames [] cs) cs /\
    List.NoDup (map key (uniqueNames [] cs)) /\
    (forall k, In k (map key (uniqueNames [] cs)) <-> In k (map key cs)) /\
    (forall c rest, cs = c :: rest -> head (uniqueNames [] cs) = Some c).
Proof.
  intros cs key. split; [apply uniqueNames_sublist|].
  unfold key. rewrite uniqueNames_keys. split; [apply uniq_acc_NoDup|]. split.
  - intros k. apply (uniq_In (map (fun c => toLowerCase (cand_name c)) cs) k).
  - intros c rest ->. reflexivity.
Qed.

Ltac result_of H :=
  match type of H with
  | _ ?x = _ ?y => replace y with x by congruence; clear H
  end.

Lemma firstn_app_long {A} n (l1 l2 : list A) :
  (n <= length l1)%nat -> firstn n (l1 ++ l2) = firstn n l1.
Proof.
  intros H. rewrite firstn_app. replace (n - length l1)%nat with 0%nat by lia.
  cbn. apply app_nil_r.
Qed.

Lemma webHit_made course c : webMade (webHit course c).
Proof.
  unfold webMade, webHit. cbn. destruct (cand_rmp c); auto 10.
Qed.

(** X13. The web fallback makes five searches: one of Rate My Professors
    and four of the school's site. When their titles give candidate names,
    it appends to the keyword hits one ranking hit for each of the first
    three de-duplicated names; when they give none, it appends one card of
    the first five links, if there is any link; and it returns the first
    three of the whole. A ranking hit made of a name carries that name, the
    tag [web_result], the score 92 or 85, and neither rank nor rating; the
    card of links is a FAQ hit of score 80. With three keyword hits or more
    nothing of the web results is returned, and without a configured search
    engine the result is the first three keyword hits. *)
Theorem web_fallback_shape :
  forall cfg f db (query : jsstring) (hits : list hit),
    (cfg = false -> webFallback cfg f db query hits = Ok (firstn 3 hits)) /\
    (forall out, webFallback cfg f db query hits = Ok out ->
       let course := trim (hd [] (courseCodesInQuery db query)) in
       let qWeb := join sp (truthyStrings [course; school_name db]) in
       (exists rmpResults b1 b2 b3 b4,
          webSearch cfg f (qWeb ++ lit " Rate My Professors")
                    (lit "ratemyprofessors.com") 10 = Ok rmpResults /\
          webSearch cfg f (qWeb ++ lit " instructor") (schoolHost db) 5 = Ok b1 /\
          webSearch cfg f (qWeb ++ lit " syllabus") (schoolHost db) 5 = Ok b2 /\
          webSearch cfg f (qWeb ++ lit " schedule") (schoolHost db) 5 = Ok b3 /\
          webSearch cfg f (qWeb ++ lit " department") (schoolHost db) 5 = Ok b4 /\
          let schoolResults := b1 ++ b2 ++ b3 ++ b4 in
          let unique :=
            uniqueNames [] (rmpCandidates (school_name db) rmpResults
                            ++ schoolCandidates schoolResults) in
          let topLinks := firstn 5 (rmpResults ++ schoolResults) in
          exists extra,
            out = firstn 3 (hits ++ extra) /\
            (length extra <= 3)%nat /\
            (unique <> [] -> extra = map (webHit course) (firstn 3 unique)) /\
            (unique = [] -> topLinks <> [] -> extra = [linksCard course topLinks]) /\
            (unique = [] -> topLinks = [] -> extra = [])) /\
       (forall c, exists r,
          data (webHit course c) = PRanking r /\
          g_name (rd_prof r) = cand_name c /\
          (score (webHit course c) = SInt 92 \/ score (webHit course c) = SInt 85) /\
          rd_tags r = [lit "web_result"] /\ rd_rank r = None /\
          g_rating (rd_prof r) = None /\ g_num_ratings (rd_prof r) = None) /\
       (forall links, exists q,
          data (linksCard course links) = PFaq q /\
          score (linksCard course links) = SInt 80) /\
       ((3 <= length hits)%nat -> out = firstn 3 hits)).
Proof.
  intros cfg f db q hits. split.
  - intros ->. reflexivity.
  - intros out H course qWeb.
    split; [|split; [|split]].
    + revert H. unfold webFallback. fold course. fold qWeb.
      destruct (webSearch cfg f (qWeb ++ lit " Rate My Professors") _ 10)
        as [rmp|] eqn:E0; cbn [bind]; [|discriminate].
      destruct (webSearch cfg f (qWeb ++ lit " instructor") _ 5)
        as [b1|] eqn:E1; cbn [bind]; [|discriminate].
      destruct (webSearch cfg f (qWeb ++ lit " syllabus") _ 5)
        as [b2|] eqn:E2; cbn [bind]; [|discriminate].
      destruct (webSearch cfg f (qWeb ++ lit " schedule") _ 5)
        as [b3|] eqn:E3; cbn [bind]; [|discriminate].
      destruct (webSearch cfg f (qWeb ++ lit " department") _ 5)
        as [b4|] eqn:E4; cbn [bind]; [|discriminate].
      intros H. exists rmp, b1, b2, b3, b4.
      do 5 (split; [reflexivity|]). cbv zeta.
      destruct (uniqueNames _ _) as [|c u] eqn:Eu.
      * destruct (firstn 5 _) as [|t ts] eqn:El; result_of H.
        -- exists []. rewrite app_nil_r. split; [reflexivity|].
           split; [cbn; lia|]. repeat split; congruence.
        -- eexists. split; [reflexivity|]. split; [cbn; lia|].
           repeat split; congruence.
      * result_of H. eexists. split; [reflexivity|]. split.
        { rewrite length_map, length_firstn. lia. }
        repeat split; congruence.
    + intros c. eexists. split; [reflexivity|]. cbn.
      destruct (cand_rmp c); auto 10.
    + intros links. eexists. split; reflexivity.
    + intros Hl. revert H. unfold webFallback.
      repeat match goal with
             | |- context [bind ?o _] => destruct o; cbn [bind]; [|discriminate]
             end.
      destruct (uniqueNames _ _) as [|c u] eqn:Eu.
      * destruct (firstn 5 _) as [|t ts] eqn:El; intros H; result_of H;
          [reflexivity|now apply firstn_app_long].
      * intros H; result_of H. now apply firstn_app_long.
Qed.

Lemma startsWith_refl s : startsWith s s = true.
Proof.
  induction s as [|c s IH]; [reflexivity|]. cbn. now rewrite N.eqb_refl.
Qed.

Lemma includes_refl s : includes s s = true.
Proof.
  destruct s; cbn; [reflexivity|]. now rewrite N.eqb_refl, startsWith_refl.
Qed.

Lemma nonEmpty_nil s : nonEmpty s = false <-> s = [].
Proof. destruct s; cbn; split; congruence. Qed.

(** X14. Two school names look alike when one normalized name contains
    the other: the test is symmetric, a name looks like itself unless it
    normalizes to the empty string, and a name that normalizes to the empty
    string looks like no name. So for a school whose name is empty or made
    of the dropped words only, no title of the ratings site gives a
    candidate. *)
Theorem same_school_test :
  forall a b : jsstring,
    looksLikeSameSchool a b = looksLikeSameSchool b a /\
    (normSchool a <> [] -> looksLikeSameSchool a a = true) /\
    (normSchool a = [] -> looksLikeSameSchool a b = false) /\
    (normSchool a = [] -> forall results, rmpCandidates a results = []).
Proof.
  intros a b.
  assert (Hsym : forall x y, looksLikeSameSchool x y = looksLikeSameSchool y x).
  { intros x y. unfold looksLikeSameSchool.
    destruct (nonEmpty (normSchool x)), (nonEmpty (normSchool y)); cbn; try reflexivity.
    apply orb_comm. }
  assert (Hnil : forall x y, normSchool x = [] -> looksLikeSameSchool x y = false).
  { intros x y E. unfold looksLikeSameSchool. rewrite E. reflexivity. }
  split; [apply Hsym|]. split; [|split; [apply Hnil|]].
  - intros H. unfold looksLikeSameSchool.
    destruct (normSchool a) as [|c t] eqn:E; [congruence|].
    cbn [nonEmpty andb]. now rewrite includes_refl.
  - intros H results. unfold rmpCandidates.
    induction results as [|it results IH]; [reflexivity|].
    cbn [flat_map]. rewrite IH.
    destruct (extractNameSchoolFromTitle (w_title it)) as [[name sch]|]; [|reflexivity].
    now rewrite Hsym, Hnil.
Qed.

(** ** Keyword scores *)

Lemma lowerChar_idem c : lowerChar (lowerChar c) = lowerChar c.
Proof.
  unfold lowerChar. destruct (isUpperAZ c) eqn:E; [|now rewrite E].
  unfold isUpperAZ in *. apply andb_true_iff in E as [H1 H2].
  apply N.leb_le in H1, H2.
  replace ((65 <=? c + 32) && (c + 32 <=? 90)) with false; [reflexivity|].
  symmetry. apply andb_false_iff. right. apply N.leb_gt. lia.
Qed.

Lemma toLowerCase_idem s : toLowerCase (toLowerCase s) = toLowerCase s.
Proof.
  unfold toLowerCase. rewrite map_map. apply map_ext. intros c. apply lowerChar_idem.
Qed.

(** X15. The keyword score of a text is the number of words of the query
    that occur in it, plus 2 when the text starts with the query: it lies
    between 0 and the number of words plus 2, it is 0 when the query or the
    text is empty, and the case of the ASCII letters of either does not
    matter. *)
Theorem scoreItem_bounds :
  forall query text : jsstring,
    (0 <= scoreItem query text
       <= Z.of_nat (length (truthyStrings (split (plus nonword) (toLowerCase query)))) + 2)%Z /\
    (query = [] \/ text = [] -> scoreItem query text = 0%Z) /\
    scoreItem (toLowerCase query) (toLowerCase text) = scoreItem query text.
Proof.
  intros q t. split; [|split].
  - unfold scoreItem, normalize. destruct (nonEmpty _ && nonEmpty _); [|lia].
    pose proof (filter_length_le (fun w => includes (toLowerCase t) w)
                  (truthyStrings (split (plus nonword) (toLowerCase q)))) as H.
    destruct (startsWith _ _); lia.
  - intros [-> | ->]; unfold scoreItem, normalize; cbn [toLowerCase map nonEmpty andb];
      [reflexivity|]. now rewrite andb_false_r.
  - unfold scoreItem, normalize. now rewrite !toLowerCase_idem.
Qed.

Lemma pushHits_In {A} q (arr : list A) wrap blob extra h :
  In h (pushHits q arr wrap blob extra) ->
  exists item, In item arr /\ data h = wrap item /\
               score h = SInt (scoreItem q (blob item) + extra item) /\
               (0 < scoreItem q (blob item) + extra item)%Z.
Proof.
  unfold pushHits. intros H. apply in_flat_map in H as (item & Hi & Hh).
  destruct (0 <? _)%Z eqn:E; [|destruct Hh].
  destruct Hh as [<-|[]]. exists item. cbn. repeat split; auto. now apply Z.ltb_lt.
Qed.

Lemma keywordHits_In sf db q h :
  In h (keywordHits sf db q) ->
  (exists s, score h = SInt s /\ (0 < s)%Z) /\
  fromSchoolFile db (data h) /\
  htype h <> TRanking /\ htype h <> TMajor.
Proof.
  unfold keywordHits. rewrite !in_app_iff.
  intros [H|[H|[H|H]]]; apply pushHits_In in H as (item & Hi & Hd & Hs & Hp);
    unfold htype; rewrite Hd; cbn; repeat split; eauto; discriminate.
Qed.

(** X16. Every keyword hit is a deadline, professor, course or FAQ entry
    of the school file with a positive integer score, the word score of its
    text plus the bonus of its kind; sorting only reorders the hits. *)
Theorem keyword_hits_positive :
  forall sf db (query : jsstring),
    Permutation (sortedHits sf db query) (keywordHits sf db query) /\
    forall h, In h (sortedHits sf db query) ->
      (exists s, score h = SInt s /\ (0 < s)%Z) /\
      fromSchoolFile db (data h) /\
      htype h <> TRanking /\ htype h <> TMajor.
Proof.
  intros sf db q. split; [apply sortBy_perm|].
  intros h H. unfold sortedHits in H. apply sortBy_In in H.
  now apply keywordHits_In in H.
Qed.

(** The hit sort on integer scores: professors first when asked, then
    decreasing score. *)
Lemma hitAfter_key asked a b x y :
  score a = SInt x -> score b = SInt y ->
  let g := fun h : hit => if asked && isType TProfessor h then 0%Z else 1%Z in
  hitAfter asked a b = true <-> (g b < g a \/ (g a = g b /\ x < y))%Z.
Proof.
  intros Ha Hb g. subst g. unfold hitAfter, isType, scorePos. rewrite Ha, Hb.
  cbv beta.
  assert (E : (0 <? y - x)%Z = true <-> (x < y)%Z) by (rewrite Z.ltb_lt; lia).
  destruct asked; cbn [andb]; [|rewrite E; lia].
  destruct (htype a), (htype b); cbn; rewrite ?E; lia.
Qed.

Lemma hitAfter_consistent asked l :
  (forall h, In h l -> exists s, score h = SInt s) ->
  consistentOn (hitAfter asked) l.
Proof.
  intros Hs. split.
  - intros a b Ha Hb H.
    destruct (Hs a Ha) as [x Hx], (Hs b Hb) as [y Hy].
    apply (hitAfter_key asked a b x y Hx Hy) in H.
    destruct (hitAfter asked b a) eqn:E; [|reflexivity].
    apply (hitAfter_key asked b a y x Hy Hx) in E. cbv beta in *. lia.
  - intros a b c Ha Hb Hc H1 H2.
    destruct (Hs a Ha) as [x Hx], (Hs b Hb) as [y Hy], (Hs c Hc) as [z Hz].
    destruct (hitAfter asked a c) eqn:E; [|reflexivity].
    apply (hitAfter_key asked a c x z Hx Hz) in E.
    assert (N1 : ~ hitAfter asked a b = true) by congruence.
    assert (N2 : ~ hitAfter asked b c = true) by congruence.
    rewrite (hitAfter_key asked a b x y Hx Hy) in N1.
    rewrite (hitAfter_key asked b c y z Hy Hz) in N2. cbv beta in *. lia.
Qed.

Lemma sorted_hits_order asked l :
  StronglySorted (notAfter (hitAfter asked)) l ->
  (forall h, In h l -> exists s, score h = SInt s) ->
  StronglySorted
    (fun a b =>
       (asked = true -> isType TProfessor b = true -> isType TProfessor a = true) /\
       (forall x y, score a = SInt x -> score b = SInt y ->
          asked = false \/ isType TProfessor a = isType TProfessor b ->
          (y <= x)%Z))
    l.
Proof.
  induction 1 as [|a l' Hl IH Ha]; intros Hin; [constructor|].
  constructor; [apply IH; intros h Hh; apply Hin; now right|].
  apply List.Forall_forall. intros b Hb.
  pose proof (proj1 (List.Forall_forall _ _) Ha b Hb) as Hab. unfold notAfter in Hab.
  destruct (Hin a (or_introl eq_refl)) as [x Hx].
  destruct (Hin b (or_intror Hb)) as [y Hy].
  assert (N : ~ hitAfter asked a b = true) by congruence.
  rewrite (hitAfter_key asked a b x y Hx Hy) in N. cbv beta in N.
  split.
  - intros -> Hpb. rewrite Hpb in N. cbn in N.
    destruct (isType TProfessor a); [reflexivity|]. cbn in N. lia.
  - intros x' y' Hx' Hy' Hg. assert (x' = x) by congruence. assert (y' = y) by congruence.
    subst x' y'. destruct Hg as [Hg|Hg].
    + rewrite Hg in N. cbn in N. lia.
    + rewrite Hg in N. lia.
Qed.

(** X17. The keyword hits are returned in order of decreasing score; when
    the query asks for the best professor and names a course code, the
    professor hits come before all others, and each of the two groups is in
    order of decreasing score. *)
Theorem keyword_hits_sorted :
  forall sf db (query : jsstring),
    let asked := askedBestProfForCourse db query in
    StronglySorted
      (fun a b =>
         (asked = true -> isType TProfessor b = true -> isType TProfessor a = true) /\
         (forall x y, score a = SInt x -> score b = SInt y ->
            asked = false \/ isType TProfessor a = isType TProfessor b ->
            (y <= x)%Z))
      (sortedHits sf db query).
Proof.
  intros sf db q asked.
  assert (Hs : forall h, In h (keywordHits sf db q) -> exists s, score h = SInt s).
  { intros h H. apply keywordHits_In in H as ((s & Hs & _) & _). eauto. }
  apply sorted_hits_order.
  - apply sortBy_sorted. now apply hitAfter_consistent.
  - intros h Hh. apply Hs. unfold sortedHits in Hh. now apply sortBy_In in Hh.
Qed.

(** ** The hard filter *)

(** X18. When the hard filter answers, the query asked for the best
    professor of a course, and the answer is one or two professor hits,
    each of a professor who teaches a requested code, in the order of the
    hits, followed by the first course hit if there is one. *)
Theorem hard_filter_shape :
  forall db (query : jsstring) (hits out : list hit),
    hardFilter db query hits = Some out ->
    askedBestProfForCourse db query = true /\
    exists profs card,
      out = profs ++ card /\
      profs = firstn 2 (List.filter (teachesRequested (courseCodesInQuery db query))
                          (List.filter (isType TProfessor) hits)) /\
      (1 <= length profs <= 2)%nat /\
      (forall h, In h profs ->
         In h hits /\ isType TProfessor h = true /\
         teachesRequested (courseCodesInQuery db query) h = true) /\
      match List.find (isType TCourse) hits with
      | Some c => card = [c] /\ In c hits /\ isType TCourse c = true
      | None => card = []
      end.
Proof.
  intros db q hits out. unfold hardFilter.
  destruct (askedBestProfForCourse db q); [|discriminate].
  set (P := List.filter _ (List.filter _ hits)).
  destruct P as [|p ps] eqn:EP; [discriminate|]. rewrite <- EP.
  intros H. result_of H. split; [reflexivity|].
  set (card := match List.find _ hits with Some c => [c] | None => [] end).
  exists (firstn 2 P), card.
  assert (Hl : (1 <= length (firstn 2 P) <= 2)%nat).
  { rewrite length_firstn, EP. cbn [length]. lia. }
  assert (Hc : (length card <= 1)%nat).
  { subst card. destruct (List.find _ hits); cbn; lia. }
  split; [|split; [reflexivity|split; [exact Hl|split]]].
  - apply firstn_all2. rewrite length_app. lia.
  - intros h Hh. apply firstn_In in Hh. subst P.
    apply filter_In in Hh as [Hh Ht]. apply filter_In in Hh as [Hh Hp]. auto.
  - subst card. destruct (List.find _ hits) as [c|] eqn:Ef; [|reflexivity].
    apply find_some in Ef. tauto.
Qed.

Lemma hard_filter_shape_witness :
  askedBestProfForCourse fourLees (lit "best professor for MATH 1A") = true /\
  exists profs card,
    [professorHit 5 (professorNamed "Ann Lee"); professorHit 4 (professorNamed "Bob Lee")]
      = profs ++ card /\
    profs = firstn 2 (List.filter
                        (teachesRequested
                           (courseCodesInQuery fourLees (lit "best professor for MATH 1A")))
                        (List.filter (isType TProfessor)
                           [professorHit 5 (professorNamed "Ann Lee");
                            professorHit 4 (professorNamed "Bob Lee");
                            professorHit 3 (professorNamed "Cat Lee")])) /\
    (1 <= length profs <= 2)%nat /\
    (forall h, In h profs ->
       In h [professorHit 5 (professorNamed "Ann Lee");
             professorHit 4 (professorNamed "Bob Lee");
             professorHit 3 (professorNamed "Cat Lee")] /\
       isType TProfessor h = true /\
       teachesRequested (courseCodesInQuery fourLees (lit "best professor for MATH 1A")) h
         = true) /\
    match List.find (isType TCourse)
            [professorHit 5 (professorNamed "Ann Lee");
             professorHit 4 (professorNamed "Bob Lee");
             professorHit 3 (professorNamed "Cat Lee")] with
    | Some c => card = [c] /\
                In c [professorHit 5 (professorNamed "Ann Lee");
                      professorHit 4 (professorNamed "Bob Lee");
                      professorHit 3 (professorNamed "Cat Lee")] /\
                isType TCourse c = true
    | None => card = []
    end.
Proof.
  apply (hard_filter_shape fourLees (lit "best professor for MATH 1A")
           [professorHit 5 (professorNamed "Ann Lee");
            professorHit 4 (professorNamed "Bob Lee");
            professorHit 3 (professorNamed "Cat Lee")]).
  vm_compute. reflexivity.
Defined.

(** ** The embedding index *)

Lemma embedItems_prefix em items :
  let idx := embedItems em items in
  (length idx <= length items)%nat /\
  Forall2 (fun it x => it_data it = fst x /\ em (snd x) = Some (it_emb it))
    idx (firstn (length idx) items) /\
  (forall x, items !! length idx = Some x -> em (snd x) = None) /\
  ((forall x, In x items -> em (snd x) <> None) -> length idx = length items).
Proof.
  induction items as [|[d text] items IH]; cbn zeta.
  - cbn. repeat split; auto. discriminate.
  - cbn [embedItems]. destruct (em text) as [emb|] eqn:E.
    + destruct IH as (I1 & I2 & I3 & I4). cbn [length firstn]. repeat split.
      * lia.
      * constructor; [cbn; auto|exact I2].
      * intros x Hx. apply I3. exact Hx.
      * intros H. f_equal. apply I4. intros x Hx. apply H. now right.
    + cbn [length firstn]. repeat split.
      * lia.
      * constructor.
      * intros x [= <-]. exact E.
      * intros H. exfalso. apply (H (d, text)); [now left|exact E].
Qed.

Lemma indexItems_from db sf x :
  In x (indexItems sf db) -> fromSchoolFile db (fst x).
Proof.
  unfold indexItems. rewrite !in_app_iff, !in_map_iff.
  intros [H|[H|[H|[H|H]]]]; destruct H as (y & <- & Hy); exact Hy.
Qed.

Lemma embedItems_In em items it :
  In it (embedItems em items) -> exists x, In x items /\ it_data it = fst x.
Proof.
  induction items as [|[d text] items IH]; [intros []|].
  cbn [embedItems]. destruct (em text); [|intros []].
  intros [<-|H].
  - exists (d, text). split; [now left|reflexivity].
  - destruct (IH H) as (x & Hx & E). exists x. split; [now right|exact E].
Qed.

Lemma buildIndex_from sf em db it :
  In it (buildIndex sf em db) -> fromSchoolFile db (it_data it).
Proof.
  intros H. apply embedItems_In in H as (x & Hx & ->). now apply (indexItems_from db sf).
Qed.

(** X19. The index that the build leaves is a prefix of the list of all
    records of the school file (deadlines, professors, courses, FAQ entries,
    majors, in this order), each with the embedding of its text: it is the
    whole list when every embedding succeeds, and it stops before the first
    record whose embedding fails. *)
Theorem build_index_prefix :
  forall sf em db,
    let items := indexItems sf db in
    let idx := buildIndex sf em db in
    (length idx <= length items)%nat /\
    Forall2 (fun it x => it_data it = fst x /\ em (snd x) = Some (it_emb it))
      idx (firstn (length idx) items) /\
    (forall x, items !! length idx = Some x -> em (snd x) = None) /\
    ((forall x, In x items -> em (snd x) <> None) -> length idx = length items) /\
    (forall it, In it idx -> fromSchoolFile db (it_data it)) /\
    length items
    = (length (deadlines db) + length (professors db) + length (courses db)
       + length (faqs db) + length (majors db))%nat.
Proof.
  intros sf em db items idx.
  destruct (embedItems_prefix em items) as (H1 & H2 & H3 & H4).
  repeat split; auto.
  - intros it. apply buildIndex_from.
  - subst items. unfold indexItems. rewrite !length_app, !length_map. lia.
Qed.

(** ** Where the hits come from *)

Lemma fromSchoolFile_grounded db h :
  fromSchoolFile db (data h) -> grounded db h.
Proof.
  unfold grounded. destruct (data h); cbn; auto. intros [].
Qed.

Lemma webMade_grounded db h : webMade h -> grounded db h.
Proof.
  unfold grounded, webMade. destruct (data h); auto; intros [].
Qed.

Lemma chosenRanked_In db tags code r :
  In r (chosenRanked db tags code) -> In r (rankingsOf db code).
Proof.
  intros H. destruct (chosenRanked_pool db tags code) as (pool & E & Hp).
  rewrite E in H. apply firstn_In in H.
  assert (Hs : In r (sortedForSearch (rankingsOf db code))).
  { destruct Hp as [->|[_ ->]]; [assumption|]. now apply filter_In in H. }
  unfold sortedForSearch in Hs. now apply sortBy_In in Hs.
Qed.

Lemma courseCard_grounded db code h : In h (courseCard db code) -> grounded db h.
Proof.
  unfold courseCard. destruct (List.find _ _) as [c|] eqn:E; [|intros []].
  intros [<-|[]]. apply find_some in E as [E _]. exact E.
Qed.

Lemma hard_filter_members db q hits out :
  hardFilter db q hits = Some out -> forall h, In h out -> In h hits.
Proof.
  unfold hardFilter. destruct (askedBestProfForCourse db q); [|discriminate].
  set (P := List.filter _ (List.filter _ hits)).
  destruct P as [|p ps] eqn:EP; [discriminate|]. rewrite <- EP.
  intros H. result_of H. intros h Hh. apply firstn_In, in_app_iff in Hh as [Hh|Hh].
  - apply firstn_In in Hh. subst P. apply filter_In in Hh as [Hh _].
    now apply filter_In in Hh.
  - destruct (List.find _ hits) as [c|] eqn:Ef; [|destruct Hh].
    destruct Hh as [<-|[]]. now apply find_some in Ef.
Qed.

Lemma web_fallback_parts cfg f db q hits out :
  webFallback cfg f db q hits = Ok out ->
  exists extra, out = firstn 3 (hits ++ extra) /\ Forall webMade extra.
Proof.
  unfold webFallback.
  repeat match goal with
         | |- context [bind ?o _] => destruct o; cbn [bind]; [|discriminate]
         end.
  destruct (uniqueNames _ _) as [|c u] eqn:Eu.
  - destruct (firstn 5 _) as [|t ts] eqn:El; intros H; result_of H.
    + exists []. rewrite app_nil_r. split; [reflexivity|constructor].
    + eexists. split; [reflexivity|]. repeat constructor.
  - intros H; result_of H. eexists. split; [reflexivity|].
    apply List.Forall_forall. intros h Hh. apply in_map_iff in Hh as (x & <- & _).
    apply webHit_made.
Qed.

Section Grounded.
Variable sf : float -> jsstring.
Variable em : jsstring -> option (list float).
Variable cfg : bool.
Variable f : jsstring -> nat -> fetch_result.
Variable db : school_db.
Variable idx : list index_item.
Hypothesis idx_from : forall it, In it idx -> fromSchoolFile db (it_data it).

Lemma semanticStage_grounded q hits h :
  semanticStage em idx q = Some hits -> In h hits -> grounded db h.
Proof.
  unfold semanticStage. destruct idx as [|i0 idx'] eqn:Ei; [discriminate|].
  rewrite <- Ei. destruct (em q) as [v|]; [|discriminate].
  destruct (top idx v) as [|x t] eqn:Et; [discriminate|]. rewrite <- Et.
  intros H. result_of H. intros Hh. apply in_map_iff in Hh as (s & <- & Hs).
  apply fromSchoolFile_grounded. cbn [embHit data].
  unfold top in Hs. apply firstn_In in Hs. unfold qualifying in Hs.
  apply filter_In in Hs as [Hs _]. unfold sims in Hs. apply sortBy_In in Hs.
  unfold scored in Hs. apply in_map_iff in Hs as (it & <- & Hit). cbn [fst].
  apply idx_from. rewrite <- Ei. exact Hit.
Qed.

Lemma sortedHits_grounded q h : In h (sortedHits sf db q) -> grounded db h.
Proof.
  intros H. apply fromSchoolFile_grounded.
  unfold sortedHits in H. apply sortBy_In in H. now apply keywordHits_In in H.
Qed.

Lemma majorHits_grounded q h : In h (majorHits db q) -> grounded db h.
Proof.
  unfold majorHits. destruct (isMajorReqQuery q); [|intros []].
  intros H. apply firstn_In in H. apply sortBy_In in H.
  apply in_flat_map in H as (m & Hm & Hh).
  destruct (PrimFloat.ltb _ _); [|destruct Hh]. destruct Hh as [<-|[]]. exact Hm.
Qed.

Lemma laterStages_grounded q hits h :
  laterStages sf em cfg f db idx q = Ok hits -> In h hits -> grounded db h.
Proof.
  unfold laterStages.
  destruct (semanticStage em idx q) as [e|] eqn:Es.
  { intros H. result_of H. exact (semanticStage_grounded q e h Es). }
  destruct (hardFilter db q _) as [o|] eqn:Eh.
  { intros H. result_of H. intros Hh.
    apply (sortedHits_grounded q). exact (hard_filter_members _ _ _ _ Eh h Hh). }
  destruct (majorHits db q) as [|m ms] eqn:Em.
  2:{ intros H. result_of H. rewrite <- Em. apply majorHits_grounded. }
  destruct (_ && _).
  - intros H Hh.
    destruct (web_fallback_parts cfg f db q _ _ H) as (extra & -> & Hx).
    apply firstn_In, in_app_iff in Hh as [Hh|Hh].
    + now apply (sortedHits_grounded q).
    + apply webMade_grounded. exact (proj1 (List.Forall_forall _ _) Hx h Hh).
  - intros H. result_of H. intros Hh. apply firstn_In in Hh.
    now apply (sortedHits_grounded q).
Qed.

Lemma search_grounded S q s' hits h :
  searchLocalKB sf em cfg f db idx S q = (s', Ok hits) -> In h hits -> grounded db h.
Proof.
  unfold searchLocalKB.
  destruct (exactMatches db q) as [|p t] eqn:Ee.
  2:{ rewrite <- Ee. intros [= _ <-] Hh. apply in_map_iff in Hh as (x & <- & Hx).
      unfold exactMatches in Hx. apply filter_In in Hx as [Hx _]. exact Hx. }
  destruct (match mentioned db q with [] => _ | _ => _ end) as [|p t] eqn:Ep.
  2:{ rewrite <- Ep. intros [= _ <-] Hh. apply in_map_iff in Hh as (x & <- & Hx).
      destruct (mentioned db q); [|destruct Hx].
      unfold profMatches in Hx. apply filter_In in Hx as [Hx _]. exact Hx. }
  destruct (parseRankIntent q) as [tags asked].
  destruct (courseCodesInQuery db q) as [|code rest];
    [intros [= _ H]; now apply (laterStages_grounded q hits)|].
  destruct asked; [|intros [= _ H]; now apply (laterStages_grounded q hits)].
  destruct (chosenRanked db tags code) as [|r t] eqn:Ec;
    [intros [= _ H]; now apply (laterStages_grounded q hits)|].
  rewrite <- Ec. intros H.
  assert (E : Ok (firstn 3 (map (rankingHit db code) (chosenRanked db tags code)
                            ++ courseCard db code)) = Ok hits) by congruence.
  result_of E. intros Hh. apply firstn_In, in_app_iff in Hh as [Hh|Hh].
  - apply in_map_iff in Hh as (x & <- & Hx). left. exists x. cbn.
    split; [|reflexivity]. now apply (chosenRanked_In db tags).
  - now apply (courseCard_grounded db code).
Qed.

End Grounded.

(** X20. Every hit of a search holds a record of the school file, as long
    as the index does: a deadline, professor, course or major hit is an entry
    of the file; a ranking hit names an entry of the ranking list of its
    course, unless it is made of web results; a FAQ hit is an entry of the
    file or the card of web links. The index that the build leaves, and
    every part of it, holds records of the file only. *)
Theorem search_hits_grounded :
  forall sf em cfg f db idx (SESSION s' : session) (query : jsstring) (hits : list hit),
    (forall it, In it idx -> fromSchoolFile db (it_data it)) ->
    searchLocalKB sf em cfg f db idx SESSION query = (s', Ok hits) ->
    (forall h, In h hits -> grounded db h) /\
    (forall sf' em' n it,
       In it (firstn n (buildIndex sf' em' db)) -> fromSchoolFile db (it_data it)).
Proof.
  intros sf em cfg f db idx S s' q hits Hidx H. split.
  - intros h. now apply (search_grounded sf em cfg f db idx Hidx S q s' hits).
  - intros sf' em' n it Hit. apply firstn_In in Hit. now apply (buildIndex_from sf' em').
Qed.

Lemma search_hits_grounded_witness :
  (forall h,
     In h [{| score := SNum 100%float; data := PDeadline addDeadline |};
           {| score := SNum 100%float; data := PCourse cis22a |};
           {| score := SNum 100%float; data := PFaq (faqNamed "tutoring") |}] ->
     grounded tutorDb h) /\
  (forall sf' em' n it,
     In it (firstn n (buildIndex sf' em' tutorDb)) -> fromSchoolFile tutorDb (it_data it)).
Proof.
  apply (search_hits_grounded showNothing firstAxis false fetchFails tutorDb tutorIndex
           SESSION0 SESSION0 (lit "where do I find a tutor")).
  - intros it H. vm_compute in H. vm_compute.
    repeat (destruct H as [<-|H]; [tauto|]). destruct H.
  - vm_compute. reflexivity.
Defined.

(** ** The prompt sent to the completion collaborator *)

Lemma truncate_length txt : (length (truncate txt) <= 603)%nat.
Proof.
  destruct (Nat.le_gt_cases (length txt) 600) as [H|H].
  - rewrite truncate_short by assumption. lia.
  - destruct (truncate_long txt H) as [_ ->]. lia.
Qed.

Lemma join_length sep (l : list jsstring) B :
  (forall x, In x l -> (length x <= B)%nat) ->
  (length (join sep l) <= length l * B + (length l - 1) * length sep)%nat.
Proof.
  induction l as [|x l IH]; intros H; [cbn; lia|].
  destruct l as [|y l].
  - cbn. specialize (H x (or_introl eq_refl)). lia.
  - change (join sep (x :: y :: l)) with (x ++ sep ++ join sep (y :: l)).
    rewrite !length_app.
    specialize (IH (fun z Hz => H z (or_intror Hz))).
    specialize (H x (or_introl eq_refl)). cbn [length] in *.
    rewrite Nat.sub_succ, Nat.sub_0_r in *. nia.
Qed.

Lemma snippet_length sf i h : (i < 5)%nat -> (length (snippet sf i h) <= 626)%nat.
Proof.
  intros Hi. unfold snippet. rewrite !length_app.
  pose proof (truncate_length (formatHit sf h)) as Ht.
  assert (Hn : length (ofN (N.of_nat (S i))) = 1%nat).
  { do 5 (destruct i as [|i]; [reflexivity|]). lia. }
  assert (Hy : (length (typeName (htype h)) <= 9)%nat).
  { destruct (htype h); vm_compute; lia. }
  change (length (lit "Snippet ")) with 8%nat.
  change (length (lit " [")) with 2%nat.
  change (length (lit "]:")) with 2%nat.
  change (length nl) with 1%nat. lia.
Qed.

(** X21. The prompt has four to six messages: the system prompt first and
    the user's message, unchanged, last and alone in the user role. The
    context is made of at most five snippets, each cut to 600 units and an
    ellipsis, so that it is never longer than 3138 units whatever the school
    file holds; the context message is left out when there is no snippet. *)
Theorem prompt_shape :
  forall sf (i : intent) (filteredHits : list hit) (userMessage : jsstring),
    let ms := messages sf i filteredHits userMessage in
    (4 <= length ms <= 6)%nat /\
    head ms = Some (System, systemPrompt) /\
    (exists before, ms = before ++ [(User, userMessage)] /\
                    Forall (fun m => fst m = System) before) /\
    (length (contextSnippets sf filteredHits) <= 3138)%nat /\
    (filteredHits = [] ->
       ms = [(System, systemPrompt)]
            ++ (if bool_decide (i = prof_ranking) then [(System, antiMakeupText)] else [])
            ++ [(System, classFullPrompt);
                (System, lit "Detected intent: " ++ intentName i);
                (User, userMessage)]).
Proof.
  intros sf i fh msg ms. subst ms. unfold messages.
  set (a := if nonEmpty (antiMakeup i fh) then _ else _).
  set (c := if nonEmpty (contextSnippets sf fh) then _ else _).
  assert (Ha : (length a <= 1)%nat /\ Forall (fun m => fst m = System) a).
  { subst a. destruct (nonEmpty (antiMakeup i fh)); cbn [length]; (split; [lia|]);
    repeat constructor. }
  assert (Hc : (length c <= 1)%nat /\ Forall (fun m => fst m = System) c).
  { subst c. destruct (nonEmpty (contextSnippets sf fh)); cbn [length]; (split; [lia|]);
    repeat constructor. }
  destruct Ha as [La Fa], Hc as [Lc Fc].
  split; [|split; [|split; [|split]]].
  - rewrite !length_app. cbn [length]. lia.
  - reflexivity.
  - exists ([(System, systemPrompt)] ++ a
            ++ [(System, classFullPrompt);
                (System, lit "Detected intent: " ++ intentName i)] ++ c).
    split; [now rewrite <- !app_assoc|].
    repeat (apply Forall_app; split); auto; repeat constructor.
  - unfold contextSnippets.
    assert (Hu : (length (usedHits fh) <= 5)%nat).
    { unfold usedHits, maxSnippets. rewrite length_firstn. lia. }
    pose proof (join_length (nl ++ nl) (imap (snippet sf) (usedHits fh)) 626) as H.
    rewrite length_imap in H.
    change (length (nl ++ nl)) with 2%nat in H.
    assert (Hx : forall x, In x (imap (snippet sf) (usedHits fh)) -> (length x <= 626)%nat).
    { intros x Hx. apply list_elem_of_In, elem_of_lookup_imap in Hx as (k & h & -> & Hk).
      apply snippet_length. apply lookup_lt_Some in Hk. lia. }
    specialize (H Hx). nia.
  - intros ->. subst a c. unfold antiMakeup, contextSnippets, usedHits.
    cbn [firstn maxSnippets imap join nonEmpty existsb].
    destruct i; reflexivity.
Qed.

(** ** Rank intent and intent *)

(** X22. A ranking is asked for exactly when at least one tag is wanted,
    so the ranking lookup always filters by a tag. The tags are among
    [second_best], [easiest], [best_teaching] and [best_overall], without
    repetition, and [best_overall] is wanted only when no other tag is. *)
Theorem rank_intent_tags :
  forall query : jsstring,
    let tags := fst (parseRankIntent query) in
    let asked := snd (parseRankIntent query) in
    (asked = true <-> tags <> []) /\
    List.NoDup tags /\
    (forall t, In t tags ->
       In t [lit "second_best"; lit "easiest"; lit "best_teaching"; lit "best_overall"]) /\
    (In (lit "best_overall") tags -> tags = [lit "best_overall"]) /\
    parseRankIntent (toLowerCase query) = parseRankIntent query.
Proof.
  intros q tags asked. subst tags asked.
  split; [|split; [|split; [|split]]].
  5:{ unfold parseRankIntent. now rewrite toLowerCase_idem. }
  all: unfold parseRankIntent; cbv zeta;
    generalize (test reBestProf (toLowerCase q)) (test reTop (toLowerCase q))
               (test reSecondBest (toLowerCase q)) (test reEasiest (toLowerCase q))
               (test reTeach (toLowerCase q));
    intros b1 b2 b3 b4 b5.
  - destruct b1, b2, b3, b4, b5; cbn; split; congruence.
  - destruct b1, b2, b3, b4, b5; cbn [fst app orb];
      repeat constructor; cbn [In]; intros H;
      repeat (destruct H as [H|H]; [vm_compute in H; discriminate|]); exact H.
  - intros t. destruct b1, b2, b3, b4, b5; cbn [fst app orb In]; tauto.
  - destruct b1, b2, b3, b4, b5; cbn [fst app orb In]; intros H; try reflexivity;
      repeat (destruct H as [H|H]; [vm_compute in H; discriminate|]); destruct H.
Qed.

Lemma words_lower q : words (toLowerCase q) = words q.
Proof. unfold words. now rewrite toLowerCase_idem. Qed.

(** X23. The intent does not depend on the case of the ASCII letters of
    the message, and depends on the session only through whether a course is
    remembered. A message that asks for a best, top or easiest professor is
    classified [major_requirements] or [prof_ranking], never [class_full];
    without a remembered course, [class_full] needs one of the words for a
    full class; and with no professor in the school file no message is
    classified [prof_lookup]. *)
Theorem intent_facts :
  forall (db : school_db) (SESSION : session) (q : jsstring),
    detectIntent db SESSION (toLowerCase q) = detectIntent db SESSION q /\
    (forall S', isSet (lastCourse S') = isSet (lastCourse SESSION) ->
       detectIntent db S' q = detectIntent db SESSION q) /\
    (test reRankedProfI q = true ->
       detectIntent db SESSION q = major_requirements \/
       detectIntent db SESSION q = prof_ranking) /\
    (isSet (lastCourse SESSION) = false -> detectIntent db SESSION q = class_full ->
       test reClassFull (toLowerCase q) = true) /\
    (professors db = [] -> detectIntent db SESSION q <> prof_lookup).
Proof.
  intros db S q. split; [|split; [|split; [|split]]].
  - unfold detectIntent. now rewrite words_lower, toLowerCase_idem.
  - intros S' H. unfold detectIntent. now rewrite H.
  - intros H. unfold detectIntent. rewrite rankedProf_tests, H.
    destruct (isMajorReqQuery _); auto.
  - intros H. unfold detectIntent. rewrite H, andb_false_r.
    destruct (isMajorReqQuery _); [discriminate|].
    destruct (test reRankedProf _); [discriminate|].
    destruct (_ || _); [discriminate|].
    destruct (test reClassFull _); [reflexivity|].
    destruct (test reTutoring _); [discriminate|].
    destruct (test reDeadline _); discriminate.
  - intros H. unfold detectIntent. rewrite H. cbn [map truthyStrings List.filter existsb].
    assert (E : existsb (fun _ : jsstring => false) (words q) = false).
    { induction (words q); [reflexivity|assumption]. }
    rewrite E. cbn [andb orb negb].
    destruct (isMajorReqQuery _); [discriminate|].
    destruct (test reRankedProf _); [discriminate|].
    destruct (test reClassFull _); [discriminate|].
    destruct (test reTutoring _); [discriminate|].
    destruct (test reDeadline _); [discriminate|].
    destruct (_ && _); discriminate.
Qed.

(** ** What the matcher accepts *)

Lemma adv_props : forall j s,
  (j <= length (ahead s))%nat ->
  at_ (adv j s) = (at_ s + j)%nat /\ ahead (adv j s) = skipn j (ahead s).
Proof.
  induction j as [|j IH]; intros s H.
  - cbn. split; [lia|reflexivity].
  - cbn [adv]. destruct (ahead s) as [|ch tl] eqn:E; [cbn in H; lia|].
    cbn [length] in H. destruct (IH (Cursor (S (at_ s)) (Some ch) tl)) as [I1 I2].
    { cbn. lia. }
    cbn [at_ ahead] in *. split; [lia|]. exact I2.
Qed.

Lemma skipn_cons_inv {A} : forall n (t : list A) ch tl,
  skipn n t = ch :: tl -> skipn (S n) t = tl /\ (n < length t)%nat.
Proof.
  induction n as [|n IH]; intros t ch tl H.
  - change (t = ch :: tl) in H. subst t. cbn. split; [reflexivity|lia].
  - destruct t as [|x t]; [discriminate|]. cbn [skipn] in H.
    destruct (IH t ch tl H) as [I1 I2]. cbn [length]. split; [exact I1|lia].
Qed.

Lemma cursorOf_start t : cursorOf t (start t).
Proof. split; cbn; [reflexivity|lia]. Qed.

Lemma cursorOf_step t s s' : cursorOf t s -> step s = Some s' -> cursorOf t s'.
Proof.
  intros [H1 H2]. unfold step. destruct (ahead s) as [|ch tl] eqn:E; [discriminate|].
  intros [= <-]. symmetry in H1. destruct (skipn_cons_inv _ _ _ _ H1) as [I1 I2].
  split; cbn; [now symmetry|lia].
Qed.

Lemma cursorOf_adv t : forall j s,
  cursorOf t s -> (j <= length (ahead s))%nat -> cursorOf t (adv j s).
Proof.
  induction j as [|j IH]; intros s Hs Hj; [exact Hs|].
  cbn [adv]. destruct (ahead s) as [|ch tl] eqn:E; [exact Hs|].
  apply IH.
  - apply (cursorOf_step t s); [exact Hs|]. unfold step. now rewrite E.
  - cbn in *. lia.
Qed.

Section MatcherFacts.
Context {A : Type}.

Lemma repLoop_chr_sound (P : N -> bool) g lo hi (k : cursor -> caps -> option A) :
  forall fuel n s c x,
    repLoop (mt (Chr P)) g lo hi k fuel n s c = Some x ->
    exists j,
      (lo <= n + j)%nat /\
      (forall h, hi = Some h -> (n <= h)%nat -> (n + j <= h)%nat) /\
      (j <= length (ahead s))%nat /\
      forallb P (firstn j (ahead s)) = true /\
      k (adv j s) c = Some x.
Proof.
  induction fuel as [|fuel IH]; intros n s c x H; [discriminate|].
  cbn [repLoop] in H.
  assert (Hc : ((lo <=? n)%nat = true /\ k s c = Some x) \/
               (below n hi = true /\
                mt (Chr P) s c (fun s' c' =>
                  if (lo <=? n)%nat && (at_ s' =? at_ s)%nat then None
                  else repLoop (mt (Chr P)) g lo hi k fuel (S n) s' c') = Some x)).
  { destruct g.
    - destruct (below n hi).
      + destruct (mt (Chr P) s c _) as [y|] eqn:E.
        * right. split; [reflexivity|]. congruence.
        * left. destruct (lo <=? n)%nat; [auto|discriminate].
      + left. destruct (lo <=? n)%nat; [auto|discriminate].
    - destruct (lo <=? n)%nat.
      + destruct (k s c) as [y|] eqn:E.
        * left. split; [reflexivity|]. congruence.
        * right. destruct (below n hi); [auto|discriminate].
      + right. destruct (below n hi); [auto|discriminate]. }
  destruct Hc as [[H1 H2]|[H1 H2]].
  - exists 0%nat. apply Nat.leb_le in H1. cbn.
    repeat split; auto; lia.
  - cbn [mt] in H2. destruct (ahead s) as [|ch tl] eqn:E; [discriminate|].
    destruct (P ch) eqn:EP; [|discriminate].
    destruct (_ && _); [discriminate|].
    apply IH in H2 as (j & J1 & J2 & J3 & J4 & J5). cbn [ahead] in *.
    exists (S j). cbn [adv firstn forallb length]. rewrite E, EP, J4.
    repeat split; auto; try lia.
    intros h -> Hh. unfold below in H1. apply Nat.ltb_lt in H1.
    specialize (J2 h eq_refl). lia.
Qed.

Lemma mt_rep_chr_sound (P : N -> bool) g lo hi s c (k : cursor -> caps -> option A) x :
  mt (Rep g lo hi (Chr P)) s c k = Some x ->
  exists j,
    (lo <= j)%nat /\ (forall h, hi = Some h -> (j <= h)%nat) /\
    (j <= length (ahead s))%nat /\
    forallb P (firstn j (ahead s)) = true /\
    k (adv j s) c = Some x.
Proof.
  intros H. cbn [mt] in H. apply repLoop_chr_sound in H as (j & J1 & J2 & J3 & J4 & J5).
  exists j. repeat split; auto. intros h Hh. specialize (J2 h Hh). lia.
Qed.

Lemma mt_wordb s c (k : cursor -> caps -> option A) x :
  mt WordB s c k = Some x -> k s c = Some x.
Proof.
  cbn [mt]. destruct (xorb _ _); [auto|discriminate].
Qed.

End MatcherFacts.

Lemma searchFrom_sound t r : forall fuel s b e c,
  searchFrom fuel r s = Some (b, e, c) -> cursorOf t s ->
  cursorOf t b /\ matchAt r b = Some (e, c).
Proof.
  induction fuel as [|fuel IH]; intros s b e c H Hs.
  - cbn [searchFrom] in H. destruct (matchAt r s) as [[e' c']|] eqn:E.
    + injection H as <- <- <-. auto.
    + discriminate.
  - cbn [searchFrom] in H. destruct (matchAt r s) as [[e' c']|] eqn:E.
    + injection H as <- <- <-. auto.
    + destruct (step s) as [s'|] eqn:Es; [|discriminate].
      apply (IH s'); [exact H|]. now apply (cursorOf_step t s).
Qed.

Lemma matchAllFrom_sound t r :
  (forall b e c, cursorOf t b -> matchAt r b = Some (e, c) -> cursorOf t e) ->
  forall fuel s b e c,
    In (b, e, c) (matchAllFrom fuel r s) -> cursorOf t s ->
    cursorOf t b /\ matchAt r b = Some (e, c).
Proof.
  intros Hend. induction fuel as [|fuel IH]; intros s b e c H Hs; [destruct H|].
  cbn [matchAllFrom] in H. unfold search in H.
  destruct (searchFrom _ r s) as [[[b' e'] c']|] eqn:E; [|destruct H].
  destruct (searchFrom_sound t r _ _ _ _ _ E Hs) as [Hb Hm].
  destruct H as [[= <- <- <-]|H]; [auto|].
  pose proof (Hend _ _ _ Hb Hm) as He.
  destruct (at_ e' =? at_ b')%nat.
  - destruct (step e') as [e''|] eqn:Es; [|destruct H].
    apply (IH e''); [exact H|]. now apply (cursorOf_step t e').
  - now apply (IH e').
Qed.

(** ** The form of an extracted course code *)

Lemma mt_seq {A} a b s c (k : cursor -> caps -> option A) :
  mt (Seq a b) s c k = mt a s c (fun s' c' => mt b s' c' k).
Proof. reflexivity. Qed.

Lemma mt_grp {A} i a s c (k : cursor -> caps -> option A) :
  mt (Grp i a) s c k = mt a s c (fun s' c' => k s' ((i, (at_ s, at_ s')) :: c')).
Proof. reflexivity. Qed.

Lemma matchAt_courseCode s e caps :
  matchAt reCourseCode s = Some (e, caps) ->
  exists j1 js j2 j3,
    (2 <= j1 <= 5)%nat /\ (js <= 1)%nat /\ (1 <= j2 <= 3)%nat /\ (j3 <= 1)%nat /\
    (j1 + js + j2 + j3 <= length (ahead s))%nat /\
    forallb isUpperAZ (firstn j1 (ahead s)) = true /\
    forallb isDigit (firstn j2 (skipn (j1 + js) (ahead s))) = true /\
    forallb isUpperAZ (firstn j3 (skipn (j1 + js + j2) (ahead s))) = true /\
    caps = [(2, (at_ s + j1 + js, at_ s + j1 + js + j2 + j3));
            (1, (at_ s, at_ s + j1))]%nat /\
    e = adv j3 (adv j2 (adv js (adv j1 s))).
Proof.
  unfold matchAt, reCourseCode. cbn [seqs]. unfold range, opt, upperAZ, digit, space.
  intros H.
  rewrite mt_seq in H. apply mt_wordb in H. cbv beta in H.
  rewrite mt_seq, mt_grp in H.
  apply mt_rep_chr_sound in H as (j1 & A1 & A2 & A3 & A4 & H). cbv beta in H.
  specialize (A2 _ eq_refl).
  destruct (adv_props j1 s A3) as [P1 Q1].
  rewrite mt_seq in H.
  apply mt_rep_chr_sound in H as (js & B1 & B2 & B3 & B4 & H). cbv beta in H.
  specialize (B2 _ eq_refl).
  destruct (adv_props js (adv j1 s) B3) as [P2 Q2].
  rewrite mt_seq, mt_grp, mt_seq in H.
  apply mt_rep_chr_sound in H as (j2 & C1 & C2 & C3 & C4 & H). cbv beta in H.
  specialize (C2 _ eq_refl).
  destruct (adv_props j2 (adv js (adv j1 s)) C3) as [P3 Q3].
  apply mt_rep_chr_sound in H as (j3 & D1 & D2 & D3 & D4 & H). cbv beta in H.
  specialize (D2 _ eq_refl).
  destruct (adv_props j3 (adv j2 (adv js (adv j1 s))) D3) as [P4 Q4].
  apply mt_wordb in H. injection H as <- <-.
  rewrite Q3, Q2, Q1 in D3, D4. rewrite Q2, Q1 in C3, C4. rewrite Q1 in B3.
  rewrite !skipn_skipn in *. rewrite !length_skipn in *.
  exists j1, js, j2, j3.
  replace (j1 + js + j2)%nat with (j2 + (js + j1))%nat by lia.
  replace (j1 + js)%nat with (js + j1)%nat by lia.
  rewrite ?P4, ?P3, ?P2, ?P1.
  replace (j2 + (js + j1))%nat with (j2 + js + j1)%nat by lia.
  repeat split; auto; lia.
Qed.

Lemma courseCode_ends t b e c :
  cursorOf t b -> matchAt reCourseCode b = Some (e, c) -> cursorOf t e.
Proof.
  intros Hb H. apply matchAt_courseCode in H
    as (j1 & js & j2 & j3 & A & B & C & D & L & _ & _ & _ & _ & ->).
  destruct (adv_props j1 b) as [P1 Q1]; [lia|].
  assert (L1 : (js <= length (ahead (adv j1 b)))%nat) by (rewrite Q1, length_skipn; lia).
  destruct (adv_props js _ L1) as [P2 Q2].
  assert (L2 : (j2 <= length (ahead (adv js (adv j1 b))))%nat).
  { rewrite Q2, Q1, !length_skipn. lia. }
  destruct (adv_props j2 _ L2) as [P3 Q3].
  assert (L3 : (j3 <= length (ahead (adv j2 (adv js (adv j1 b)))))%nat).
  { rewrite Q3, Q2, Q1, !length_skipn. lia. }
  apply cursorOf_adv; [|exact L3]. apply cursorOf_adv; [|exact L2].
  apply cursorOf_adv; [|exact L1]. apply cursorOf_adv; [exact Hb|lia].
Qed.

Lemma firstn_add {A} a : forall b (l : list A),
  firstn (a + b) l = firstn a l ++ firstn b (skipn a l).
Proof.
  induction a as [|a IH]; intros b l; [reflexivity|].
  destruct l as [|x l]; [cbn; now rewrite firstn_nil|].
  cbn. f_equal. apply IH.
Qed.

Lemma trim_fixed s :
  match s with c :: _ => isSpace c = false | [] => True end ->
  match rev s with c :: _ => isSpace c = false | [] => True end ->
  trim s = s.
Proof.
  intros H1 H2. unfold trim, trimEnd.
  rewrite (trimStart_nosp s H1), (trimStart_nosp (rev s) H2). apply rev_involutive.
Qed.

Lemma upper_not_sep c : isUpperAZ c = true -> isSep c = false /\ isLowerAZ c = false.
Proof.
  unfold isUpperAZ. intros H. apply andb_true_iff in H as [H1 H2].
  apply N.leb_le in H1, H2. unfold isSep, isSpace, isLowerAZ.
  repeat match goal with
         | |- context [(?a <=? ?b)] => destruct (N.leb_spec a b); try lia
         | |- context [(?a =? ?b)] => destruct (N.eqb_spec a b); try lia
         end; auto.
Qed.

Lemma digit_not_sep c : isDigit c = true -> isSep c = false /\ isLowerAZ c = false.
Proof.
  unfold isDigit. intros H. apply andb_true_iff in H as [H1 H2].
  apply N.leb_le in H1, H2. unfold isSep, isSpace, isLowerAZ.
  repeat match goal with
         | |- context [(?a <=? ?b)] => destruct (N.leb_spec a b); try lia
         | |- context [(?a =? ?b)] => destruct (N.eqb_spec a b); try lia
         end; auto.
Qed.

Lemma tidy_plain : forall l rest b,
  (forall c, In c l -> isSep c = false) ->
  tidy b (l ++ rest) = match l with [] => tidy b rest | _ :: _ => tidy false rest end.
Proof.
  induction l as [|x l IH]; intros rest b H; [reflexivity|].
  cbn [app tidy]. rewrite (H x) by now left.
  rewrite IH by (intros c Hc; apply H; now right).
  destruct l; reflexivity.
Qed.

Lemma toUpperCase_plain l :
  (forall c, In c l -> isLowerAZ c = false) -> toUpperCase l = l.
Proof.
  intros H. unfold toUpperCase. rewrite <- (map_id l) at 2. apply map_ext_in.
  intros c Hc. unfold upperChar. now rewrite (H c Hc).
Qed.

Lemma codeShaped_fixed code :
  codeShaped code -> trim code = code /\ canonCourse code = code.
Proof.
  intros (dept & ds & sfx & -> & Ld & Ud & Ls & Ds & Lx & Ux).
  rewrite forallb_forall in Ud, Ds, Ux.
  assert (Ht : trim (dept ++ [32] ++ ds ++ sfx) = dept ++ [32] ++ ds ++ sfx).
  { apply trim_fixed.
    - destruct dept as [|c dept]; [cbn in Ld; lia|]. cbn.
      apply isSep_space, upper_not_sep, Ud. now left.
    - rewrite !rev_app_distr.
      destruct sfx as [|c sfx].
      + cbn [rev app]. destruct (rev ds) as [|d r] eqn:E.
        * apply (f_equal (@length N)) in E. rewrite length_rev in E. cbn in E. lia.
        * cbn. apply isSep_space, digit_not_sep, Ds, in_rev. rewrite E. now left.
      + destruct sfx; [|cbn in Lx; lia]. cbn.
        apply isSep_space, upper_not_sep, Ux. now left. }
  split; [exact Ht|].
  rewrite canonCourse_unfold.
  assert (Hu : toUpperCase (dept ++ [32] ++ ds ++ sfx) = dept ++ [32] ++ ds ++ sfx).
  { apply toUpperCase_plain. intros c. rewrite !in_app_iff.
    intros [H|[[<-|[]]|[H|H]]]; [apply upper_not_sep, Ud, H|reflexivity
                                |apply digit_not_sep, Ds, H|apply upper_not_sep, Ux, H]. }
  rewrite Hu.
  assert (Hy : tidy false (dept ++ [32] ++ ds ++ sfx) = true).
  { rewrite tidy_plain by (intros c Hc; now apply upper_not_sep, Ud).
    destruct dept as [|c0 dept]; [cbn in Ld; lia|].
    cbn [app tidy]. change (isSep 32) with true. cbv iota. cbn [negb andb N.eqb Pos.eqb].
    rewrite <- (app_nil_r (ds ++ sfx)).
    rewrite tidy_plain.
    - destruct (ds ++ sfx) eqn:E; [|reflexivity].
      apply (f_equal (@length N)) in E. rewrite length_app in E. cbn in E. lia.
    - intros c. rewrite in_app_iff.
      intros [H|H]; [apply digit_not_sep, Ds, H|apply upper_not_sep, Ux, H]. }
  rewrite (tidy_fixed _ _ Hy). exact Ht.
Qed.

Lemma matchAll_courseCode t b e c :
  In (b, e, c) (matchAll reCourseCode t) ->
  codeShaped (groupOr t c 1 ++ lit " " ++ groupOr t c 2).
Proof.
  intros H. unfold matchAll in H.
  destruct (matchAllFrom_sound t reCourseCode (courseCode_ends t) _ _ _ _ _ H
              (cursorOf_start t)) as [[Hb1 Hb2] Hm].
  apply matchAt_courseCode in Hm
    as (j1 & js & j2 & j3 & A & B & C & D & L & U1 & U2 & U3 & -> & _).
  unfold groupOr, group. cbn [List.find fst snd Nat.eqb]. unfold slice.
  replace (at_ b + j1 - at_ b)%nat with j1 by lia.
  replace (at_ b + j1 + js + j2 + j3 - (at_ b + j1 + js))%nat with (j2 + j3)%nat by lia.
  replace (at_ b + j1 + js)%nat with ((j1 + js) + at_ b)%nat by lia.
  rewrite <- skipn_skipn, <- Hb1, firstn_add, skipn_skipn.
  replace (j2 + (j1 + js))%nat with (j1 + js + j2)%nat by lia.
  exists (firstn j1 (ahead b)), (firstn j2 (skipn (j1 + js) (ahead b))),
         (firstn j3 (skipn (j1 + js + j2) (ahead b))).
  rewrite !length_firstn, !length_skipn.
  repeat split; auto; lia.
Qed.

(** X24. Every course code taken from a text has the form of two to five
    capital letters, one space, one to three digits and at most one capital
    letter; it is left unchanged by the canonicalizer, so that canonicalizing
    the extracted codes changes nothing. The codes of a text come without
    repetition, and they are the same for the text in upper case. *)
Theorem extracted_codes_shaped :
  forall text : jsstring,
    (forall code, In code (extractCourseCodes text) ->
       codeShaped code /\ canonCourse code = code) /\
    map canonCourse (extractCourseCodes text) = extractCourseCodes text /\
    List.NoDup (extractCourseCodes text) /\
    extractCourseCodes (toUpperCase text) = extractCourseCodes text.
Proof.
  intros text.
  assert (H0 : forall code, In code (extractCourseCodes text) ->
                 codeShaped code /\ canonCourse code = code); [|split; [exact H0|split; [|split]]].
  2:{ rewrite <- (map_id (extractCourseCodes text)) at 2. apply map_ext_in.
      intros c Hc. now apply H0. }
  - intros code H. unfold extractCourseCodes in H. apply (proj1 (uniq_In _ _)) in H.
    apply in_map_iff in H as ([[b e] c] & <- & Hc).
    apply matchAll_courseCode in Hc.
    destruct (codeShaped_fixed _ Hc) as [Ht Hf]. rewrite Ht. auto.
  - apply uniq_NoDup.
  - unfold extractCourseCodes. now rewrite toUpperCase_idem.
Qed.

(** ** The two sorts of a ranking list *)

Lemma insertBy_ext {A} (gt gt' : A -> A -> bool) x l :
  (forall b, In b l -> gt x b = gt' x b) -> insertBy gt x l = insertBy gt' x l.
Proof.
  induction l as [|y l IH]; intros H; [reflexivity|].
  cbn [insertBy]. rewrite (H y) by now left.
  destruct (gt' x y); [|reflexivity]. f_equal. apply IH. intros b Hb. apply H. now right.
Qed.

Lemma sortBy_ext {A} (gt gt' : A -> A -> bool) l :
  (forall a b, In a l -> In b l -> gt a b = gt' a b) -> sortBy gt l = sortBy gt' l.
Proof.
  induction l as [|x l IH]; intros H; [reflexivity|].
  cbn [sortBy fold_right]. fold (sortBy gt l). fold (sortBy gt' l).
  rewrite IH by (intros a b Ha Hb; apply H; now right).
  apply insertBy_ext. intros b Hb. apply sortBy_In in Hb. apply H; [now left|now right].
Qed.

(** X25. The search sorts a ranking list by [rank || 999] and the handoff
    by [rank ?? 999]. The two orders are the same for a list in which no
    entry has rank 0, so the handoff then walks down the list in the order
    in which the search ranks it. *)
Theorem sorts_agree :
  forall l : list ranking_entry,
    (forall r, In r l -> k_rank r <> Some 0%Z) ->
    sortedForHandoff l = sortedForSearch l.
Proof.
  intros l H. unfold sortedForHandoff, sortedForSearch. apply sortBy_ext.
  assert (E : forall r, In r l -> rankNullish 999 r = rankOr 999 r).
  { intros r Hr. specialize (H r Hr). unfold rankNullish, rankOr.
    destruct (k_rank r) as [z|]; [|reflexivity].
    destruct (Z.eqb_spec z 0); [congruence|reflexivity]. }
  intros a b Ha Hb. now rewrite (E a Ha), (E b Hb).
Qed.

Lemma sorts_agree_witness :
  sortedForHandoff [rankedPlain "Prof Y" 2; rankedPlain "Prof X" 1]
  = sortedForSearch [rankedPlain "Prof Y" 2; rankedPlain "Prof X" 1].
Proof.
  apply sorts_agree. intros r [<-|[<-|[]]]; discriminate.
Defined.

(** ** The bonus of a professor *)

Lemma fold_bonus (T : jsstring -> bool) (k : Z) codes : forall z,
  fold_left (fun b code => if T code then (b + k)%Z else b) codes z
  = (z + k * Z.of_nat (length (List.filter T codes)))%Z.
Proof.
  induction codes as [|c codes IH]; intros z; [cbn; lia|].
  cbn [fold_left List.filter]. rewrite IH. destruct (T c); cbn [length]; lia.
Qed.

Lemma existsb_filter {A} (T : A -> bool) l :
  existsb T l = negb (bool_decide (List.filter T l = [])).
Proof.
  induction l as [|x l IH]; [reflexivity|].
  cbn [existsb List.filter]. destruct (T x); [reflexivity|exact IH].
Qed.

(** X26. The bonus of a professor in the keyword scoring is 8 for every
    requested code taught, 3 more for the hinted department, and 4 less when
    codes are requested and none is taught. So with requested codes a
    professor who teaches one gets at least 8, and one who teaches none gets
    -4 or -1; without requested codes the bonus is 0 or 3. *)
Theorem professor_bonus_bounds :
  forall (codes : list jsstring) (dept : option jsstring) (p : professor),
    let teaches :=
      existsb (fun code => mem (canonCourse code) (map canonCourse (p_courses p))) codes in
    let b := professorBonus codes dept p in
    (codes = [] -> b = 0 \/ b = 3)%Z /\
    (codes <> [] -> teaches = false -> b = -4 \/ b = -1)%Z /\
    (teaches = true -> 8 <= b <= 8 * Z.of_nat (length codes) + 3)%Z.
Proof.
  intros codes dept p teaches b. subst teaches b. unfold professorBonus.
  set (T := fun code => mem (canonCourse code) (map canonCourse (p_courses p))).
  rewrite fold_bonus. rewrite (existsb_filter T).
  pose proof (filter_length_le T codes) as Hl.
  set (n := length (List.filter T codes)) in *.
  assert (Hn : bool_decide (List.filter T codes = []) = true <-> n = 0%nat).
  { rewrite bool_decide_eq_true. subst n. destruct (List.filter T codes); cbn; split;
      congruence. }
  set (d := match dept with Some d => _ | None => _ end).
  assert (Hd : d = (0 + 8 * Z.of_nat n)%Z \/ d = (0 + 8 * Z.of_nat n + 3)%Z).
  { subst d. destruct dept as [x|]; [|now left]. destruct (_ && _); auto. }
  destruct (bool_decide (List.filter T codes = [])) eqn:E; cbn [negb].
  - assert (n = 0%nat) by now apply Hn. split; [|split].
    + intros ->. cbn in *. lia.
    + intros Hc _. destruct codes; [congruence|]. lia.
    + discriminate.
  - assert (n <> 0%nat) by (intros Hz; apply Hn in Hz; discriminate).
    split; [|split].
    + intros ->. cbn in *. lia.
    + discriminate.
    + intros _. destruct codes; [cbn in *; lia|]. lia.
Qed.

(** ** Similarity of vectors of different lengths *)

Lemma cosineLoop_prefix a : forall b extra d na nb,
  (length a <= length b)%nat ->
  cosineLoop a (b ++ extra) d na nb = cosineLoop a b d na nb.
Proof.
  induction a as [|x a IH]; intros b extra d na nb H; [reflexivity|].
  destruct b as [|y b]; [cbn in H; lia|].
  cbn [cosineLoop app tl]. apply IH. cbn in H. lia.
Qed.

Lemma nan_add_l x y : Prim2SF x = S754_nan -> Prim2SF (PrimFloat.add x y) = S754_nan.
Proof. intros H. rewrite add_spec, H. reflexivity. Qed.

Lemma nan_add_r x y : Prim2SF y = S754_nan -> Prim2SF (PrimFloat.add x y) = S754_nan.
Proof. intros H. rewrite add_spec, H. destruct (Prim2SF x); reflexivity. Qed.

Lemma nan_mul_r x y : Prim2SF y = S754_nan -> Prim2SF (PrimFloat.mul x y) = S754_nan.
Proof. intros H. rewrite mul_spec, H. destruct (Prim2SF x); reflexivity. Qed.

Lemma nan_sqrt x : Prim2SF x = S754_nan -> Prim2SF (PrimFloat.sqrt x) = S754_nan.
Proof. intros H. rewrite sqrt_spec, H. reflexivity. Qed.

Lemma nan_div_r x y : Prim2SF y = S754_nan -> Prim2SF (PrimFloat.div x y) = S754_nan.
Proof. intros H. rewrite div_spec, H. destruct (Prim2SF x); reflexivity. Qed.

Lemma nan_leb x y : Prim2SF y = S754_nan -> PrimFloat.leb x y = false.
Proof.
  intros H. rewrite leb_spec, H. unfold SFleb. destruct (Prim2SF x); reflexivity.
Qed.

Lemma cosineLoop_nan a : forall b d na nb,
  Prim2SF nb = S754_nan \/ (length b < length a)%nat ->
  Prim2SF (snd (cosineLoop a b d na nb)) = S754_nan.
Proof.
  induction a as [|x a IH]; intros b d na nb H.
  - destruct H as [H|H]; [exact H|cbn in H; lia].
  - cbn [cosineLoop]. apply IH. destruct H as [H|H].
    + left. now apply nan_add_l.
    + destruct b as [|y b].
      * left. apply nan_add_r. now apply nan_mul_r.
      * right. cbn in *. lia.
Qed.

(** X27. The similarity reads as many components of the second vector as
    the first has: further components are ignored, and a second vector that
    is too short gives NaN, which is below the threshold, so that an index
    item with too short a vector is never a semantic hit. *)
Theorem cosine_lengths :
  forall a b : list float,
    (forall extra, (length a <= length b)%nat -> cosine a (b ++ extra) = cosine a b) /\
    ((length b < length a)%nat -> PrimFloat.leb MIN_SIM (cosine a b) = false).
Proof.
  intros a b. split.
  - intros extra H. unfold cosine. now rewrite cosineLoop_prefix.
  - intros H. apply nan_leb. unfold cosine.
    pose proof (cosineLoop_nan a b fzero fzero fzero (or_intror H)) as Hn.
    destruct (cosineLoop a b fzero fzero fzero) as [[d na] nb]. cbn [snd] in Hn.
    apply nan_div_r, nan_mul_r, nan_sqrt, Hn.
Qed.

(** ** The pieces of a split and the words of a text *)

Lemma runEnd_In P : forall l i b c, In c (ahead (runEnd P i b l)) -> In c l.
Proof.
  induction l as [|x l IH]; intros i b c H; [exact H|].
  cbn [runEnd] in H. destruct (P x); [right; eapply IH; exact H|exact H].
Qed.

Lemma splitFrom_pieces P : forall fuel p q mid w,
  ahead p = mid ++ ahead q -> at_ q = (at_ p + length mid)%nat ->
  (forall c, In c mid -> P c = false) ->
  (length (ahead q) < fuel)%nat ->
  In w (splitFrom fuel (plus (Chr P)) p q) ->
  forall c, In c w -> P c = false /\ In c (ahead p).
Proof.
  induction fuel as [|fuel IH]; intros p q mid w Hp Hq Hm Hf Hw; [lia|].
  cbn [splitFrom] in Hw. destruct q as [i b l]. cbn [ahead at_] in *.
  unfold step in Hw. cbn [ahead at_] in Hw.
  destruct l as [|ch tl].
  - destruct Hw as [<-|[]]. rewrite Hp, app_nil_r. intros c Hc. split; [auto|].
    exact Hc.
  - rewrite matchAt_plus in Hw. destruct (P ch) eqn:EP.
    + destruct (runEnd_spec P tl (S i) (Some ch)) as (R1 & R2 & _).
      set (e := runEnd P (S i) (Some ch) tl) in *.
      replace (at_ e =? at_ p)%nat with false in Hw
        by (symmetry; apply Nat.eqb_neq; lia).
      destruct Hw as [<-|Hw].
      * unfold between. cbn [at_]. rewrite Hq, Hp.
        replace (at_ p + length mid - at_ p)%nat with (length mid + 0)%nat by lia.
        rewrite firstn_app_2. cbn [firstn]. rewrite app_nil_r.
        intros c Hc. split; [auto|]. apply in_or_app. now left.
      * intros c Hc.
        assert (I : forall c, In c w -> P c = false /\ In c (ahead e)).
        { apply (IH e e [] w);
            [reflexivity|cbn; lia|intros x []|cbn in Hf; lia|exact Hw]. }
        destruct (I c Hc) as [I1 I2].
        split; [exact I1|]. rewrite Hp. apply in_or_app. right. right.
        now apply (runEnd_In P tl (S i) (Some ch)).
    + apply (IH p (Cursor (S i) (Some ch) tl) (mid ++ [ch]) w); cbn [ahead at_].
      * now rewrite <- app_assoc.
      * rewrite length_app. cbn. lia.
      * intros c Hc. apply in_app_iff in Hc as [Hc|[<-|[]]]; auto.
      * cbn in Hf. lia.
      * exact Hw.
Qed.

Lemma split_pieces P s w :
  In w (split (plus (Chr P)) s) -> forall c, In c w -> P c = false /\ In c s.
Proof.
  unfold split. destruct s as [|x s].
  - destruct (matchAt _ _); [intros []|]. intros [<-|[]] c [].
  - intros H.
    apply (splitFrom_pieces P (S (2 * length (x :: s))) (start (x :: s))
             (start (x :: s)) [] w);
      [reflexivity|cbn; lia|intros c []|cbn [start ahead length]; lia|exact H].
Qed.

Lemma collapseRuns_kept P : forall s b c,
  In c (collapseRuns P b s) -> c = 32 \/ (In c s /\ P c = false).
Proof.
  induction s as [|x t IH]; intros b c H; [destruct H|].
  cbn [collapseRuns] in H. destruct (P x) eqn:E.
  - destruct b.
    + apply IH in H. destruct H as [H|[H1 H2]]; [now left|right; split; [now right|auto]].
    + destruct H as [<-|H]; [now left|].
      apply IH in H. destruct H as [H|[H1 H2]]; [now left|right; split; [now right|auto]].
  - destruct H as [<-|H]; [right; split; [now left|auto]|].
    apply IH in H. destruct H as [H|[H1 H2]]; [now left|right; split; [now right|auto]].
Qed.

Lemma words_alnum s w :
  In w (words s) ->
  w <> [] /\ forall c, In c w -> isLowerAZ c || isDigit c = true.
Proof.
  unfold words, truthyStrings. intros H. apply filter_In in H as [H Hn].
  split; [intros ->; discriminate|].
  intros c Hc. destruct (split_pieces isSpace _ _ H c Hc) as [Hs Hin].
  apply trim_In in Hin. unfold reNotLowerAlnum in Hin.
  change (lit " ") with [32] in Hin. rewrite replaceAll_plus in Hin.
  apply collapseRuns_kept in Hin as [->|[_ Hk]]; [discriminate|].
  now apply negb_false_iff in Hk.
Qed.

Lemma existsb_false {A} (f : A -> bool) l :
  (forall x, In x l -> f x = false) -> existsb f l = false.
Proof.
  induction l as [|a l IH]; intros H; [reflexivity|].
  cbn. rewrite (H a) by now left. apply IH. intros x Hx. apply H. now right.
Qed.

(** X28. Every word of a text is a non-empty string of lower-case ASCII
    letters and digits. The intent classifier compares these words with the
    last part of each professor's lower-cased name, so a professor whose
    last name holds any other character, an apostrophe or a hyphen for
    example, is never recognised by last name: when every professor has such
    a last name, a message is classified [prof_lookup] only if it holds a
    full name. *)
Theorem words_are_alphanumeric :
  forall s : jsstring,
    (forall w, In w (words s) ->
       w <> [] /\ forallb (fun c => isLowerAZ c || isDigit c) w = true) /\
    (forall name c,
       In c (lastPart name) -> isLowerAZ c || isDigit c = false ->
       existsb (eqs (lastPart name)) (words s) = false) /\
    (forall db SESSION,
       (forall p, In p (professors db) ->
          exists c, In c (lastPart (p_name p)) /\ isLowerAZ c || isDigit c = false) ->
       detectIntent db SESSION s = prof_lookup ->
       exists p, In p (professors db) /\
                 includes (toLowerCase s) (toLowerCase (p_name p)) = true).
Proof.
  intros s.
  assert (H2 : forall name c,
             In c (lastPart name) -> isLowerAZ c || isDigit c = false ->
             forall w, In w (words s) -> eqs (lastPart name) w = false).
  { intros name c Hc Hn w Hw. apply eqs_false. intros E.
    destruct (words_alnum s w Hw) as [_ Ha]. rewrite <- E in Ha.
    rewrite (Ha c Hc) in Hn. discriminate. }
  split; [|split].
  - intros w H. destruct (words_alnum s w H) as [H1 H3]. split; [exact H1|].
    apply forallb_forall. exact H3.
  - intros name c Hc Hn. apply existsb_false. intros w Hw. now apply (H2 name c).
  - intros db S Hp. unfold detectIntent.
    set (full := existsb _ (truthyStrings (map p_name (professors db)))).
    assert (E : existsb (fun token =>
                  existsb (fun p => eqs (lastPart (p_name p)) token) (professors db))
                  (words s) = false).
    { apply existsb_false. intros w Hw. apply existsb_false. intros p Hin.
      destruct (Hp p Hin) as (c & Hc & Hn). now apply (H2 _ c). }
    rewrite E, andb_false_r, orb_false_r.
    destruct (isMajorReqQuery _); [discriminate|].
    destruct (test reRankedProf _); [discriminate|].
    destruct full eqn:Ef.
    + intros _. subst full. apply existsb_exists in Ef as (n & Hn & Hi).
      unfold truthyStrings in Hn. apply filter_In in Hn as [Hn _].
      apply in_map_iff in Hn as (p & <- & Hin). eauto.
    + destruct (test reClassFull _); [discriminate|].
      destruct (test reTutoring _); [discriminate|].
      destruct (test reDeadline _); [discriminate|].
      destruct (_ && _); discriminate.
Qed.

(** ** What a turn reads of the session *)

Lemma search_hits_indep sf em cfg f db idx S S' q :
  snd (searchLocalKB sf em cfg f db idx S q) = snd (searchLocalKB sf em cfg f db idx S' q).
Proof.
  unfold searchLocalKB.
  destruct (exactMatches _ _); [|reflexivity].
  destruct (match mentioned _ _ with [] => _ | _ => _ end); [|reflexivity].
  destruct (parseRankIntent q) as [tags asked].
  destruct (courseCodesInQuery _ _); [reflexivity|].
  destruct asked; [|reflexivity].
  destruct (chosenRanked _ _ _); reflexivity.
Qed.

Lemma detectIntent_sessions db S S' q :
  detectIntent db S q <> class_full -> detectIntent db S' q <> class_full ->
  detectIntent db S q = detectIntent db S' q.
Proof.
  unfold detectIntent.
  destruct (isMajorReqQuery _); [reflexivity|].
  destruct (test reRankedProf _); [reflexivity|].
  destruct (_ || _); [reflexivity|].
  destruct (test reClassFull _); [reflexivity|].
  destruct (test reTutoring _); [reflexivity|].
  destruct (test reDeadline _); [reflexivity|].
  destruct (test reWhoShould _); [|reflexivity]. cbn [andb].
  destruct (isSet (lastCourse S)), (isSet (lastCourse S')); congruence.
Qed.

(** X29. The search never reads the session: its hits, or its exception,
    are the same whatever the session holds. The reply of a whole turn
    depends on the session only when the intent is [class_full]: two
    sessions in which the turn is not so classified get the same reply.
    When it is so classified the reply can differ: "the class is full" gets
    the next ranked name after a ranking query and the completion's text in
    a fresh session. *)
Theorem reply_reads_session_only_when_class_full :
  forall sf em cfg f db idx complete (S S' : session) (message : jsstring),
    snd (searchLocalKB sf em cfg f db idx S message)
    = snd (searchLocalKB sf em cfg f db idx S' message) /\
    (detectIntent db (fst (searchLocalKB sf em cfg f db idx S message)) message
       <> class_full ->
     detectIntent db (fst (searchLocalKB sf em cfg f db idx S' message)) message
       <> class_full ->
     snd (chat sf em cfg f db idx complete S message)
     = snd (chat sf em cfg f db idx complete S' message)) /\
    snd (chat showNothing noEmbedding false fetchFails mathDb [] cannedCompletion
           SESSION0 (lit "the class is full"))
    <> snd (chat showNothing noEmbedding false fetchFails mathDb [] cannedCompletion
              afterMathQuery (lit "the class is full")).
Proof.
  intros sf em cfg f db idx complete S S' q.
  pose proof (search_hits_indep sf em cfg f db idx S S' q) as Hh.
  split; [exact Hh|]. split; [|vm_compute; discriminate].
  intros H1 H2.
  pose proof (detectIntent_sessions db _ _ q H1 H2) as Hi.
  unfold chat, chatStep.
  destruct (searchLocalKB sf em cfg f db idx S q) as [s1 found].
  destruct (searchLocalKB sf em cfg f db idx S' q) as [s1' found'].
  cbn [fst snd] in *. subst found'.
  destruct found as [hits|e]; [|reflexivity].
  rewrite <- Hi.
  destruct (detectIntent db s1 q); try (destruct (complete _); reflexivity).
  congruence.
Qed.
